(** * Session layer of the pixi game client: transport, state store, resumption

    A shallow embedding of

    - [gameState.ts]           (the [GlobalState] store and its listener
                                registries; in this tree it follows
                                [Toolbar.ts] in [src/components/Toolbar.ts]),
    - [WebSocketService.ts]    ([src/WebSockets/WebSocketService.ts]),
    - [main.ts]                ([checkForPendingGames], [restorePendingGame];
                                [src/main.ts]),

    with the properties of the specification proved (or refuted) about it.

    The code is callback driven and single threaded.  Every function of the
    source becomes a computation in a small state-and-exception monad over
    one [World]: the store, the service, the host hooks, the pending timers
    and the chronological list of observable events (console output,
    callback invocations, frames put on the wire). *)

From Stdlib Require Import ZArith String Ascii List Bool Lia Decimal DecimalPos DecimalString.
From stdpp Require Import base strings gmap list.

Set Warnings "-register-all".

Local Open Scope Z_scope.

(** ** JavaScript values *)

Module JS.

(** The values that cross the wire or are handed to callbacks.  Numbers are
    the integers plus [NaN]; fractional amounts are outside the model. *)
Inductive value : Type :=
| VUndefined
| VNull
| VBool (b : bool)
| VNum (z : Z)
| VNaN
| VStr (s : string)
| VArr (items : list value)
| VObj (fields : list (string * value)).

(** What a slot declared [number] holds at run time. *)
Inductive jsnum : Type :=
| Num (z : Z)
| NaN
| Undef.

Definition jsnum_value (n : jsnum) : value :=
  match n with
  | Num z => VNum z
  | NaN => VNaN
  | Undef => VUndefined
  end.

Definition jsnum_eqb (a b : jsnum) : bool :=
  match a, b with
  | Num x, Num y => Z.eqb x y
  | Undef, Undef => true
  | _, _ => false
  end.

(** [a !== b] on number slots: [NaN] differs from everything, itself
    included. *)
Definition jsnum_neq (a b : jsnum) : bool := negb (jsnum_eqb a b).

(** [a - b]; [undefined] converts to [NaN]. *)
Definition jsnum_sub (a b : jsnum) : jsnum :=
  match a, b with
  | Num x, Num y => Num (x - y)
  | _, _ => NaN
  end.

(** [a >= b]; false as soon as one side is [NaN]. *)
Definition jsnum_ge (a b : jsnum) : bool :=
  match a, b with
  | Num x, Num y => Z.leb y x
  | _, _ => false
  end.

Definition jsnum_truthy (n : jsnum) : bool :=
  match n with
  | Num z => negb (Z.eqb z 0)
  | _ => false
  end.

(** ToBoolean. *)
Definition truthy (v : value) : bool :=
  match v with
  | VUndefined | VNull | VNaN => false
  | VBool b => b
  | VNum z => negb (Z.eqb z 0)
  | VStr s => negb (String.eqb s EmptyString)
  | VArr _ | VObj _ => true
  end.

(** [a || b] returns one of its operands. *)
Definition or (a b : value) : value := if truthy a then a else b.

(** [v === "lit"]. *)
Definition is_str (v : value) (lit : string) : bool :=
  match v with
  | VStr s => String.eqb s lit
  | _ => false
  end.

Definition isArray (v : value) : bool :=
  match v with
  | VArr _ => true
  | _ => false
  end.

(** [undefined] and [null] are the two values on which a property read
    throws a [TypeError]. *)
Definition nullish (v : value) : bool :=
  match v with
  | VUndefined | VNull => true
  | _ => false
  end.

Fixpoint assoc (k : string) (fields : list (string * value)) : value :=
  match fields with
  | [] => VUndefined
  | (k', v) :: rest => if String.eqb k' k then v else assoc k rest
  end.

(** [v.k] for a [v] that is not nullish.  The service reads only [data],
    [status], [operation], [event] and [mineSweeperAmounts]; no primitive
    and no array defines one of these, so the read is [undefined] there. *)
Definition prop (v : value) (k : string) : value :=
  match v with
  | VObj fields => assoc k fields
  | _ => VUndefined
  end.

(** *** [JSON.stringify] *)

Definition hex_digit (n : N) : ascii :=
  ascii_of_N (if N.ltb n 10 then 48 + n else 87 + n)%N.

(** The double quote and the backslash, by their codes. *)
Definition dquote : string := String (ascii_of_N 34) EmptyString.
Definition bslash : string := String (ascii_of_N 92) EmptyString.

(** One character inside a JSON string literal. *)
Definition escape_char (c : ascii) : string :=
  let n := N_of_ascii c in
  if N.eqb n 34 then bslash +:+ dquote
  else if N.eqb n 92 then bslash +:+ bslash
  else if N.eqb n 8 then bslash +:+ "b"
  else if N.eqb n 12 then bslash +:+ "f"
  else if N.eqb n 10 then bslash +:+ "n"
  else if N.eqb n 13 then bslash +:+ "r"
  else if N.eqb n 9 then bslash +:+ "t"
  else if N.ltb n 32 then
    bslash +:+ "u00" +:+
    String (hex_digit (N.div n 16)) (String (hex_digit (N.modulo n 16)) EmptyString)
  else String c EmptyString.

Fixpoint escape (s : string) : string :=
  match s with
  | EmptyString => EmptyString
  | String c r => escape_char c +:+ escape r
  end.

Definition quote (s : string) : string := dquote +:+ escape s +:+ dquote.

Definition decimal (z : Z) : string := NilZero.string_of_int (Z.to_int z).

Definition join_comma (parts : list string) : string :=
  match parts with
  | [] => EmptyString
  | p :: ps => fold_left (fun acc q => acc +:+ "," +:+ q) ps p
  end.

(** [None] stands for the result [undefined] (the value is not
    serialisable on its own).  In an array such an item is written [null];
    in an object the property is left out. *)
Fixpoint stringify (v : value) : option string :=
  match v with
  | VUndefined => None
  | VNull => Some "null"
  | VBool true => Some "true"
  | VBool false => Some "false"
  | VNum z => Some (decimal z)
  | VNaN => Some "null"
  | VStr s => Some (quote s)
  | VArr items =>
      Some ("[" +:+ join_comma (map (fun x => default "null" (stringify x)) items) +:+ "]")
  | VObj fields =>
      let member (kv : string * value) : list string :=
        match stringify (snd kv) with
        | Some t => [quote (fst kv) +:+ ":" +:+ t]
        | None => []
        end in
      Some ("{" +:+ join_comma (concat (map member fields)) +:+ "}")
  end.

(** *** [String.prototype.split] on a one-character separator *)

Fixpoint split (sep : ascii) (s : string) : list string :=
  match s with
  | EmptyString => [EmptyString]
  | String c r =>
      if Ascii.eqb c sep then EmptyString :: split sep r
      else match split sep r with
           | h :: t => String c h :: t
           | [] => [String c EmptyString]
           end
  end.

(** *** [parseInt] with one argument *)

Definition is_space (c : ascii) : bool :=
  let n := N_of_ascii c in
  (N.leb 9 n && N.leb n 13) || N.eqb n 32.

Fixpoint skip_spaces (s : string) : string :=
  match s with
  | String c r => if is_space c then skip_spaces r else s
  | EmptyString => s
  end.

Definition digit_of (radix : Z) (c : ascii) : option Z :=
  let n := Z.of_N (N_of_ascii c) in
  let d := if (48 <=? n) && (n <=? 57) then n - 48
           else if (97 <=? n) && (n <=? 122) then n - 87
           else if (65 <=? n) && (n <=? 90) then n - 55
           else radix in
  if d <? radix then Some d else None.

(** Longest prefix of digits; [None] when there is no digit at all. *)
Fixpoint digits (radix : Z) (acc : option Z) (s : string) : option Z :=
  match s with
  | EmptyString => acc
  | String c r =>
      match digit_of radix c with
      | Some d => digits radix (Some (radix * default 0 acc + d)) r
      | None => acc
      end
  end.

Definition parseInt (s : string) : jsnum :=
  let s1 := skip_spaces s in
  let '(sign, s2) :=
    match s1 with
    | String "-" r => (-1, r)
    | String "+" r => (1, r)
    | _ => (1, s1)
    end in
  let '(radix, s3) :=
    match s2 with
    | String "0" (String "x" r) => (16, r)
    | String "0" (String "X" r) => (16, r)
    | _ => (10, s2)
    end in
  match digits radix None s3 with
  | Some n => Num (sign * n)
  | None => NaN
  end.

End JS.

(** ** Observable events, callbacks and the world *)

Inductive Level : Type := Info | Warn | Error.

(** What the program does that can be seen from outside, in the order it
    does it.  A [Console] entry keeps the fixed text of the message and the
    values interpolated into it. *)
Inductive Event : Type :=
| Console (lvl : Level) (text : string) (args : list JS.value)
| Call (id : nat) (args : list JS.value)
| Transmit (frame : string)
| NewWebSocket (url : string)
| LogoutUser.

(** A function handed to the store or to the service by its caller.  It is
    foreign code: the model records that it is called, with which
    arguments, and whether the call returns or throws, which may depend on
    everything observed so far.  Two callbacks are the same function when
    they carry the same [cb_id].  In [GlobalState], [WebSocketService] and
    [Main] below a call does nothing else to the world: those are the
    runs in which no callback uses the store or the service while it is
    called.  Module [Reentrant] has the calls of functions that do. *)
Record Callback : Type := {
  cb_id : nat;
  cb_throws : list Event -> list JS.value -> bool
}.

(** [window.logoutUser], when the host page defines it: whether the call
    throws, given the events so far. *)
Definition Hook : Type := list Event -> bool.

Inductive Exn : Type :=
| TypeError (what : string)
| SyntaxError (raw : string)
| Thrown (by_callback : nat)
| ThrownByHook.

Inductive nullable_string : Type :=
| SUndefined
| SNull
| SStr (s : string).

(** The [GlobalState] object literal of gameState.ts: its data members. *)
Record GlobalStateObject : Type := {
  token : nullable_string;
  total_rows : JS.jsnum;
  total_cols : JS.jsnum;
  current_row : JS.jsnum;
  game_matrix : list (list string);
  balance : Z;
  stakeAmount : Z;
  roundId : nullable_string;
  reward : Z;
  table_id : string
}.

(** The module-level variables of gameState.ts. *)
Record ModuleState : Type := {
  gameStarted : bool;
  gameStartedListeners : list Callback;
  gameEndedListeners : list Callback;
  balanceChangeListeners : list Callback;
  gridDimensionChangeListeners : list Callback;
  pendingGameRestoreListeners : list Callback;
  pendingGameRestoreCompleteListeners : list Callback
}.

Inductive ReadyState : Type := CONNECTING | OPEN | CLOSING | CLOSED.

Record WSMessage : Type := { event : string; data : JS.value }.

(** What the handler table of the service holds: a function given to [on],
    or the closure [onceCallback] that [once] builds around one. *)
Inductive Handler : Type :=
| Plain (callback : Callback)
| OnceCallback (event : string) (callback : Callback).

(** The private members of [WebSocketService]. *)
Record Service : Type := {
  socket : option ReadyState;
  listeners : gmap string Handler;
  queue : list WSMessage;
  isConnected : bool
}.

Inductive Task : Type :=
| TriggerPendingGameRestoreTask
| ConnectTask.

Record Timer : Type := { delay : Z; task : Task }.

Record World : Type := {
  store : GlobalStateObject;
  vars : ModuleState;
  ws : Service;
  window_logoutUser : option Hook;
  timers : list Timer;
  trace : list Event
}.

(** ** The computation monad *)

Inductive Outcome (A : Type) : Type :=
| Ret (a : A)
| Throw (e : Exn)
| OutOfFuel.
Arguments Ret {A} a.
Arguments Throw {A} e.
Arguments OutOfFuel {A}.

Definition M (A : Type) : Type := World -> Outcome A * World.

Definition ret {A} (a : A) : M A := fun w => (Ret a, w).

Definition bind {A B} (m : M A) (k : A -> M B) : M B :=
  fun w =>
    match m w with
    | (Ret a, w') => k a w'
    | (Throw e, w') => (Throw e, w')
    | (OutOfFuel, w') => (OutOfFuel, w')
    end.

Notation "x <- c1 ;; c2" := (bind c1 (fun x => c2))
  (at level 100, c1 at next level, right associativity).
Notation "c1 ;; c2" := (bind c1 (fun _ => c2))
  (at level 100, right associativity).

Definition throw {A} (e : Exn) : M A := fun w => (Throw e, w).

(** [try { body } catch (e) { handler e }]. *)
Definition try_catch {A} (body : M A) (handler : Exn -> M A) : M A :=
  fun w =>
    match body w with
    | (Throw e, w') => handler e w'
    | r => r
    end.

Definition gets {A} (f : World -> A) : M A := fun w => (Ret (f w), w).

Definition modify (f : World -> World) : M unit := fun w => (Ret tt, f w).

Definition when (b : bool) (m : M unit) : M unit := if b then m else ret tt.

Definition with_store (f : GlobalStateObject -> GlobalStateObject) (w : World) : World :=
  {| store := f (store w); vars := vars w; ws := ws w;
     window_logoutUser := window_logoutUser w; timers := timers w; trace := trace w |}.

Definition with_vars (f : ModuleState -> ModuleState) (w : World) : World :=
  {| store := store w; vars := f (vars w); ws := ws w;
     window_logoutUser := window_logoutUser w; timers := timers w; trace := trace w |}.

Definition with_ws (f : Service -> Service) (w : World) : World :=
  {| store := store w; vars := vars w; ws := f (ws w);
     window_logoutUser := window_logoutUser w; timers := timers w; trace := trace w |}.

Definition with_timers (f : list Timer -> list Timer) (w : World) : World :=
  {| store := store w; vars := vars w; ws := ws w;
     window_logoutUser := window_logoutUser w; timers := f (timers w); trace := trace w |}.

Definition with_trace (f : list Event -> list Event) (w : World) : World :=
  {| store := store w; vars := vars w; ws := ws w;
     window_logoutUser := window_logoutUser w; timers := timers w; trace := f (trace w) |}.

Definition emit (e : Event) : M unit := modify (with_trace (fun t => t ++ [e])).

Definition console_log (text : string) (args : list JS.value) : M unit :=
  emit (Console Info text args).
Definition console_warn (text : string) (args : list JS.value) : M unit :=
  emit (Console Warn text args).
Definition console_error (text : string) (args : list JS.value) : M unit :=
  emit (Console Error text args).

(** [setTimeout(task, delay)]. *)
Definition setTimeout (t : Task) (ms : Z) : M unit :=
  modify (with_timers (fun ts => ts ++ [{| delay := ms; task := t |}])).

(** Calling a callback: the call is observed, then it returns or throws. *)
Definition invoke (cb : Callback) (args : list JS.value) : M unit :=
  history <- gets trace ;;
  emit (Call (cb_id cb) args) ;;
  if cb_throws cb history args then throw (Thrown (cb_id cb)) else ret tt.

(** [listeners.forEach(l => { try { l(args) } catch (error) { console.error(text, error) } })]. *)
Fixpoint forEach_guarded (ls : list Callback) (args : list JS.value) (text : string) : M unit :=
  match ls with
  | [] => ret tt
  | l :: rest =>
      try_catch (invoke l args) (fun _ => console_error text []) ;;
      forEach_guarded rest args text
  end.

(** [array.indexOf(callback)] followed by [array.splice(index, 1)] when the
    index is not [-1]: the first occurrence of the function goes. *)
Fixpoint remove_first (id : nat) (ls : list Callback) : list Callback :=
  match ls with
  | [] => []
  | l :: rest => if Nat.eqb (cb_id l) id then rest else l :: remove_first id rest
  end.

Definition len (ls : list Callback) : JS.value := JS.VNum (Z.of_nat (length ls)).

(** ** gameState.ts *)

Module GlobalState.

Definition DEFAULT_ROWS : Z := 6.
Definition DEFAULT_COLS : Z := 5.
Definition DEFAULT_BALANCE : Z := 1000000.
Definition DEFAULT_STAKE : Z := 1.
Definition DEFAULT_TABLE_ID : string := "STGMS101".

(** The object literal and the module variables as the module leaves them
    when it has been loaded. *)
Definition initial_store : GlobalStateObject :=
  {| token := SNull;
     total_rows := JS.Num DEFAULT_ROWS;
     total_cols := JS.Num DEFAULT_COLS;
     current_row := JS.Num (DEFAULT_ROWS - 1);
     game_matrix := [];
     balance := DEFAULT_BALANCE;
     stakeAmount := DEFAULT_STAKE;
     roundId := SNull;
     reward := 0;
     table_id := DEFAULT_TABLE_ID |}.

Definition initial_vars : ModuleState :=
  {| gameStarted := false;
     gameStartedListeners := [];
     gameEndedListeners := [];
     balanceChangeListeners := [];
     gridDimensionChangeListeners := [];
     pendingGameRestoreListeners := [];
     pendingGameRestoreCompleteListeners := [] |}.

(** *** Assignments to one member *)

Definition assign_token (x : nullable_string) (s : GlobalStateObject) : GlobalStateObject :=
  {| token := x; total_rows := total_rows s; total_cols := total_cols s;
     current_row := current_row s; game_matrix := game_matrix s; balance := balance s;
     stakeAmount := stakeAmount s; roundId := roundId s; reward := reward s;
     table_id := table_id s |}.

Definition assign_dimensions (cols rows : JS.jsnum) (s : GlobalStateObject) : GlobalStateObject :=
  {| token := token s; total_rows := rows; total_cols := cols;
     current_row := current_row s; game_matrix := game_matrix s; balance := balance s;
     stakeAmount := stakeAmount s; roundId := roundId s; reward := reward s;
     table_id := table_id s |}.

Definition assign_current_row (x : JS.jsnum) (s : GlobalStateObject) : GlobalStateObject :=
  {| token := token s; total_rows := total_rows s; total_cols := total_cols s;
     current_row := x; game_matrix := game_matrix s; balance := balance s;
     stakeAmount := stakeAmount s; roundId := roundId s; reward := reward s;
     table_id := table_id s |}.

Definition assign_game_matrix (x : list (list string)) (s : GlobalStateObject) :
    GlobalStateObject :=
  {| token := token s; total_rows := total_rows s; total_cols := total_cols s;
     current_row := current_row s; game_matrix := x; balance := balance s;
     stakeAmount := stakeAmount s; roundId := roundId s; reward := reward s;
     table_id := table_id s |}.

Definition assign_balance (x : Z) (s : GlobalStateObject) : GlobalStateObject :=
  {| token := token s; total_rows := total_rows s; total_cols := total_cols s;
     current_row := current_row s; game_matrix := game_matrix s; balance := x;
     stakeAmount := stakeAmount s; roundId := roundId s; reward := reward s;
     table_id := table_id s |}.

Definition assign_stakeAmount (x : Z) (s : GlobalStateObject) : GlobalStateObject :=
  {| token := token s; total_rows := total_rows s; total_cols := total_cols s;
     current_row := current_row s; game_matrix := game_matrix s; balance := balance s;
     stakeAmount := x; roundId := roundId s; reward := reward s;
     table_id := table_id s |}.

Definition assign_roundId (x : nullable_string) (s : GlobalStateObject) : GlobalStateObject :=
  {| token := token s; total_rows := total_rows s; total_cols := total_cols s;
     current_row := current_row s; game_matrix := game_matrix s; balance := balance s;
     stakeAmount := stakeAmount s; roundId := x; reward := reward s;
     table_id := table_id s |}.

Definition assign_reward (x : Z) (s : GlobalStateObject) : GlobalStateObject :=
  {| token := token s; total_rows := total_rows s; total_cols := total_cols s;
     current_row := current_row s; game_matrix := game_matrix s; balance := balance s;
     stakeAmount := stakeAmount s; roundId := roundId s; reward := x;
     table_id := table_id s |}.

Definition assign_gameStarted (x : bool) (v : ModuleState) : ModuleState :=
  {| gameStarted := x;
     gameStartedListeners := gameStartedListeners v;
     gameEndedListeners := gameEndedListeners v;
     balanceChangeListeners := balanceChangeListeners v;
     gridDimensionChangeListeners := gridDimensionChangeListeners v;
     pendingGameRestoreListeners := pendingGameRestoreListeners v;
     pendingGameRestoreCompleteListeners := pendingGameRestoreCompleteListeners v |}.

Definition update_gameStartedListeners (f : list Callback -> list Callback)
    (v : ModuleState) : ModuleState :=
  {| gameStarted := gameStarted v;
     gameStartedListeners := f (gameStartedListeners v);
     gameEndedListeners := gameEndedListeners v;
     balanceChangeListeners := balanceChangeListeners v;
     gridDimensionChangeListeners := gridDimensionChangeListeners v;
     pendingGameRestoreListeners := pendingGameRestoreListeners v;
     pendingGameRestoreCompleteListeners := pendingGameRestoreCompleteListeners v |}.

Definition update_gameEndedListeners (f : list Callback -> list Callback)
    (v : ModuleState) : ModuleState :=
  {| gameStarted := gameStarted v;
     gameStartedListeners := gameStartedListeners v;
     gameEndedListeners := f (gameEndedListeners v);
     balanceChangeListeners := balanceChangeListeners v;
     gridDimensionChangeListeners := gridDimensionChangeListeners v;
     pendingGameRestoreListeners := pendingGameRestoreListeners v;
     pendingGameRestoreCompleteListeners := pendingGameRestoreCompleteListeners v |}.

Definition update_balanceChangeListeners (f : list Callback -> list Callback)
    (v : ModuleState) : ModuleState :=
  {| gameStarted := gameStarted v;
     gameStartedListeners := gameStartedListeners v;
     gameEndedListeners := gameEndedListeners v;
     balanceChangeListeners := f (balanceChangeListeners v);
     gridDimensionChangeListeners := gridDimensionChangeListeners v;
     pendingGameRestoreListeners := pendingGameRestoreListeners v;
     pendingGameRestoreCompleteListeners := pendingGameRestoreCompleteListeners v |}.

Definition update_gridDimensionChangeListeners (f : list Callback -> list Callback)
    (v : ModuleState) : ModuleState :=
  {| gameStarted := gameStarted v;
     gameStartedListeners := gameStartedListeners v;
     gameEndedListeners := gameEndedListeners v;
     balanceChangeListeners := balanceChangeListeners v;
     gridDimensionChangeListeners := f (gridDimensionChangeListeners v);
     pendingGameRestoreListeners := pendingGameRestoreListeners v;
     pendingGameRestoreCompleteListeners := pendingGameRestoreCompleteListeners v |}.

Definition update_pendingGameRestoreListeners (f : list Callback -> list Callback)
    (v : ModuleState) : ModuleState :=
  {| gameStarted := gameStarted v;
     gameStartedListeners := gameStartedListeners v;
     gameEndedListeners := gameEndedListeners v;
     balanceChangeListeners := balanceChangeListeners v;
     gridDimensionChangeListeners := gridDimensionChangeListeners v;
     pendingGameRestoreListeners := f (pendingGameRestoreListeners v);
     pendingGameRestoreCompleteListeners := pendingGameRestoreCompleteListeners v |}.

Definition update_pendingGameRestoreCompleteListeners (f : list Callback -> list Callback)
    (v : ModuleState) : ModuleState :=
  {| gameStarted := gameStarted v;
     gameStartedListeners := gameStartedListeners v;
     gameEndedListeners := gameEndedListeners v;
     balanceChangeListeners := balanceChangeListeners v;
     gridDimensionChangeListeners := gridDimensionChangeListeners v;
     pendingGameRestoreListeners := pendingGameRestoreListeners v;
     pendingGameRestoreCompleteListeners := f (pendingGameRestoreCompleteListeners v) |}.

Definition push (cb : Callback) (ls : list Callback) : list Callback := ls ++ [cb].

(** *** Game started / ended *)

Definition setGameStarted (started : bool) : M unit :=
  wasStarted <- gets (fun w => gameStarted (vars w)) ;;
  modify (with_vars (assign_gameStarted started)) ;;
  console_log "Game started state changed to:" [JS.VBool started] ;;
  when (started && negb wasStarted)
    (ls <- gets (fun w => gameStartedListeners (vars w)) ;;
     console_log "Triggering game started listeners" [len ls] ;;
     forEach_guarded ls [] "Error in game started listener:") ;;
  when (negb started && wasStarted)
    (ls <- gets (fun w => gameEndedListeners (vars w)) ;;
     console_log "Triggering game ended listeners" [len ls] ;;
     forEach_guarded ls [] "Error in game ended listener:").

Definition getGameStarted : M bool := gets (fun w => gameStarted (vars w)).

Definition addGameStartedListener (callback : Callback) : M unit :=
  modify (with_vars (update_gameStartedListeners (push callback))) ;;
  ls <- gets (fun w => gameStartedListeners (vars w)) ;;
  console_log "Added game started listener. Total listeners:" [len ls].

(** The closure [addGameStartedListener] returns. *)
Definition unsubscribeGameStartedListener (callback : Callback) : M unit :=
  ls <- gets (fun w => gameStartedListeners (vars w)) ;;
  when (existsb (fun l => Nat.eqb (cb_id l) (cb_id callback)) ls)
    (modify (with_vars (update_gameStartedListeners (remove_first (cb_id callback)))) ;;
     ls' <- gets (fun w => gameStartedListeners (vars w)) ;;
     console_log "Removed game started listener. Remaining listeners:" [len ls']).

Definition addGameEndedListener (callback : Callback) : M unit :=
  modify (with_vars (update_gameEndedListeners (push callback))) ;;
  ls <- gets (fun w => gameEndedListeners (vars w)) ;;
  console_log "Added game ended listener. Total listeners:" [len ls].

Definition unsubscribeGameEndedListener (callback : Callback) : M unit :=
  ls <- gets (fun w => gameEndedListeners (vars w)) ;;
  when (existsb (fun l => Nat.eqb (cb_id l) (cb_id callback)) ls)
    (modify (with_vars (update_gameEndedListeners (remove_first (cb_id callback)))) ;;
     ls' <- gets (fun w => gameEndedListeners (vars w)) ;;
     console_log "Removed game ended listener. Remaining listeners:" [len ls']).

(** *** Balance *)

Definition triggerBalanceChange (newBalance : Z) : M unit :=
  ls <- gets (fun w => balanceChangeListeners (vars w)) ;;
  console_log "Triggering balance change listeners with balance:" [len ls; JS.VNum newBalance] ;;
  forEach_guarded ls [JS.VNum newBalance] "Error in balance change listener:".

Definition setBalance (b : Z) : M unit :=
  previousBalance <- gets (fun w => balance (store w)) ;;
  modify (with_store (assign_balance b)) ;;
  console_log "Balance updated from/to" [JS.VNum previousBalance; JS.VNum b] ;;
  when (negb (Z.eqb previousBalance b)) (triggerBalanceChange b).

Definition getBalance : M Z := gets (fun w => balance (store w)).

Definition addBalanceChangeListener (callback : Callback) : M unit :=
  modify (with_vars (update_balanceChangeListeners (push callback))) ;;
  ls <- gets (fun w => balanceChangeListeners (vars w)) ;;
  console_log "Added balance change listener. Total listeners:" [len ls].

Definition getTableId : M string := gets (fun w => table_id (store w)).

(** *** Grid dimensions *)

Definition setGridDimensions (cols rows : JS.jsnum) : M unit :=
  prevCols <- gets (fun w => total_cols (store w)) ;;
  prevRows <- gets (fun w => total_rows (store w)) ;;
  modify (with_store (assign_dimensions cols rows)) ;;
  console_log "Grid dimensions updated (previous)"
    (map JS.jsnum_value [cols; rows; prevCols; prevRows]) ;;
  when (JS.jsnum_neq prevCols cols || JS.jsnum_neq prevRows rows)
    (ls <- gets (fun w => gridDimensionChangeListeners (vars w)) ;;
     console_log "Triggering grid dimension change listeners" [len ls] ;;
     forEach_guarded ls (map JS.jsnum_value [cols; rows])
       "Error in grid dimension change listener:").

Definition addGridDimensionChangeListener (callback : Callback) : M unit :=
  modify (with_vars (update_gridDimensionChangeListeners (push callback))) ;;
  ls <- gets (fun w => gridDimensionChangeListeners (vars w)) ;;
  console_log "Added grid dimension change listener. Total listeners:" [len ls].

(** *** Plain setters and getters *)

Definition nullable_value (x : nullable_string) : JS.value :=
  match x with
  | SUndefined => JS.VUndefined
  | SNull => JS.VNull
  | SStr s => JS.VStr s
  end.

Definition setStakeAmount (amount : Z) : M unit :=
  modify (with_store (assign_stakeAmount amount)) ;;
  console_log "Stake amount set to:" [JS.VNum amount].

Definition getStakeAmount : M Z := gets (fun w => stakeAmount (store w)).

Definition setRoundId (id : nullable_string) : M unit :=
  modify (with_store (assign_roundId id)) ;;
  console_log "Round ID set:" [nullable_value id].

Definition getRoundId : M nullable_string := gets (fun w => roundId (store w)).

Definition setCurrentRow (row : JS.jsnum) : M unit :=
  console_log "Setting current row to:" [JS.jsnum_value row] ;;
  modify (with_store (assign_current_row row)).

Definition getCurrentRow : M JS.jsnum := gets (fun w => current_row (store w)).

Definition setGameMatrix (matrix : list (list string)) : M unit :=
  modify (with_store (assign_game_matrix matrix)) ;;
  console_log "Game matrix updated" [].

Definition setReward (newReward : Z) : M unit :=
  modify (with_store (assign_reward newReward)) ;;
  console_log "Reward set to:" [JS.VNum newReward].

Definition getReward : M Z := gets (fun w => reward (store w)).

Definition setToken (t : string) : M unit :=
  console_log "Setting token for React integration:" [JS.VStr t] ;;
  modify (with_store (assign_token (SStr t))).

Definition getToken : M nullable_string := gets (fun w => token (store w)).

(** *** Pending game restoration *)

Definition addPendingGameRestoreListener (listener : Callback) : M unit :=
  modify (with_vars (update_pendingGameRestoreListeners (push listener))) ;;
  ls <- gets (fun w => pendingGameRestoreListeners (vars w)) ;;
  console_log "Added pending game restore listener. Total listeners:" [len ls].

(** The closure [addPendingGameRestoreListener] returns. *)
Definition unsubscribePendingGameRestoreListener (listener : Callback) : M unit :=
  ls <- gets (fun w => pendingGameRestoreListeners (vars w)) ;;
  when (existsb (fun l => Nat.eqb (cb_id l) (cb_id listener)) ls)
    (modify (with_vars (update_pendingGameRestoreListeners (remove_first (cb_id listener)))) ;;
     ls' <- gets (fun w => pendingGameRestoreListeners (vars w)) ;;
     console_log "Removed pending game restore listener. Remaining listeners:" [len ls']).

Definition addPendingGameRestoreCompleteListener (listener : Callback) : M unit :=
  modify (with_vars (update_pendingGameRestoreCompleteListeners (push listener))) ;;
  ls <- gets (fun w => pendingGameRestoreCompleteListeners (vars w)) ;;
  console_log "Added pending game restore complete listener. Total listeners:" [len ls].

(** The source: a log line, and the comment that the body can be extended
    later.  Nothing reads [pendingGameRestoreListeners] here. *)
Definition triggerPendingGameRestore : M unit :=
  console_log "Triggering pending game restore" [].

(** The object literal has no member [setBetSteps] (nor [getBetSteps]):
    reading it gives [undefined], and calling that throws. *)
Definition setBetSteps (steps : JS.value) : M unit :=
  throw (TypeError "GlobalState.setBetSteps is not a function").

End GlobalState.

(** ** WebSocketService.ts *)

Module WebSocketService.

Definition reconnectDelay : Z := 1000.

Definition assign_socket (x : option ReadyState) (s : Service) : Service :=
  {| socket := x; listeners := listeners s; queue := queue s; isConnected := isConnected s |}.

Definition assign_listeners (x : gmap string Handler) (s : Service) : Service :=
  {| socket := socket s; listeners := x; queue := queue s; isConnected := isConnected s |}.

Definition assign_queue (x : list WSMessage) (s : Service) : Service :=
  {| socket := socket s; listeners := listeners s; queue := x; isConnected := isConnected s |}.

Definition assign_isConnected (x : bool) (s : Service) : Service :=
  {| socket := socket s; listeners := listeners s; queue := queue s; isConnected := x |}.

(** The field initialisers of the class. *)
Definition initial_service : Service :=
  {| socket := None; listeners := ∅; queue := []; isConnected := false |}.

(** A value inside a template literal. *)
Definition template (x : nullable_string) : string :=
  match x with
  | SUndefined => "undefined"
  | SNull => "null"
  | SStr s => s
  end.

Definition getWebSocketUrl : M string :=
  t <- GlobalState.getToken ;;
  ret ("wss://backend.inferixai.link/user/auth?authorization=Bearer " +:+ template t).

(** [this.isConnected && this.socket?.readyState === WebSocket.OPEN]. *)
Definition is_open (s : Service) : bool :=
  isConnected s &&
  match socket s with
  | Some OPEN => true
  | _ => false
  end.

Definition isSocketConnected : M bool := gets (fun w => is_open (ws w)).

(** What [socket.send] puts on the wire for the result of
    [JSON.stringify]: the text, or the text of [undefined]. *)
Definition wire (msg : option string) : string := default "undefined" msg.

Definition send (event : string) (data : JS.value) : M unit :=
  let msg := JS.stringify data in
  open <- isSocketConnected ;;
  if open then emit (Transmit (wire msg))
  else modify (with_ws (fun s =>
         assign_queue (queue s ++ [{| event := event; data := data |}]) s)).

Definition on (event : string) (callback : Handler) : M unit :=
  modify (with_ws (fun s => assign_listeners (<[event := callback]> (listeners s)) s)).

Definition off (event : string) : M unit :=
  modify (with_ws (fun s => assign_listeners (delete event (listeners s)) s)).

Definition once (event : string) (callback : Callback) : M unit :=
  on event (OnceCallback event callback).

(** Applying what the table holds to the argument of the dispatch. *)
Definition apply_handler (h : Handler) (arg : JS.value) : M unit :=
  match h with
  | Plain callback => invoke callback [arg]
  | OnceCallback event callback => invoke callback [arg] ;; off event
  end.

(** The [while] loop of [onopen]: the queue is tested, then one entry is
    shifted out and sent.  One unit of fuel pays for one turn. *)
Fixpoint flush (fuel : nat) : M unit :=
  q <- gets (fun w => queue (ws w)) ;;
  match q with
  | [] => ret tt
  | msg :: rest =>
      match fuel with
      | O => fun w => (OutOfFuel, w)
      | S fuel' =>
          modify (with_ws (assign_queue rest)) ;;
          send (event msg) (data msg) ;;
          flush fuel'
      end
  end.

Definition onopen (fuel : nat) : M unit :=
  modify (with_ws (assign_isConnected true)) ;;
  console_log "WebSocket connected successfully" [] ;;
  flush fuel.

(** An incoming frame: its text, and what [JSON.parse] makes of the text
    ([None] when it throws). *)
Record MessageEvent : Type := { text : string; json : option JS.value }.

Definition JSON_parse (ev : MessageEvent) : M JS.value :=
  match json ev with
  | Some v => ret v
  | None => throw (SyntaxError (text ev))
  end.

(** [v.k], which throws on [undefined] and [null]. *)
Definition read (v : JS.value) (k : string) : M JS.value :=
  if JS.nullish v then throw (TypeError "cannot read properties of undefined or null")
  else ret (JS.prop v k).

Definition session_expired (msg : JS.value) : bool :=
  JS.truthy (JS.prop msg "data") &&
  JS.is_str (JS.prop (JS.prop msg "data") "status") "401 Session Expired".

Definition carries_bet_steps (msg : JS.value) : bool :=
  JS.is_str (JS.prop msg "operation") "info" &&
  JS.truthy (JS.prop msg "mineSweeperAmounts") &&
  JS.isArray (JS.prop msg "mineSweeperAmounts").

Definition eventKey (msg : JS.value) : JS.value :=
  JS.or (JS.prop msg "event") (JS.prop msg "operation").

(** [eventKey && this.listeners.has(eventKey)], then [this.listeners.get].
    The keys of the table are strings, so another kind of value finds
    nothing. *)
Definition handler_for (key : JS.value) (table : gmap string Handler) : option Handler :=
  if JS.truthy key then
    match key with
    | JS.VStr k => table !! k
    | _ => None
    end
  else None.

Definition call_logoutUser (h : Hook) : M unit :=
  history <- gets trace ;;
  emit LogoutUser ;;
  if h history then throw ThrownByHook else ret tt.

Definition onmessage (ev : MessageEvent) : M unit :=
  try_catch
    (msg <- JSON_parse ev ;;
     _ <- read msg "data" ;;
     if session_expired msg then
       console_log "Session expired, logging out user" [] ;;
       hook <- gets window_logoutUser ;;
       match hook with
       | Some h => call_logoutUser h
       | None => ret tt
       end
     else
       when (carries_bet_steps msg)
         (GlobalState.setBetSteps (JS.prop msg "mineSweeperAmounts") ;;
          console_log "Bet steps updated" []) ;;
       table <- gets (fun w => listeners (ws w)) ;;
       match handler_for (eventKey msg) table with
       | Some h => apply_handler h (JS.or (JS.prop msg "data") msg)
       | None => ret tt
       end)
    (fun _ => console_error "Invalid message:" [JS.VStr (text ev)]).

Definition connect : M unit :=
  url <- getWebSocketUrl ;;
  emit (NewWebSocket url) ;;
  modify (with_ws (assign_socket (Some CONNECTING))).

Definition onclose : M unit :=
  modify (with_ws (assign_isConnected false)) ;;
  setTimeout ConnectTask reconnectDelay.

(** [this.socket?.close()]. *)
Definition onerror : M unit :=
  console_error "WebSocket error:" [] ;;
  modify (with_ws (fun s =>
    match socket s with
    | Some _ => assign_socket (Some CLOSING) s
    | None => s
    end)).

(** The browser side of the two transitions: the ready state changes, then
    the handler installed by [connect] runs. *)
Definition socket_opens (fuel : nat) : M unit :=
  modify (with_ws (assign_socket (Some OPEN))) ;;
  onopen fuel.

Definition socket_closes : M unit :=
  modify (with_ws (assign_socket (Some CLOSED))) ;;
  onclose.

End WebSocketService.

(** ** main.ts: looking for a pending game and restoring it *)

Module Main.

Definition PENDING_GAME_RESTORE_DELAY : Z := 500.

(** The data of a [minesweeper_game_load] response as the handler reads
    it.  The source types it [any]; the members have the types of the wire
    contract, and [None] (or [SUndefined]) is a member that is absent. *)
Record GameLoadResponse : Type := {
  res_status : option string;
  res_hasExistingGame : option bool;
  res_roundId : nullable_string;
  res_currentRow : option Z;
  res_gridOption : option string;
  res_betAmount : option Z;
  res_revealedMatrix : option (list (list string));
  res_rowRewards : option (list Z);
  res_gameOver : option bool
}.

(** [const [cols, rows] = list]: a missing position is [undefined]. *)
Definition at_index (l : list JS.jsnum) (i : nat) : JS.jsnum :=
  match l !! i with
  | Some n => n
  | None => JS.Undef
  end.

(** [gridOption.split("x").map((x) => parseInt(x))]. *)
Definition parse_gridOption (gridOption : string) : list JS.jsnum :=
  map JS.parseInt (JS.split "x" gridOption).

(** [rowRewards[rowRewards.length - 1] || 0] under the guard that the
    list is there and not empty, [0] otherwise. *)
Definition calculatedReward (rowRewards : option (list Z)) : Z :=
  match rowRewards with
  | Some rs =>
      match last rs with
      | Some r => r
      | None => 0
      end
  | None => 0
  end.

Definition restorePendingGame (gameData : GameLoadResponse) : M unit :=
  match res_revealedMatrix gameData with
  | Some m => GlobalState.setGameMatrix m
  | None => ret tt
  end ;;
  match res_gridOption gameData with
  | Some g =>
      when (negb (String.eqb g EmptyString))
        (let parts := parse_gridOption g in
         GlobalState.setGridDimensions (at_index parts 0) (at_index parts 1))
  | None => ret tt
  end ;;
  match res_betAmount gameData with
  | Some b => when (negb (Z.eqb b 0)) (GlobalState.setStakeAmount b)
  | None => ret tt
  end ;;
  GlobalState.setRoundId (res_roundId gameData) ;;
  match res_currentRow gameData with
  | Some r =>
      rows <- gets (fun w => total_rows (store w)) ;;
      let frontendCurrentRow := JS.jsnum_sub (JS.jsnum_sub rows (JS.Num 1)) (JS.Num r) in
      GlobalState.setCurrentRow frontendCurrentRow
  | None => ret tt
  end ;;
  GlobalState.setReward (calculatedReward (res_rowRewards gameData)) ;;
  GlobalState.setGameStarted true ;;
  setTimeout TriggerPendingGameRestoreTask PENDING_GAME_RESTORE_DELAY.

(** What a timer does when it fires. *)
Definition run_task (t : Task) : M unit :=
  match t with
  | TriggerPendingGameRestoreTask => GlobalState.triggerPendingGameRestore
  | ConnectTask => WebSocketService.connect
  end.

(** [res?.currentRow || 0]. *)
Definition backendCurrentRow (res : GameLoadResponse) : JS.jsnum :=
  match res_currentRow res with
  | Some r => JS.Num r
  | None => JS.Num 0
  end.

(** [GlobalState.total_rows || 6]. *)
Definition totalRows (w : World) : JS.jsnum :=
  if JS.jsnum_truthy (total_rows (store w)) then total_rows (store w) else JS.Num 6.

Definition isGameCompleted (res : GameLoadResponse) (w : World) : bool :=
  JS.jsnum_ge (backendCurrentRow res) (JS.jsnum_sub (totalRows w) (JS.Num 1)) ||
  match res_gameOver res with
  | Some true => true
  | _ => false
  end.

(** [res?.roundId && res?.roundId !== null && res?.roundId !== ''],
    read as a condition. *)
Definition hasValidRoundId (res : GameLoadResponse) : bool :=
  match res_roundId res with
  | SStr s => negb (String.eqb s EmptyString)
  | _ => false
  end.

Definition response_value (res : GameLoadResponse) : JS.value :=
  JS.VObj [("status", match res_status res with
                      | Some s => JS.VStr s
                      | None => JS.VUndefined
                      end);
           ("roundId", GlobalState.nullable_value (res_roundId res))].

(** The function [checkForPendingGames] registers for the key
    [minesweeper_game_load].  Its result is the value it passes to
    [resolve]: [true] for a game that is being restored, [false] for no
    pending game. *)
Definition on_minesweeper_game_load (res : GameLoadResponse) : M bool :=
  console_log "Pending game check response:" [response_value res] ;;
  match res_status res with
  | Some "400" => ret false
  | Some "200 OK" =>
      match res_hasExistingGame res with
      | Some true =>
          console_log "Existing game found - checking if it is truly active..." [] ;;
          completed <- gets (isGameCompleted res) ;;
          if completed || negb (hasValidRoundId res) then
            console_log "Game appears to be completed or invalid - starting fresh" [] ;;
            ret false
          else
            console_log "Game is truly active - proceeding with restoration..." [] ;;
            restorePendingGame res ;;
            ret true
      | _ => ret false
      end
  | _ =>
      console_warn "Unknown response from game load:" [response_value res] ;;
      ret false
  end.

(** The request [checkForPendingGames] sends before it registers the
    handler. *)
Definition send_minesweeper_game_load : M unit :=
  tableId <- GlobalState.getTableId ;;
  WebSocketService.send "minesweeper_game_load"
    (JS.VObj [("operation", JS.VStr "minesweeper_game_load");
              ("data", JS.VObj [("tableId", JS.VStr tableId)])]).

End Main.

(** ** A world to start from *)

Definition initial_world : World :=
  {| store := GlobalState.initial_store;
     vars := GlobalState.initial_vars;
     ws := WebSocketService.initial_service;
     window_logoutUser := None;
     timers := [];
     trace := [] |}.

(** The projections a statement needs of a run. *)
Definition outcome_of {A} (r : Outcome A * World) : Outcome A := fst r.
Definition world_of {A} (r : Outcome A * World) : World := snd r.

(** Running one computation after another from a world, whatever the first
    one returned. *)
Definition exec {A} (m : M A) (w : World) : World := snd (m w).

(** ** Reading a list of events *)

(** The callback invocations among the events, in order. *)
Definition calls (evs : list Event) : list (nat * list JS.value) :=
  flat_map (fun e => match e with
                     | Call id args => [(id, args)]
                     | _ => []
                     end) evs.

(** The frames put on the wire, in order. *)
Definition transmissions (evs : list Event) : list string :=
  flat_map (fun e => match e with
                     | Transmit frame => [frame]
                     | _ => []
                     end) evs.

(** How many times [window.logoutUser] was called. *)
Definition logouts (evs : list Event) : nat :=
  length (flat_map (fun e => match e with
                             | LogoutUser => [tt]
                             | _ => []
                             end) evs).

(** The events a run added: those of [w'] after the ones [w] had. *)
Definition new_events (w w' : World) : list Event :=
  drop (length (trace w)) (trace w').

(** [w] with the events [evs] added and nothing else changed. *)
Definition extended (w : World) (evs : list Event) : World :=
  with_trace (fun t => t ++ evs) w.

(** The console lines by which the setters of the store report a write. *)
Definition setter_texts : list string :=
  ["Game matrix updated"; "Grid dimensions updated (previous)"; "Stake amount set to:";
   "Round ID set:"; "Setting current row to:"; "Reward set to:";
   "Game started state changed to:"].

(** The setters that ran, in order, read off their console lines. *)
Definition setter_entries (evs : list Event) : list string :=
  flat_map (fun e => match e with
                     | Console Info text _ =>
                         if existsb (String.eqb text) setter_texts then [text] else []
                     | _ => []
                     end) evs.

(** What firing a registry can add: calls, and the error line of a
    listener that threw. *)
Definition listener_event (e : Event) : Prop :=
  match e with
  | Call _ _ | Console Error _ _ => True
  | _ => False
  end.

(** Registering callbacks one after the other with one of the [add]
    functions. *)
Fixpoint register_all (add : Callback -> M unit) (cbs : list Callback) : M unit :=
  match cbs with
  | [] => ret tt
  | cb :: rest => add cb ;; register_all add rest
  end.

(** What a run that invokes every function of [ls] once, in order, with
    [args], shows as calls. *)
Definition each_once (ls : list Callback) (args : list JS.value) : list (nat * list JS.value) :=
  map (fun l => (cb_id l, args)) ls.

(** Calling [send] for each command of a list, in order. *)
Fixpoint send_all (cmds : list WSMessage) : M unit :=
  match cmds with
  | [] => ret tt
  | c :: rest => WebSocketService.send (event c) (data c) ;; send_all rest
  end.

(** The frame a command becomes on the wire. *)
Definition frame_of (c : WSMessage) : string :=
  WebSocketService.wire (JS.stringify (data c)).

(** A frame whose text is the serialisation of [v], which is what
    [JSON.parse] gives back for it. *)
Definition frame_carrying (v : JS.value) : WebSocketService.MessageEvent :=
  {| WebSocketService.text := WebSocketService.wire (JS.stringify v);
     WebSocketService.json := Some v |}.

(** The argument of the dispatch: [msg.data || msg]. *)
Definition payload (msg : JS.value) : JS.value := JS.or (JS.prop msg "data") msg.

(** The two shapes of an [info] frame with bet steps: the amounts under
    [data], as the wire contract has them, and the amounts beside
    [operation], where [onmessage] looks for them. *)
Definition bet_steps : JS.value := JS.VArr [JS.VNum 10; JS.VNum 20; JS.VNum 50].

Definition info_frame_nested : WebSocketService.MessageEvent :=
  frame_carrying (JS.VObj [("operation", JS.VStr "info");
                           ("data", JS.VObj [("mineSweeperAmounts", bet_steps)])]).

Definition info_frame_top_level : WebSocketService.MessageEvent :=
  frame_carrying (JS.VObj [("operation", JS.VStr "info");
                           ("mineSweeperAmounts", bet_steps)]).

(** *** The restoration, in the words of the specification *)

(** Which optional parts of a response the restoration takes as present:
    a matrix that is there, a grid string that is not empty, a stake that
    is not zero, a row that is defined. *)
Definition matrix_present (gd : Main.GameLoadResponse) : bool :=
  match Main.res_revealedMatrix gd with
  | Some _ => true
  | None => false
  end.

Definition grid_present (gd : Main.GameLoadResponse) : bool :=
  match Main.res_gridOption gd with
  | Some g => negb (String.eqb g EmptyString)
  | None => false
  end.

Definition stake_present (gd : Main.GameLoadResponse) : bool :=
  match Main.res_betAmount gd with
  | Some b => negb (Z.eqb b 0)
  | None => false
  end.

Definition row_present (gd : Main.GameLoadResponse) : bool :=
  match Main.res_currentRow gd with
  | Some _ => true
  | None => false
  end.

(** The setters the specification lists, in the order it lists them, each
    named by its console line. *)
Definition restoration_order (gd : Main.GameLoadResponse) : list string :=
  (if matrix_present gd then ["Game matrix updated"] else []) ++
  (if grid_present gd then ["Grid dimensions updated (previous)"] else []) ++
  (if stake_present gd then ["Stake amount set to:"] else []) ++
  ["Round ID set:"] ++
  (if row_present gd then ["Setting current row to:"] else []) ++
  ["Reward set to:"; "Game started state changed to:"].

(** The store after the restoration, built part by part in that order. *)
Definition restored_matrix (gd : Main.GameLoadResponse) (s : GlobalStateObject) :=
  match Main.res_revealedMatrix gd with
  | Some m => GlobalState.assign_game_matrix m s
  | None => s
  end.

Definition restored_grid (gd : Main.GameLoadResponse) (s : GlobalStateObject) :=
  match Main.res_gridOption gd with
  | Some g =>
      if negb (String.eqb g EmptyString)
      then GlobalState.assign_dimensions
             (Main.at_index (Main.parse_gridOption g) 0)
             (Main.at_index (Main.parse_gridOption g) 1) s
      else s
  | None => s
  end.

Definition restored_stake (gd : Main.GameLoadResponse) (s : GlobalStateObject) :=
  match Main.res_betAmount gd with
  | Some b => if negb (Z.eqb b 0) then GlobalState.assign_stakeAmount b s else s
  | None => s
  end.

Definition restored_round (gd : Main.GameLoadResponse) (s : GlobalStateObject) :=
  GlobalState.assign_roundId (Main.res_roundId gd) s.

Definition restored_row (gd : Main.GameLoadResponse) (s : GlobalStateObject) :=
  match Main.res_currentRow gd with
  | Some r =>
      GlobalState.assign_current_row
        (JS.jsnum_sub (JS.jsnum_sub (total_rows s) (JS.Num 1)) (JS.Num r)) s
  | None => s
  end.

Definition restored_reward (gd : Main.GameLoadResponse) (s : GlobalStateObject) :=
  GlobalState.assign_reward
    (match Main.res_rowRewards gd with
     | Some rs => List.last rs 0
     | None => 0
     end) s.

Definition restored_store (gd : Main.GameLoadResponse) (s : GlobalStateObject) :
    GlobalStateObject :=
  restored_reward gd
    (restored_row gd
       (restored_round gd
          (restored_stake gd
             (restored_grid gd
                (restored_matrix gd s))))).

(** The world after the restoration: the store as above, the game started,
    the restore signal scheduled. *)
Definition restored_world (gd : Main.GameLoadResponse) (w : World) : World :=
  with_timers (fun ts => ts ++ [{| delay := Main.PENDING_GAME_RESTORE_DELAY;
                                   task := TriggerPendingGameRestoreTask |}])
    (with_vars (GlobalState.assign_gameStarted true)
       (with_store (restored_store gd) w)).

(** [m] always returns, turns the world into [F] of it up to the events it
    adds, and the setters it runs are [texts]. *)
Definition world_step (m : M unit) (F : World -> World) (texts : list string) : Prop :=
  forall w, exists evs,
    m w = (Ret tt, extended (F w) evs) /\ setter_entries evs = texts.

(** [F] does not look at the events. *)
Definition blind (F : World -> World) : Prop :=
  forall w evs, F (extended w evs) = extended (F w) evs.

(** Two responses of the specification's examples, for a board of six
    rows: a round seen at row 2 with three rewards, and the same round
    reported at the last row. *)
Definition pending_round : Main.GameLoadResponse :=
  {| Main.res_status := Some "200 OK";
     Main.res_hasExistingGame := Some true;
     Main.res_roundId := SStr "R-17";
     Main.res_currentRow := Some 2;
     Main.res_gridOption := Some "5x6";
     Main.res_betAmount := Some 25;
     Main.res_revealedMatrix := Some [["a"; "b"]; ["c"; "d"]];
     Main.res_rowRewards := Some [10; 20; 35];
     Main.res_gameOver := Some false |}.

Definition with_row_and_flag (row : Z) (over : bool) (res : Main.GameLoadResponse) :
    Main.GameLoadResponse :=
  {| Main.res_status := Main.res_status res;
     Main.res_hasExistingGame := Main.res_hasExistingGame res;
     Main.res_roundId := Main.res_roundId res;
     Main.res_currentRow := Some row;
     Main.res_gridOption := Main.res_gridOption res;
     Main.res_betAmount := Main.res_betAmount res;
     Main.res_revealedMatrix := Main.res_revealedMatrix res;
     Main.res_rowRewards := Main.res_rowRewards res;
     Main.res_gameOver := Some over |}.

(** The round above with a stake of zero on the wire. *)
Definition zero_stake_round : Main.GameLoadResponse :=
  {| Main.res_status := Some "200 OK";
     Main.res_hasExistingGame := Some true;
     Main.res_roundId := SStr "R-17";
     Main.res_currentRow := Some 2;
     Main.res_gridOption := Some "5x6";
     Main.res_betAmount := Some 0;
     Main.res_revealedMatrix := Some [["a"; "b"]; ["c"; "d"]];
     Main.res_rowRewards := Some [10; 20; 35];
     Main.res_gameOver := Some false |}.

(** The reading of the specification for the stake: an amount that is
    present in the response is the stake after the restoration. *)
Definition stake_applied_when_present (gd : Main.GameLoadResponse) (w : World) : Prop :=
  forall b, Main.res_betAmount gd = Some b ->
            stakeAmount (store (exec (Main.restorePendingGame gd) w)) = b.

(** The reading of the specification for exhaustion: against the total
    rows the store holds, a response whose reported row has reached
    [total rows - 1] is answered with "no pending game". *)
Definition exhausted_by_stored_rows (res : Main.GameLoadResponse) (w : World) : Prop :=
  forall rows row,
    total_rows (store w) = JS.Num rows ->
    Main.res_currentRow res = Some row ->
    rows - 1 <= row ->
    outcome_of (Main.on_minesweeper_game_load res w) = Ret false.

(** The row the handler compares: the reported one, or zero. *)
Definition reported_row (res : Main.GameLoadResponse) : Z :=
  default 0 (Main.res_currentRow res).

(** The number a run of decimal digits adds to what was read before. *)
Fixpoint uint_value (d : Decimal.uint) (acc : Z) : Z :=
  match d with
  | Decimal.Nil => acc
  | Decimal.D0 l => uint_value l (10 * acc + 0)
  | Decimal.D1 l => uint_value l (10 * acc + 1)
  | Decimal.D2 l => uint_value l (10 * acc + 2)
  | Decimal.D3 l => uint_value l (10 * acc + 3)
  | Decimal.D4 l => uint_value l (10 * acc + 4)
  | Decimal.D5 l => uint_value l (10 * acc + 5)
  | Decimal.D6 l => uint_value l (10 * acc + 6)
  | Decimal.D7 l => uint_value l (10 * acc + 7)
  | Decimal.D8 l => uint_value l (10 * acc + 8)
  | Decimal.D9 l => uint_value l (10 * acc + 9)
  end.

(** [c] does not occur in [s]. *)
Fixpoint lacks (c : ascii) (s : string) : bool :=
  match s with
  | EmptyString => true
  | String c' r => negb (Ascii.eqb c' c) && lacks c r
  end.

(** ** The bet tab ([components/BetTab.ts])

    The closure state of [createBetTab] and the functions that read and
    write it.  The component stores, indexes, compares and prints bet
    amounts and never computes with them, so the JavaScript numbers stay
    abstract: [number] with its strict equality and its [toFixed(2)].
    [None] is [undefined], the result of indexing outside the array.  Of
    the display tree the model keeps the two text objects, which exist
    from the end of [createBetTab] on; the sprites of the two buttons are
    written together with [areBetButtonsDisabled] and never read. *)
Module BetTab.

Section Model.

Variable number : Type.
Variable strict_equal : number -> number -> bool.
Variable toFixed2 : number -> string.

(** A console line: its fixed text and the amounts interpolated into it. *)
Inductive Output : Type :=
| Log (text : string) (args : list (option number)).

Record Text : Type := {
  text : string;
  visible : bool
}.

Record State : Type := {
  currentBetAmount : option number;
  betSteps : list number;
  currentBetIndex : Z;
  areBetButtonsDisabled : bool;
  betAmountText : Text;
  gameplayBetText : Text;
  console : list Output
}.

(** How a call ends: normally, or with the [TypeError] of calling
    [toFixed] on [undefined]; either way the writes made so far stay. *)
Inductive Completion : Type :=
| Normal (s : State)
| TypeError (s : State).

Definition state_of (c : Completion) : State :=
  match c with
  | Normal s | TypeError s => s
  end.

Definition and_then (c : Completion) (k : State -> Completion) : Completion :=
  match c with
  | Normal s => k s
  | TypeError s => TypeError s
  end.

Definition console_log (line : string) (args : list (option number)) (s : State) : State :=
  {| currentBetAmount := currentBetAmount s; betSteps := betSteps s;
     currentBetIndex := currentBetIndex s;
     areBetButtonsDisabled := areBetButtonsDisabled s;
     betAmountText := betAmountText s; gameplayBetText := gameplayBetText s;
     console := console s ++ [Log line args] |}.

Definition select (i : Z) (a : option number) (s : State) : State :=
  {| currentBetAmount := a; betSteps := betSteps s;
     currentBetIndex := i;
     areBetButtonsDisabled := areBetButtonsDisabled s;
     betAmountText := betAmountText s; gameplayBetText := gameplayBetText s;
     console := console s |}.

Definition assign_betSteps (steps : list number) (s : State) : State :=
  {| currentBetAmount := currentBetAmount s; betSteps := steps;
     currentBetIndex := currentBetIndex s;
     areBetButtonsDisabled := areBetButtonsDisabled s;
     betAmountText := betAmountText s; gameplayBetText := gameplayBetText s;
     console := console s |}.

Definition assign_areBetButtonsDisabled (b : bool) (s : State) : State :=
  {| currentBetAmount := currentBetAmount s; betSteps := betSteps s;
     currentBetIndex := currentBetIndex s;
     areBetButtonsDisabled := b;
     betAmountText := betAmountText s; gameplayBetText := gameplayBetText s;
     console := console s |}.

Definition assign_betAmountText (t : Text) (s : State) : State :=
  {| currentBetAmount := currentBetAmount s; betSteps := betSteps s;
     currentBetIndex := currentBetIndex s;
     areBetButtonsDisabled := areBetButtonsDisabled s;
     betAmountText := t; gameplayBetText := gameplayBetText s;
     console := console s |}.

Definition assign_gameplayBetText (t : Text) (s : State) : State :=
  {| currentBetAmount := currentBetAmount s; betSteps := betSteps s;
     currentBetIndex := currentBetIndex s;
     areBetButtonsDisabled := areBetButtonsDisabled s;
     betAmountText := betAmountText s; gameplayBetText := t;
     console := console s |}.

(** [betSteps[i]]. *)
Definition element (steps : list number) (i : Z) : option number :=
  if i <? 0 then None else nth_error steps (Z.to_nat i).

(** [betSteps.length]. *)
Definition length_of (steps : list number) : Z := Z.of_nat (length steps).

(** [betSteps.indexOf(amount)], counting from [i]. *)
Fixpoint indexOf_from (steps : list number) (amount : number) (i : Z) : Z :=
  match steps with
  | [] => -1
  | x :: rest => if strict_equal x amount then i else indexOf_from rest amount (i + 1)
  end.

Definition indexOf (steps : list number) (amount : number) : Z :=
  indexOf_from steps amount 0.

Definition updateBetDisplay (s : State) : Completion :=
  let s := console_log "Current bet display:" [currentBetAmount s] s in
  match currentBetAmount s with
  | None => TypeError s
  | Some a =>
      let s := assign_betAmountText
                 {| text := toFixed2 a; visible := visible (betAmountText s) |} s in
      let s := assign_gameplayBetText
                 {| text := "Bet: " +:+ toFixed2 a;
                    visible := visible (gameplayBetText s) |} s in
      Normal s
  end.

Definition disableBetButtons (s : State) : State :=
  assign_areBetButtonsDisabled true (console_log "BetTab: Disabling bet buttons" [] s).

Definition enableBetButtons (s : State) : State :=
  assign_areBetButtonsDisabled false (console_log "BetTab: Enabling bet buttons" [] s).

Definition handleBetDecrease (s : State) : Completion :=
  if areBetButtonsDisabled s then
    Normal (console_log "Bet decrease blocked - buttons are disabled" [] s)
  else if 0 <? currentBetIndex s then
    let i := currentBetIndex s - 1 in
    let newAmount := element (betSteps s) i in
    updateBetDisplay (console_log "Bet decreased to:" [newAmount] (select i newAmount s))
  else
    let i := length_of (betSteps s) - 1 in
    let newAmount := element (betSteps s) i in
    updateBetDisplay (console_log "Bet wrapped to:" [newAmount] (select i newAmount s)).

Definition handleBetIncrease (s : State) : Completion :=
  if areBetButtonsDisabled s then
    Normal (console_log "Bet increase blocked - buttons are disabled" [] s)
  else if currentBetIndex s <? length_of (betSteps s) - 1 then
    let i := currentBetIndex s + 1 in
    let newAmount := element (betSteps s) i in
    updateBetDisplay (console_log "Bet increased to:" [newAmount] (select i newAmount s))
  else
    let i := 0 in
    let newAmount := element (betSteps s) i in
    updateBetDisplay (console_log "Bet wrapped to:" [newAmount] (select i newAmount s)).

Definition handleBetTabClick (s : State) : State :=
  console_log "Bet tab clicked - current bet:" [currentBetAmount s] s.

Definition switchToTextMode (s : State) : Completion :=
  let s := console_log "BetTab: Switching to text display mode" [] s in
  let s := disableBetButtons s in
  let s := assign_betAmountText
             {| text := text (betAmountText s); visible := false |} s in
  let s := assign_gameplayBetText
             {| text := text (gameplayBetText s); visible := true |} s in
  updateBetDisplay s.

Definition switchToInteractiveMode (s : State) : State :=
  let s := console_log "BetTab: Switching to interactive mode" [] s in
  let s := enableBetButtons s in
  let s := assign_betAmountText
             {| text := text (betAmountText s); visible := true |} s in
  assign_gameplayBetText
    {| text := text (gameplayBetText s); visible := false |} s.

Definition setBetSteps (steps : list number) (s : State) : Completion :=
  let s := assign_betSteps steps s in
  if length_of (betSteps s) <=? currentBetIndex s then
    updateBetDisplay (select 0 (element (betSteps s) 0) s)
  else Normal s.

Definition setBetAmount (amount : number) (s : State) : Completion :=
  let index := indexOf (betSteps s) amount in
  if negb (index =? -1) then updateBetDisplay (select index (Some amount) s)
  else Normal s.

Definition getBetAmount (s : State) : option number := currentBetAmount s.

Definition getBetSteps (s : State) : list number := betSteps s.

(** The state [createBetTab] returns with, given the values of its
    literals: the amount [1.00] and the ten steps, of which it is the
    fourth. *)
Definition created (amount : number) (steps : list number) : State :=
  {| currentBetAmount := Some amount; betSteps := steps;
     currentBetIndex := 3;
     areBetButtonsDisabled := false;
     betAmountText := {| text := toFixed2 amount; visible := true |};
     gameplayBetText := {| text := "Bet: " +:+ toFixed2 amount; visible := false |};
     console := [] |}.

End Model.

Arguments Log {number}.
Arguments Normal {number}.
Arguments TypeError {number}.
Arguments currentBetAmount {number}.
Arguments betSteps {number}.
Arguments currentBetIndex {number}.
Arguments areBetButtonsDisabled {number}.
Arguments betAmountText {number}.
Arguments gameplayBetText {number}.
Arguments console {number}.
Arguments state_of {number}.
Arguments and_then {number}.
Arguments element {number}.
Arguments length_of {number}.
Arguments indexOf {number}.
Arguments updateBetDisplay {number}.
Arguments handleBetDecrease {number}.
Arguments handleBetIncrease {number}.
Arguments handleBetTabClick {number}.
Arguments switchToTextMode {number}.
Arguments switchToInteractiveMode {number}.
Arguments setBetSteps {number}.
Arguments setBetAmount {number}.
Arguments getBetAmount {number}.
Arguments getBetSteps {number}.
Arguments created {number}.

End BetTab.

(** ** The bet tab: selections and button presses *)

(** The amount is the step the index points at, inside the array. *)
Definition consistent {number} (s : BetTab.State number) : Prop :=
  0 <= BetTab.currentBetIndex s < BetTab.length_of (BetTab.betSteps s) /\
  BetTab.currentBetAmount s = BetTab.element (BetTab.betSteps s) (BetTab.currentBetIndex s).

(** Both text objects show the current amount. *)
Definition displayed {number} (toFixed2 : number -> string) (s : BetTab.State number) : Prop :=
  exists a, BetTab.currentBetAmount s = Some a /\
    BetTab.text (BetTab.betAmountText s) = toFixed2 a /\
    BetTab.text (BetTab.gameplayBetText s) = "Bet: " +:+ toFixed2 a.

(** The two buttons, and a sequence of clicks on them: a click that
    throws ends the sequence. *)
Inductive Press : Type := Plus | Minus.

Definition press {number} (toFixed2 : number -> string) (p : Press)
    (s : BetTab.State number) : BetTab.Completion number :=
  match p with
  | Plus => BetTab.handleBetIncrease toFixed2 s
  | Minus => BetTab.handleBetDecrease toFixed2 s
  end.

Fixpoint presses {number} (toFixed2 : number -> string) (ps : list Press)
    (s : BetTab.State number) : BetTab.Completion number :=
  match ps with
  | [] => BetTab.Normal s
  | p :: rest => BetTab.and_then (press toFixed2 p s) (presses toFixed2 rest)
  end.

(** The index a click moves to when the buttons are enabled. *)
Definition target {number} (p : Press) (s : BetTab.State number) : Z :=
  match p with
  | Plus => (BetTab.currentBetIndex s + 1) mod BetTab.length_of (BetTab.betSteps s)
  | Minus => (BetTab.currentBetIndex s - 1) mod BetTab.length_of (BetTab.betSteps s)
  end.

Fixpoint repeat_press (p : Press) (k : nat) : list Press :=
  match k with
  | O => []
  | S k => p :: repeat_press p k
  end.

(** Two states that agree on everything a caller can read back, the
    console aside. *)
Definition same_selection {number} (s s' : BetTab.State number) : Prop :=
  BetTab.currentBetIndex s' = BetTab.currentBetIndex s /\
  BetTab.currentBetAmount s' = BetTab.currentBetAmount s /\
  BetTab.betSteps s' = BetTab.betSteps s /\
  BetTab.areBetButtonsDisabled s' = BetTab.areBetButtonsDisabled s /\
  BetTab.betAmountText s' = BetTab.betAmountText s /\
  BetTab.gameplayBetText s' = BetTab.gameplayBetText s.

(** Amounts read in hundredths, as [createBetTab] writes its literals:
    [0.10] is [10] and [100.00] is [10000]. *)
Module Hundredths.

Definition toFixed2 (z : Z) : string :=
  (if z <? 0 then "-" else EmptyString) +:+
  JS.decimal (Z.abs z / 100) +:+ "." +:+
  JS.decimal ((Z.abs z mod 100) / 10) +:+ JS.decimal (Z.abs z mod 10).

Definition betSteps : list Z := [10; 25; 50; 100; 250; 500; 1000; 2500; 5000; 10000].

Definition created : BetTab.State Z := BetTab.created toFixed2 100 betSteps.

End Hundredths.

(** ** The window's timers and the inactivity watch

    [inactivityTimer.ts] and [gameActivityManager.ts] run on the clock and
    the timer table of the page.  They share nothing with the store or the
    service, so they get a state of their own. *)
Module Window.

(** What the page shows of this code: console lines and foreign calls as
    before, and alert boxes. *)
Inductive Effect : Type :=
| Observed (e : Event)
| Alert (message : string).

(** [now] is what [Date.now()] returns.  A timeout is kept with the
    handle [setTimeout] returned for it and the time from which the
    browser may run it; an interval likewise, with the time of its next
    turn.  [openInActivePopup] is the function of that name on [window],
    when the hosting page defines it. *)
Record Page : Type := {
  now : Z;
  next_handle : nat;
  timeouts : list (nat * Z);
  intervals : list (nat * Z);
  openInActivePopup : option Callback;
  effects : list Effect
}.

Definition assign_now (t : Z) (p : Page) : Page :=
  {| now := t; next_handle := next_handle p; timeouts := timeouts p;
     intervals := intervals p; openInActivePopup := openInActivePopup p;
     effects := effects p |}.

Definition assign_next_handle (h : nat) (p : Page) : Page :=
  {| now := now p; next_handle := h; timeouts := timeouts p;
     intervals := intervals p; openInActivePopup := openInActivePopup p;
     effects := effects p |}.

Definition assign_timeouts (ts : list (nat * Z)) (p : Page) : Page :=
  {| now := now p; next_handle := next_handle p; timeouts := ts;
     intervals := intervals p; openInActivePopup := openInActivePopup p;
     effects := effects p |}.

Definition assign_intervals (ts : list (nat * Z)) (p : Page) : Page :=
  {| now := now p; next_handle := next_handle p; timeouts := timeouts p;
     intervals := ts; openInActivePopup := openInActivePopup p;
     effects := effects p |}.

Definition emit (e : Effect) (p : Page) : Page :=
  {| now := now p; next_handle := next_handle p; timeouts := timeouts p;
     intervals := intervals p; openInActivePopup := openInActivePopup p;
     effects := effects p ++ [e] |}.

Definition console_log (text : string) (args : list JS.value) : Page -> Page :=
  emit (Observed (Console Info text args)).
Definition console_warn (text : string) (args : list JS.value) : Page -> Page :=
  emit (Observed (Console Warn text args)).
Definition console_error (text : string) (args : list JS.value) : Page -> Page :=
  emit (Observed (Console Error text args)).
Definition alert (message : string) : Page -> Page := emit (Alert message).

Definition without (h : nat) (ts : list (nat * Z)) : list (nat * Z) :=
  List.filter (fun t => negb (Nat.eqb (fst t) h)) ts.

(** [window.setTimeout(callback, ms)]: the new handle.  The callback is
    the caller's to keep; a delay below zero counts as zero. *)
Definition setTimeout (ms : Z) (p : Page) : nat * Page :=
  (next_handle p,
   assign_next_handle (S (next_handle p))
     (assign_timeouts (timeouts p ++ [(next_handle p, now p + Z.max 0 ms)]) p)).

Definition clearTimeout (h : nat) (p : Page) : Page :=
  assign_timeouts (without h (timeouts p)) p.

Definition setInterval (ms : Z) (p : Page) : nat * Page :=
  (next_handle p,
   assign_next_handle (S (next_handle p))
     (assign_intervals (intervals p ++ [(next_handle p, now p + Z.max 0 ms)]) p)).

Definition clearInterval (h : nat) (p : Page) : Page :=
  assign_intervals (without h (intervals p)) p.

Definition observed (es : list Effect) : list Event :=
  flat_map (fun e => match e with
                     | Observed e => [e]
                     | Alert _ => []
                     end) es.

(** Calling a foreign function without arguments: the call is observed;
    the result tells whether it threw. *)
Definition call (cb : Callback) (p : Page) : bool * Page :=
  (cb_throws cb (observed (effects p)) [], emit (Observed (Call (cb_id cb) [])) p).

(** A function of the program handed over as a callback: it acts on the
    page and returns, or throws ([true]). *)
Definition Action : Type := Page -> bool * Page.

End Window.

(** [TimerUtils] of inactivityTimer.ts. *)
Module TimerUtils.

(** [s.padStart(2, '0')]. *)
Definition padStart2 (s : string) : string :=
  match String.length s with
  | O => "00"
  | S O => "0" +:+ s
  | _ => s
  end.

(** [Math.ceil(milliseconds / 1000)], then [Math.floor(totalSeconds / 60)]
    and [totalSeconds % 60], whose sign is that of [totalSeconds]. *)
Definition formatTime (milliseconds : Z) : string :=
  let totalSeconds := - ((- milliseconds) / 1000) in
  let minutes := totalSeconds / 60 in
  let seconds := Z.rem totalSeconds 60 in
  JS.decimal minutes +:+ ":" +:+ padStart2 (JS.decimal seconds).

Definition minutesToMs (minutes : Z) : Z := minutes * 60 * 1000.

Definition secondsToMs (seconds : Z) : Z := seconds * 1000.

End TimerUtils.

(** The class [InactivityTimer]. *)
Module InactivityTimer.

(** [InactivityTimerConfig], with the defaults of the constructor merged
    in. *)
Record Config : Type := {
  timeoutDuration : Z;
  onTimeout : Window.Action;
  debugMode : bool;
  autoStart : bool
}.

(** [InactivityTimerEvents].  The hooks [onStart], [onStop] and
    [onReset] are called outside any [try]; the only ones the program
    installs (in [createGameInactivityTimer]) write to the console and
    return, so such a hook is a function on the page.  [onTick] may
    throw. *)
Record Events : Type := {
  onStart : option (Window.Page -> Window.Page);
  onStop : option (Window.Page -> Window.Page);
  onReset : option (Window.Page -> Window.Page);
  onTick : option (Z -> Window.Action)
}.

Record Instance : Type := {
  config : Config;
  events : Events;
  timerId : option nat;
  startTime : Z;
  isRunning : bool;
  isPaused : bool;
  tickInterval : option nat
}.

Definition assign_config (c : Config) (t : Instance) : Instance :=
  {| config := c; events := events t; timerId := timerId t; startTime := startTime t;
     isRunning := isRunning t; isPaused := isPaused t; tickInterval := tickInterval t |}.

Definition assign_timerId (h : option nat) (t : Instance) : Instance :=
  {| config := config t; events := events t; timerId := h; startTime := startTime t;
     isRunning := isRunning t; isPaused := isPaused t; tickInterval := tickInterval t |}.

Definition assign_startTime (z : Z) (t : Instance) : Instance :=
  {| config := config t; events := events t; timerId := timerId t; startTime := z;
     isRunning := isRunning t; isPaused := isPaused t; tickInterval := tickInterval t |}.

Definition assign_isRunning (b : bool) (t : Instance) : Instance :=
  {| config := config t; events := events t; timerId := timerId t; startTime := startTime t;
     isRunning := b; isPaused := isPaused t; tickInterval := tickInterval t |}.

Definition assign_isPaused (b : bool) (t : Instance) : Instance :=
  {| config := config t; events := events t; timerId := timerId t; startTime := startTime t;
     isRunning := isRunning t; isPaused := b; tickInterval := tickInterval t |}.

Definition assign_tickInterval (h : option nat) (t : Instance) : Instance :=
  {| config := config t; events := events t; timerId := timerId t; startTime := startTime t;
     isRunning := isRunning t; isPaused := isPaused t; tickInterval := h |}.

(** [this.log(message, data)]: a line only in debug mode, with
    [data || '']. *)
Definition log (message : string) (data : JS.value) (t : Instance)
    (p : Window.Page) : Window.Page :=
  if debugMode (config t) then
    Window.console_log ("[InactivityTimer] " +:+ message) [JS.or data (JS.VStr EmptyString)] p
  else p.

(** [hook?.()]. *)
Definition run_hook (hook : option (Window.Page -> Window.Page))
    (p : Window.Page) : Window.Page :=
  match hook with
  | Some f => f p
  | None => p
  end.

Definition clear_timer (t : Instance) (p : Window.Page) : Instance * Window.Page :=
  match timerId t with
  | Some h => (assign_timerId None t, Window.clearTimeout h p)
  | None => (t, p)
  end.

Definition clear_tick (t : Instance) (p : Window.Page) : Instance * Window.Page :=
  match tickInterval t with
  | Some h => (assign_tickInterval None t, Window.clearInterval h p)
  | None => (t, p)
  end.

Definition stop (t : Instance) (p : Window.Page) : Instance * Window.Page :=
  let '(t, p) := clear_timer t p in
  let '(t, p) := clear_tick t p in
  let t := assign_isPaused false (assign_isRunning false t) in
  let p := log "Timer stopped" JS.VUndefined t p in
  (t, run_hook (onStop (events t)) p).

Definition startTickInterval (t : Instance) (p : Window.Page) : Instance * Window.Page :=
  let p := match tickInterval t with
           | Some h => Window.clearInterval h p
           | None => p
           end in
  let '(h, p) := Window.setInterval 1000 p in
  (assign_tickInterval (Some h) t, p).

(** [if (this.events.onTick) this.startTickInterval()]. *)
Definition start_ticking (t : Instance) (p : Window.Page) : Instance * Window.Page :=
  match onTick (events t) with
  | Some _ => startTickInterval t p
  | None => (t, p)
  end.

(** The body of [start] below its first test. *)
Definition start_afresh (t : Instance) (p : Window.Page) : Instance * Window.Page :=
  let '(t, p) := stop t p in
  let t := assign_isPaused false (assign_isRunning true (assign_startTime (Window.now p) t)) in
  let '(h, p) := Window.setTimeout (timeoutDuration (config t)) p in
  let t := assign_timerId (Some h) t in
  let '(t, p) := start_ticking t p in
  let p := log "Timer started"
             (JS.VObj [("duration", JS.VNum (timeoutDuration (config t)));
                       ("startTime", JS.VNum (startTime t))]) t p in
  (t, run_hook (onStart (events t)) p).

(** [reset], given the [start] it calls. *)
Definition reset_with (start : Instance -> Window.Page -> option (Instance * Window.Page))
    (t : Instance) (p : Window.Page) : option (Instance * Window.Page) :=
  let wasRunning := isRunning t in
  let '(t, p) := stop t p in
  match (if wasRunning then start t p else Some (t, p)) with
  | Some (t, p) =>
      let p := log "Timer reset" JS.VUndefined t p in
      Some (t, run_hook (onReset (events t)) p)
  | None => None
  end.

(** [start] and [reset] call each other; the fuel bounds the depth of
    the calls. *)
Fixpoint start_fuel (fuel : nat) (t : Instance) (p : Window.Page)
    : option (Instance * Window.Page) :=
  match fuel with
  | O => None
  | S fuel =>
      if isRunning t && negb (isPaused t) then
        let p := log "Timer already running, resetting instead" JS.VUndefined t p in
        reset_with (start_fuel fuel) t p
      else Some (start_afresh t p)
  end.

Definition reset_fuel (fuel : nat) : Instance -> Window.Page -> option (Instance * Window.Page) :=
  reset_with (start_fuel fuel).

(** Two nested calls of [start] are the most there can be, so this fuel
    is never used up. *)
Definition start (t : Instance) (p : Window.Page) : Instance * Window.Page :=
  match start_fuel 2 t p with
  | Some r => r
  | None => (t, p)
  end.

Definition reset (t : Instance) (p : Window.Page) : Instance * Window.Page :=
  match reset_fuel 1 t p with
  | Some r => r
  | None => (t, p)
  end.

Definition pause (t : Instance) (p : Window.Page) : Instance * Window.Page :=
  if negb (isRunning t) || isPaused t then
    (t, log "Cannot pause - timer not running or already paused" JS.VUndefined t p)
  else
    let t := assign_isPaused true t in
    let '(t, p) := clear_timer t p in
    let '(t, p) := clear_tick t p in
    (t, log "Timer paused" JS.VUndefined t p).

Definition handleTimeout (t : Instance) (p : Window.Page) : Instance * Window.Page :=
  let t := assign_isPaused false (assign_isRunning false t) in
  let '(t, p) := clear_tick t p in
  let p := log "Timer expired - triggering timeout callback" JS.VUndefined t p in
  let '(threw, p) := onTimeout (config t) p in
  (t, if threw then Window.console_error "Error in timeout callback:" [] p else p).

Definition resume (t : Instance) (p : Window.Page) : Instance * Window.Page :=
  if negb (isRunning t) || negb (isPaused t) then
    (t, log "Cannot resume - timer not running or not paused" JS.VUndefined t p)
  else
    let elapsed := Window.now p - startTime t in
    let remaining := Z.max 0 (timeoutDuration (config t) - elapsed) in
    if remaining <=? 0 then handleTimeout t p
    else
      let t := assign_isPaused false t in
      let '(h, p) := Window.setTimeout remaining p in
      let t := assign_timerId (Some h) t in
      let '(t, p) := start_ticking t p in
      (t, log "Timer resumed" (JS.VObj [("remainingTime", JS.VNum remaining)]) t p).

Definition getRemainingTime (t : Instance) (p : Window.Page) : Z :=
  if negb (isRunning t) then 0
  else if isPaused t then
    Z.max 0 (timeoutDuration (config t) - (Window.now p - startTime t))
  else
    let elapsed := Window.now p - startTime t in
    Z.max 0 (timeoutDuration (config t) - elapsed).

Definition getElapsedTime (t : Instance) (p : Window.Page) : Z :=
  if negb (isRunning t) then 0 else Window.now p - startTime t.

Definition isActive (t : Instance) : bool := isRunning t && negb (isPaused t).

Definition isPausedState (t : Instance) : bool := isPaused t.

Definition setTimeoutDuration (duration : Z) (t : Instance) (p : Window.Page)
    : Instance * Window.Page :=
  let t := assign_config
             {| timeoutDuration := duration; onTimeout := onTimeout (config t);
                debugMode := debugMode (config t); autoStart := autoStart (config t) |} t in
  (t, log "Timeout duration updated" (JS.VObj [("newDuration", JS.VNum duration)]) t p).

Definition setTimeoutCallback (callback : Window.Action) (t : Instance) (p : Window.Page)
    : Instance * Window.Page :=
  let t := assign_config
             {| timeoutDuration := timeoutDuration (config t); onTimeout := callback;
                debugMode := debugMode (config t); autoStart := autoStart (config t) |} t in
  (t, log "Timeout callback updated" JS.VUndefined t p).

Definition destroy (t : Instance) (p : Window.Page) : Instance * Window.Page :=
  let '(t, p) := stop t p in
  (t, log "Timer destroyed" JS.VUndefined t p).

(** The function [startTickInterval] hands to [setInterval].  The first
    component tells whether [onTick] threw, which ends the turn there. *)
Definition on_interval (t : Instance) (p : Window.Page) : bool * (Instance * Window.Page) :=
  if negb (isRunning t) || isPaused t then (false, (t, p))
  else
    let remaining := getRemainingTime t p in
    let '(threw, p) := match onTick (events t) with
                       | Some f => f remaining p
                       | None => (false, p)
                       end in
    if threw then (true, (t, p))
    else if remaining <=? 0 then (false, clear_tick t p)
    else (false, (t, p)).

(** [new InactivityTimer(config, events)]. *)
Definition new (c : Config) (e : Events) (p : Window.Page) : Instance * Window.Page :=
  let t := {| config := c; events := e; timerId := None; startTime := 0;
              isRunning := false; isPaused := false; tickInterval := None |} in
  let p := log "InactivityTimer created"
             (JS.VObj [("timeoutDuration", JS.VNum (timeoutDuration c));
                       ("autoStart", JS.VBool (autoStart c))]) t p in
  if autoStart c then start t p else (t, p).

(** The two hooks of [createGameInactivityTimer]. *)
Definition started_line (debug : bool) (timeoutMinutes : Z) (p : Window.Page) : Window.Page :=
  if debug then
    Window.console_log "Inactivity timer started (minutes)" [JS.VNum timeoutMinutes] p
  else p.

Definition reset_line (debug : bool) (p : Window.Page) : Window.Page :=
  if debug then Window.console_log "Inactivity timer reset" [] p else p.

(** [createGameInactivityTimer(timeoutMinutes, onTimeoutCallback, options)];
    [debug] is [options.debugMode || false] and [auto] is
    [options.autoStart !== false]. *)
Definition createGameInactivityTimer (timeoutMinutes : Z) (onTimeoutCallback : Window.Action)
    (debug auto : bool) (tick : option (Z -> Window.Action)) (p : Window.Page)
    : Instance * Window.Page :=
  new {| timeoutDuration := timeoutMinutes * 60 * 1000; onTimeout := onTimeoutCallback;
         debugMode := debug; autoStart := auto |}
      {| onStart := Some (started_line debug timeoutMinutes); onStop := None;
         onReset := Some (reset_line debug); onTick := tick |}
      p.

End InactivityTimer.

(** The class [GameActivityManager]. *)
Module GameActivityManager.

(** [GameActivityConfig], with the defaults of the constructor merged
    in. *)
Record Config : Type := {
  timeoutMinutes : Z;
  debugMode : bool;
  excludeFromTimer : list string
}.

Record Instance : Type := {
  timer : option InactivityTimer.Instance;
  config : Config;
  isEnabled : bool
}.

Definition assign_timer (t : option InactivityTimer.Instance) (m : Instance) : Instance :=
  {| timer := t; config := config m; isEnabled := isEnabled m |}.

Definition assign_config (c : Config) (m : Instance) : Instance :=
  {| timer := timer m; config := c; isEnabled := isEnabled m |}.

Definition assign_isEnabled (b : bool) (m : Instance) : Instance :=
  {| timer := timer m; config := config m; isEnabled := b |}.

(** The private [log]: a line only in debug mode, with the values
    interpolated into the message and then [data || '']. *)
Definition log_line (debug : bool) (message : string) (args : list JS.value)
    (data : JS.value) (p : Window.Page) : Window.Page :=
  if debug then
    Window.console_log ("[GameActivityManager] " +:+ message)
      (args ++ [JS.or data (JS.VStr EmptyString)]) p
  else p.

Definition log (message : string) (data : JS.value) (m : Instance) : Window.Page -> Window.Page :=
  log_line (debugMode (config m)) message [] data.

Definition config_value (c : Config) : JS.value :=
  JS.VObj [("timeoutMinutes", JS.VNum (timeoutMinutes c));
           ("debugMode", JS.VBool (debugMode c));
           ("excludeFromTimer", JS.VArr (map JS.VStr (excludeFromTimer c)))].

(** [new GameActivityManager(config)]; the defaults are 2 minutes, no
    debug mode and nothing excluded. *)
Definition new (c : Config) (p : Window.Page) : Instance * Window.Page :=
  let m := {| timer := None; config := c; isEnabled := true |} in
  (m, log "GameActivityManager initialized" (config_value c) m p).

(** [handleInactivityTimeout], bound to the manager.  Of the manager it
    reads [config.debugMode], which the constructor sets and nothing
    writes afterwards. *)
Definition handleInactivityTimeout (debug : bool) : Window.Action :=
  fun p =>
    let p := log_line debug "Inactivity timeout triggered - calling window.openInActivePopup()"
               [] JS.VUndefined p in
    match Window.openInActivePopup p with
    | Some popup =>
        let '(threw, p) := Window.call popup p in
        if threw then (false, Window.console_error "Error opening inactivity popup:" [] p)
        else (false, log_line debug "Inactivity popup opened successfully" [] JS.VUndefined p)
    | None =>
        let p := Window.console_warn
                   "window.openInActivePopup not available - make sure it is defined by the hosting website"
                   [] p in
        (false,
         if debug then
           Window.alert
             "Inactivity timeout! (This is a debug alert - in production, window.openInActivePopup() should be called)"
             p
         else p)
    end.

(** The [onTick] the manager installs in debug mode. *)
Definition timeout_warning (debug : bool) (remaining : Z) : Window.Action :=
  fun p =>
    if (remaining <=? 30000) && (Z.rem remaining 10000 =? 0) then
      (false, log_line debug "Timeout warning: remaining"
                [JS.VStr (TimerUtils.formatTime remaining)] JS.VUndefined p)
    else (false, p).

Definition initialize (m : Instance) (p : Window.Page) : Instance * Window.Page :=
  let p := match timer m with
           | Some t =>
               let p := log "Timer already initialized, destroying previous instance"
                          JS.VUndefined m p in
               snd (InactivityTimer.destroy t p)
           | None => p
           end in
  let debug := debugMode (config m) in
  let '(t, p) := InactivityTimer.createGameInactivityTimer (timeoutMinutes (config m))
                   (handleInactivityTimeout debug) debug true
                   (if debug then Some (timeout_warning debug) else None) p in
  let m := assign_timer (Some t) m in
  (m, log "Activity manager initialized and timer started" JS.VUndefined m p).

Definition includes (l : list string) (s : string) : bool :=
  existsb (String.eqb s) l.

Definition recordActivity (activityType : string) (details : JS.value) (m : Instance)
    (p : Window.Page) : Instance * Window.Page :=
  let debug := debugMode (config m) in
  if negb (isEnabled m) then
    (m, log_line debug "Activity ignored (disabled):" [JS.VStr activityType] details p)
  else if includes (excludeFromTimer (config m)) activityType then
    (m, log_line debug "Activity excluded from timer reset:" [JS.VStr activityType] details p)
  else
    match timer m with
    | None => (m, log "Timer not initialized, cannot record activity" JS.VUndefined m p)
    | Some t =>
        let p := log_line debug "Activity recorded:" [JS.VStr activityType] details p in
        let '(t, p) := InactivityTimer.reset t p in
        (assign_timer (Some t) m, p)
    end.

Definition pauseTimer (m : Instance) (p : Window.Page) : Instance * Window.Page :=
  match timer m with
  | Some t =>
      let '(t, p) := InactivityTimer.pause t p in
      let m := assign_timer (Some t) m in
      (m, log "Timer paused" JS.VUndefined m p)
  | None => (m, p)
  end.

Definition resumeTimer (m : Instance) (p : Window.Page) : Instance * Window.Page :=
  match timer m with
  | Some t =>
      let '(t, p) := InactivityTimer.resume t p in
      let m := assign_timer (Some t) m in
      (m, log "Timer resumed" JS.VUndefined m p)
  | None => (m, p)
  end.

Definition disable (m : Instance) (p : Window.Page) : Instance * Window.Page :=
  let m := assign_isEnabled false m in
  let '(m, p) := pauseTimer m p in
  (m, log "Activity manager disabled" JS.VUndefined m p).

Definition enable (m : Instance) (p : Window.Page) : Instance * Window.Page :=
  let m := assign_isEnabled true m in
  let '(m, p) := resumeTimer m p in
  (m, log "Activity manager enabled" JS.VUndefined m p).

(** [this.timer?.getRemainingTime() || 0]. *)
Definition getRemainingTime (m : Instance) (p : Window.Page) : Z :=
  match timer m with
  | Some t => InactivityTimer.getRemainingTime t p
  | None => 0
  end.

Definition getFormattedRemainingTime (m : Instance) (p : Window.Page) : string :=
  TimerUtils.formatTime (getRemainingTime m p).

Definition isTimerActive (m : Instance) : bool :=
  match timer m with
  | Some t => InactivityTimer.isActive t
  | None => false
  end.

Definition triggerTimeout (m : Instance) (p : Window.Page) : Window.Page :=
  let p := log "Manually triggering timeout" JS.VUndefined m p in
  snd (handleInactivityTimeout (debugMode (config m)) p).

Definition setTimeoutDuration (minutes : Z) (m : Instance) (p : Window.Page)
    : Instance * Window.Page :=
  let m := assign_config {| timeoutMinutes := minutes; debugMode := debugMode (config m);
                            excludeFromTimer := excludeFromTimer (config m) |} m in
  let '(m, p) := match timer m with
                 | Some t =>
                     let '(t, p) := InactivityTimer.setTimeoutDuration
                                      (TimerUtils.minutesToMs minutes) t p in
                     (assign_timer (Some t) m, p)
                 | None => (m, p)
                 end in
  (m, log_line (debugMode (config m)) "Timeout duration updated to minutes" [JS.VNum minutes]
        JS.VUndefined p).

Definition destroy (m : Instance) (p : Window.Page) : Instance * Window.Page :=
  let '(m, p) := match timer m with
                 | Some t => (assign_timer None m, snd (InactivityTimer.destroy t p))
                 | None => (m, p)
                 end in
  (m, log "Activity manager destroyed" JS.VUndefined m p).

End GameActivityManager.

(** ** The inactivity watch as a system *)

Module Watch.

(** The page with [es] added to what it has shown. *)
Definition extend (es : list Window.Effect) (p : Window.Page) : Window.Page :=
  {| Window.now := Window.now p; Window.next_handle := Window.next_handle p;
     Window.timeouts := Window.timeouts p; Window.intervals := Window.intervals p;
     Window.openInActivePopup := Window.openInActivePopup p;
     Window.effects := Window.effects p ++ es |}.

(** How often the inactivity timeout has been handled can be read off the
    page: each time either a foreign function is called (the popup
    function of the host is the only one this code knows) or, when there
    is none, a warning says so. *)
Definition alarm_count (es : list Window.Effect) : nat :=
  length (flat_map (fun e => match e with
                             | Window.Observed (Call _ _)
                             | Window.Observed (Console Warn _ _) => [e]
                             | _ => []
                             end) es).

Definition alarms (p : Window.Page) : nat := alarm_count (Window.effects p).

(** Code that leaves the clock and the timers of the page alone and
    raises no alarm, and a callback that leaves them alone and raises
    [n]. *)
Definition quiet (f : Window.Page -> Window.Page) : Prop :=
  forall p, exists es, f p = extend es p /\ alarm_count es = 0%nat.

Definition rings (n : nat) (a : Window.Action) : Prop :=
  forall p, exists es, snd (a p) = extend es p /\ alarm_count es = n.

Definition quiet_hook (h : option (Window.Page -> Window.Page)) : Prop :=
  match h with
  | Some f => quiet f
  | None => True
  end.

(** A timer whose callbacks do not reach for the timers of the page (nor,
    being functions on the page, for the timer itself). *)
Definition well_behaved (n : nat) (t : InactivityTimer.Instance) : Prop :=
  rings n (InactivityTimer.onTimeout (InactivityTimer.config t)) /\
  quiet_hook (InactivityTimer.onStart (InactivityTimer.events t)) /\
  quiet_hook (InactivityTimer.onStop (InactivityTimer.events t)) /\
  quiet_hook (InactivityTimer.onReset (InactivityTimer.events t)) /\
  match InactivityTimer.onTick (InactivityTimer.events t) with
  | Some f => forall remaining, rings 0 (f remaining)
  | None => True
  end.

(** [clearTimeout] or [clearInterval] of a handle that may be [null]. *)
Definition clear_of (h : option nat) (ts : list (nat * Z)) : list (nat * Z) :=
  match h with
  | Some h => Window.without h ts
  | None => ts
  end.

(** The page once the timer has cleared its timeout and its interval. *)
Definition cleared (t : InactivityTimer.Instance) (p : Window.Page) : Window.Page :=
  Window.assign_intervals
    (clear_of (InactivityTimer.tickInterval t) (Window.intervals p))
    (Window.assign_timeouts
       (clear_of (InactivityTimer.timerId t) (Window.timeouts p)) p).

(** The timeout of the timer is in the table exactly while the timer is
    active, and nothing else is; the interval is in the table exactly
    while the timer holds its handle. *)
Definition in_step (t : InactivityTimer.Instance) (p : Window.Page) : Prop :=
  (if InactivityTimer.isActive t then
     exists h due, InactivityTimer.timerId t = Some h /\ Window.timeouts p = [(h, due)]
   else Window.timeouts p = []) /\
  match InactivityTimer.tickInterval t with
  | Some h => exists due, Window.intervals p = [(h, due)]
  | None => Window.intervals p = []
  end.

(** The timer after [stop]. *)
Definition stopped (t : InactivityTimer.Instance) : InactivityTimer.Instance :=
  {| InactivityTimer.config := InactivityTimer.config t;
     InactivityTimer.events := InactivityTimer.events t;
     InactivityTimer.timerId := None;
     InactivityTimer.startTime := InactivityTimer.startTime t;
     InactivityTimer.isRunning := false;
     InactivityTimer.isPaused := false;
     InactivityTimer.tickInterval := None |}.

Definition ticking (t : InactivityTimer.Instance) : bool :=
  match InactivityTimer.onTick (InactivityTimer.events t) with
  | Some _ => true
  | None => false
  end.

(** The timer and the page after a start on the page [p]: the timeout
    takes the next handle and the interval, if there is an [onTick], the
    one after. *)
Definition restarted (t : InactivityTimer.Instance) (p : Window.Page)
    : InactivityTimer.Instance :=
  {| InactivityTimer.config := InactivityTimer.config t;
     InactivityTimer.events := InactivityTimer.events t;
     InactivityTimer.timerId := Some (Window.next_handle p);
     InactivityTimer.startTime := Window.now p;
     InactivityTimer.isRunning := true;
     InactivityTimer.isPaused := false;
     InactivityTimer.tickInterval :=
       if ticking t then Some (S (Window.next_handle p)) else None |}.

Definition rearmed (delay : Z) (t : InactivityTimer.Instance) (p : Window.Page) : Window.Page :=
  {| Window.now := Window.now p;
     Window.next_handle :=
       if ticking t then S (S (Window.next_handle p)) else S (Window.next_handle p);
     Window.timeouts :=
       clear_of (InactivityTimer.timerId t) (Window.timeouts p) ++
       [(Window.next_handle p, Window.now p + Z.max 0 delay)];
     Window.intervals :=
       if ticking t then
         clear_of (InactivityTimer.tickInterval t) (Window.intervals p) ++
         [(S (Window.next_handle p), Window.now p + 1000)]
       else clear_of (InactivityTimer.tickInterval t) (Window.intervals p);
     Window.openInActivePopup := Window.openInActivePopup p;
     Window.effects := Window.effects p |}.

(** The timer after [pause], after [handleTimeout] and after a [resume]
    that arms a timeout again. *)
Definition paused (t : InactivityTimer.Instance) : InactivityTimer.Instance :=
  {| InactivityTimer.config := InactivityTimer.config t;
     InactivityTimer.events := InactivityTimer.events t;
     InactivityTimer.timerId := None;
     InactivityTimer.startTime := InactivityTimer.startTime t;
     InactivityTimer.isRunning := InactivityTimer.isRunning t;
     InactivityTimer.isPaused := true;
     InactivityTimer.tickInterval := None |}.

Definition expired (t : InactivityTimer.Instance) : InactivityTimer.Instance :=
  {| InactivityTimer.config := InactivityTimer.config t;
     InactivityTimer.events := InactivityTimer.events t;
     InactivityTimer.timerId := InactivityTimer.timerId t;
     InactivityTimer.startTime := InactivityTimer.startTime t;
     InactivityTimer.isRunning := false;
     InactivityTimer.isPaused := false;
     InactivityTimer.tickInterval := None |}.

Definition resumed (t : InactivityTimer.Instance) (p : Window.Page)
    : InactivityTimer.Instance :=
  {| InactivityTimer.config := InactivityTimer.config t;
     InactivityTimer.events := InactivityTimer.events t;
     InactivityTimer.timerId := Some (Window.next_handle p);
     InactivityTimer.startTime := InactivityTimer.startTime t;
     InactivityTimer.isRunning := InactivityTimer.isRunning t;
     InactivityTimer.isPaused := false;
     InactivityTimer.tickInterval :=
       if ticking t then Some (S (Window.next_handle p)) else InactivityTimer.tickInterval t |}.

(** The page with the timeout of the timer left in place and a new one
    added: what [resume] does to the table. *)
Definition added (delay : Z) (t : InactivityTimer.Instance) (p : Window.Page) : Window.Page :=
  {| Window.now := Window.now p;
     Window.next_handle :=
       if ticking t then S (S (Window.next_handle p)) else S (Window.next_handle p);
     Window.timeouts :=
       Window.timeouts p ++ [(Window.next_handle p, Window.now p + Z.max 0 delay)];
     Window.intervals :=
       if ticking t then
         clear_of (InactivityTimer.tickInterval t) (Window.intervals p) ++
         [(S (Window.next_handle p), Window.now p + 1000)]
       else Window.intervals p;
     Window.openInActivePopup := Window.openInActivePopup p;
     Window.effects := Window.effects p |}.

(** What is left of the waiting time at [Date.now()]. *)
Definition time_left (t : InactivityTimer.Instance) (p : Window.Page) : Z :=
  InactivityTimer.timeoutDuration (InactivityTimer.config t) -
  (Window.now p - InactivityTimer.startTime t).

(** The timer is the one [initialize] builds for a manager in this
    debug mode.  The number of minutes in the line of [onStart] is the one
    the manager had then. *)
Definition installed (debug : bool) (t : InactivityTimer.Instance) : Prop :=
  InactivityTimer.onTimeout (InactivityTimer.config t) =
    GameActivityManager.handleInactivityTimeout debug /\
  InactivityTimer.debugMode (InactivityTimer.config t) = debug /\
  (exists minutes,
     InactivityTimer.onStart (InactivityTimer.events t) =
       Some (InactivityTimer.started_line debug minutes)) /\
  InactivityTimer.onStop (InactivityTimer.events t) = None /\
  InactivityTimer.onReset (InactivityTimer.events t) =
    Some (InactivityTimer.reset_line debug) /\
  InactivityTimer.onTick (InactivityTimer.events t) =
    (if debug then Some (GameActivityManager.timeout_warning debug) else None).

Definition State : Type := GameActivityManager.Instance * Window.Page.

(** A page on which nothing has been scheduled yet. *)
Definition fresh (t0 : Z) (popup : option Callback) : Window.Page :=
  {| Window.now := t0; Window.next_handle := 1; Window.timeouts := [];
     Window.intervals := []; Window.openInActivePopup := popup; Window.effects := [] |}.

(** What can happen to the watch: the calls of its public methods, time
    passing, and the browser running a timeout or an interval that is due. *)
Inductive Step : Type :=
| Initialize
| RecordActivity (activityType : string) (details : JS.value)
| PauseTimer
| ResumeTimer
| Disable
| Enable
| SetTimeoutDuration (minutes : Z)
| TriggerTimeout
| Destroy
| Elapse (ms : N)
| TimeoutFires (h : nat)
| IntervalFires (h : nat).

Definition elapse (ms : N) (p : Window.Page) : Window.Page :=
  Window.assign_now (Window.now p + Z.of_N ms) p.

Definition due (h : nat) (ts : list (nat * Z)) : option Z :=
  match List.find (fun t => Nat.eqb (fst t) h) ts with
  | Some (_, d) => Some d
  | None => None
  end.

Definition holds (slot : option nat) (h : nat) : bool :=
  match slot with
  | Some h' => Nat.eqb h' h
  | None => false
  end.

(** The browser runs the timeout [h], which it may once it is due: the
    entry leaves the table and the arrow function given to [setTimeout]
    calls [handleTimeout] on the timer that armed it.  Only the timer the
    manager holds has a timeout in the table. *)
Definition timeout_fires (h : nat) (s : State) : State :=
  let '(m, p) := s in
  match due h (Window.timeouts p) with
  | Some d =>
      if d <=? Window.now p then
        let p := Window.clearTimeout h p in
        match GameActivityManager.timer m with
        | Some t =>
            if holds (InactivityTimer.timerId t) h then
              let '(t, p) := InactivityTimer.handleTimeout t p in
              (GameActivityManager.assign_timer (Some t) m, p)
            else (m, p)
        | None => (m, p)
        end
      else s
  | None => s
  end.

Definition postpone (h : nat) (ts : list (nat * Z)) : list (nat * Z) :=
  map (fun t => if Nat.eqb (fst t) h then (fst t, snd t + 1000) else t) ts.

(** The browser runs a turn of the interval [h]: the next turn is a
    second later. *)
Definition interval_fires (h : nat) (s : State) : State :=
  let '(m, p) := s in
  match due h (Window.intervals p) with
  | Some d =>
      if d <=? Window.now p then
        let p := Window.assign_intervals (postpone h (Window.intervals p)) p in
        match GameActivityManager.timer m with
        | Some t =>
            if holds (InactivityTimer.tickInterval t) h then
              let '(t, p) := snd (InactivityTimer.on_interval t p) in
              (GameActivityManager.assign_timer (Some t) m, p)
            else (m, p)
        | None => (m, p)
        end
      else s
  | None => s
  end.

Definition step (a : Step) (s : State) : State :=
  let '(m, p) := s in
  match a with
  | Initialize => GameActivityManager.initialize m p
  | RecordActivity activityType details =>
      GameActivityManager.recordActivity activityType details m p
  | PauseTimer => GameActivityManager.pauseTimer m p
  | ResumeTimer => GameActivityManager.resumeTimer m p
  | Disable => GameActivityManager.disable m p
  | Enable => GameActivityManager.enable m p
  | SetTimeoutDuration minutes => GameActivityManager.setTimeoutDuration minutes m p
  | TriggerTimeout => (m, GameActivityManager.triggerTimeout m p)
  | Destroy => GameActivityManager.destroy m p
  | Elapse ms => (m, elapse ms p)
  | TimeoutFires h => timeout_fires h s
  | IntervalFires h => interval_fires h s
  end.

Definition run (steps : list Step) (s : State) : State :=
  fold_left (fun s a => step a s) steps s.

(** The steps other than the two that handle a timeout by themselves or
    build a new timer. *)
Definition calm (a : Step) : bool :=
  match a with
  | Initialize | TriggerTimeout => false
  | _ => true
  end.

(** The manager has no timer, or one that is not running: stopped or
    expired. *)
Definition at_rest (m : GameActivityManager.Instance) : Prop :=
  match GameActivityManager.timer m with
  | Some t => InactivityTimer.isRunning t = false
  | None => True
  end.

(** The invariant of the watch. *)
Definition steady (s : State) : Prop :=
  match GameActivityManager.timer (fst s) with
  | Some t =>
      installed (GameActivityManager.debugMode (GameActivityManager.config (fst s))) t /\
      in_step t (snd s)
  | None => Window.timeouts (snd s) = [] /\ Window.intervals (snd s) = []
  end.

(** The manager with the defaults of its constructor, initialised on a
    fresh page at time 0. *)
Definition defaults : GameActivityManager.Config :=
  {| GameActivityManager.timeoutMinutes := 2;
     GameActivityManager.debugMode := false;
     GameActivityManager.excludeFromTimer := [] |}.

Definition watching (popup : option Callback) : State :=
  run [Initialize] (GameActivityManager.new defaults (fresh 0 popup)).

End Watch.

(** ** The store as its users see it

    The members of the [GlobalState] object that are functions, and the
    unsubscribe closures the six [add...Listener] functions return. *)
Module StoreApi.

(** The closures returned by [addBalanceChangeListener],
    [addGridDimensionChangeListener] and
    [addPendingGameRestoreCompleteListener]: as the others, [indexOf]
    and, when the index is not [-1], [splice] and a console line. *)
Definition unsubscribeBalanceChangeListener (callback : Callback) : M unit :=
  ls <- gets (fun w => balanceChangeListeners (vars w)) ;;
  when (existsb (fun l => Nat.eqb (cb_id l) (cb_id callback)) ls)
    (modify (with_vars (GlobalState.update_balanceChangeListeners
                          (remove_first (cb_id callback)))) ;;
     ls' <- gets (fun w => balanceChangeListeners (vars w)) ;;
     console_log "Removed balance change listener. Remaining listeners:" [len ls']).

Definition unsubscribeGridDimensionChangeListener (callback : Callback) : M unit :=
  ls <- gets (fun w => gridDimensionChangeListeners (vars w)) ;;
  when (existsb (fun l => Nat.eqb (cb_id l) (cb_id callback)) ls)
    (modify (with_vars (GlobalState.update_gridDimensionChangeListeners
                          (remove_first (cb_id callback)))) ;;
     ls' <- gets (fun w => gridDimensionChangeListeners (vars w)) ;;
     console_log "Removed grid dimension change listener. Remaining listeners:" [len ls']).

Definition unsubscribePendingGameRestoreCompleteListener (listener : Callback) : M unit :=
  ls <- gets (fun w => pendingGameRestoreCompleteListeners (vars w)) ;;
  when (existsb (fun l => Nat.eqb (cb_id l) (cb_id listener)) ls)
    (modify (with_vars (GlobalState.update_pendingGameRestoreCompleteListeners
                          (remove_first (cb_id listener)))) ;;
     ls' <- gets (fun w => pendingGameRestoreCompleteListeners (vars w)) ;;
     console_log "Removed pending game restore complete listener. Remaining listeners:"
       [len ls']).

(** The six registries. *)
Inductive Registry : Type :=
| GameStarted
| GameEnded
| BalanceChange
| GridDimensionChange
| PendingGameRestore
| PendingGameRestoreComplete.

(** One use of the store. *)
Inductive Use : Type :=
| GetToken
| SetToken (t : string)
| SetGameStarted (started : bool)
| GetGameStarted
| AddListener (r : Registry) (callback : Callback)
| Unsubscribe (r : Registry) (callback : Callback)
| SetBalance (b : Z)
| GetBalance
| SetGridDimensions (cols rows : JS.jsnum)
| GetTableId
| SetStakeAmount (amount : Z)
| GetStakeAmount
| SetRoundId (id : nullable_string)
| GetRoundId
| SetCurrentRow (row : JS.jsnum)
| GetCurrentRow
| SetGameMatrix (matrix : list (list string))
| SetReward (newReward : Z)
| GetReward
| TriggerPendingGameRestore.

Definition add (r : Registry) : Callback -> M unit :=
  match r with
  | GameStarted => GlobalState.addGameStartedListener
  | GameEnded => GlobalState.addGameEndedListener
  | BalanceChange => GlobalState.addBalanceChangeListener
  | GridDimensionChange => GlobalState.addGridDimensionChangeListener
  | PendingGameRestore => GlobalState.addPendingGameRestoreListener
  | PendingGameRestoreComplete => GlobalState.addPendingGameRestoreCompleteListener
  end.

Definition unsubscribe (r : Registry) : Callback -> M unit :=
  match r with
  | GameStarted => GlobalState.unsubscribeGameStartedListener
  | GameEnded => GlobalState.unsubscribeGameEndedListener
  | BalanceChange => unsubscribeBalanceChangeListener
  | GridDimensionChange => unsubscribeGridDimensionChangeListener
  | PendingGameRestore => GlobalState.unsubscribePendingGameRestoreListener
  | PendingGameRestoreComplete => unsubscribePendingGameRestoreCompleteListener
  end.

(** The value a getter returns is dropped. *)
Definition get {A} (m : M A) : M unit := _ <- m ;; ret tt.

Definition use (u : Use) : M unit :=
  match u with
  | GetToken => get GlobalState.getToken
  | SetToken t => GlobalState.setToken t
  | SetGameStarted started => GlobalState.setGameStarted started
  | GetGameStarted => get GlobalState.getGameStarted
  | AddListener r callback => add r callback
  | Unsubscribe r callback => unsubscribe r callback
  | SetBalance b => GlobalState.setBalance b
  | GetBalance => get GlobalState.getBalance
  | SetGridDimensions cols rows => GlobalState.setGridDimensions cols rows
  | GetTableId => get GlobalState.getTableId
  | SetStakeAmount amount => GlobalState.setStakeAmount amount
  | GetStakeAmount => get GlobalState.getStakeAmount
  | SetRoundId id => GlobalState.setRoundId id
  | GetRoundId => get GlobalState.getRoundId
  | SetCurrentRow row => GlobalState.setCurrentRow row
  | GetCurrentRow => get GlobalState.getCurrentRow
  | SetGameMatrix matrix => GlobalState.setGameMatrix matrix
  | SetReward newReward => GlobalState.setReward newReward
  | GetReward => get GlobalState.getReward
  | TriggerPendingGameRestore => GlobalState.triggerPendingGameRestore
  end.

Fixpoint uses (us : list Use) : M unit :=
  match us with
  | [] => ret tt
  | u :: rest => use u ;; uses rest
  end.

(** The registries some function of the store reads. *)
Definition fired (r : Registry) : bool :=
  match r with
  | PendingGameRestore | PendingGameRestoreComplete => false
  | _ => true
  end.

Definition registry (r : Registry) (v : ModuleState) : list Callback :=
  match r with
  | GameStarted => gameStartedListeners v
  | GameEnded => gameEndedListeners v
  | BalanceChange => balanceChangeListeners v
  | GridDimensionChange => gridDimensionChangeListeners v
  | PendingGameRestore => pendingGameRestoreListeners v
  | PendingGameRestoreComplete => pendingGameRestoreCompleteListeners v
  end.

(** The functions held by the registries that are read. *)
Definition audible (v : ModuleState) : list Callback :=
  gameStartedListeners v ++ gameEndedListeners v ++
  balanceChangeListeners v ++ gridDimensionChangeListeners v.

(** [u] hands the function [k] to a registry that is read. *)
Definition makes_audible (k : nat) (u : Use) : bool :=
  match u with
  | AddListener r callback => fired r && Nat.eqb (cb_id callback) k
  | _ => false
  end.

End StoreApi.

(** ** Uses of the store, read as a whole *)

(** The function a use hands to a registry that is read, if it does, and
    those a sequence of uses hands over. *)
Definition handed_over (u : StoreApi.Use) : list Callback :=
  match u with
  | StoreApi.AddListener r callback => if StoreApi.fired r then [callback] else []
  | _ => []
  end.

Definition made_audible (us : list StoreApi.Use) : list Callback :=
  flat_map handed_over us.

(** [m] returns and adds events; the functions it calls are held by a
    read registry before it runs or are among [added]; and so are the
    functions held by a read registry after it. *)
Definition tame (m : M unit) (added : list Callback) : Prop :=
  forall w, exists evs w',
    m w = (Ret tt, w') /\ trace w' = trace w ++ evs /\
    (forall id args, In (id, args) (calls evs) ->
       exists l, (In l (StoreApi.audible (vars w)) \/ In l added) /\ cb_id l = id) /\
    (forall l, In l (StoreApi.audible (vars w')) ->
       In l (StoreApi.audible (vars w)) \/ In l added).

(** A callback that always returns, and one that always throws. *)
Definition returning (id : nat) : Callback :=
  {| cb_id := id; cb_throws := fun _ _ => false |}.

Definition throwing (id : nat) : Callback :=
  {| cb_id := id; cb_throws := fun _ _ => true |}.

(** A callback that throws the first time it is called and returns from
    then on. *)
Definition throwing_once (id : nat) : Callback :=
  {| cb_id := id;
     cb_throws := fun history _ =>
       negb (existsb (fun c => Nat.eqb (fst c) id) (calls history)) |}.

(** ** Functions that call back while they are called

    The functions handed to the store and to the service are foreign code,
    and nothing keeps one of them from using the store or the service
    while it is being called: the unsubscribe closures are given to the
    very caller that registers a listener.  Here a call of a function runs
    what the function does to the world, and the dispatch loops read the
    listener arrays as [Array.prototype.forEach] does, index by index in
    the array as it is at that moment. *)
Module Reentrant.

(** What the foreign functions do while they are called: for the function
    [cb_id] called with [args], and for [window.logoutUser], a computation
    on the world.  Whether the call then returns or throws stays with the
    function ([cb_throws]) and the hook. *)
Record Conduct : Type := {
  during : nat -> list JS.value -> M unit;
  during_logout : M unit
}.

(** Functions that do nothing to the world. *)
Definition idle : Conduct :=
  {| during := fun _ _ => ret tt; during_logout := ret tt |}.

Definition invoke (c : Conduct) (cb : Callback) (args : list JS.value) : M unit :=
  history <- gets trace ;;
  emit (Call (cb_id cb) args) ;;
  during c (cb_id cb) args ;;
  if cb_throws cb history args then throw (Thrown (cb_id cb)) else ret tt.

(** [array.forEach(f)]: the length is read once, before the first call;
    then, for each index [k] below it in turn, the element the array holds
    at [k] at that moment is passed to [f], and an index the array has no
    more is passed over.  [count] is the number of indices still to visit
    and [k] the next one. *)
Fixpoint forEach (array : World -> list Callback) (f : Callback -> M unit)
    (count k : nat) : M unit :=
  match count with
  | O => ret tt
  | S count' =>
      now <- gets array ;;
      match now !! k with
      | Some l => f l
      | None => ret tt
      end ;;
      forEach array f count' (S k)
  end.

(** [array.forEach(l => { try { l(args) } catch (error) { console.error(text, error) } })]. *)
Definition forEach_guarded (c : Conduct) (array : ModuleState -> list Callback)
    (args : list JS.value) (text : string) : M unit :=
  ls <- gets (fun w => array (vars w)) ;;
  forEach (fun w => array (vars w))
    (fun l => try_catch (invoke c l args) (fun _ => console_error text []))
    (length ls) 0.

(** [setGameStarted], [triggerBalanceChange], [setBalance] and
    [setGridDimensions] of gameState.ts, line for line as in
    [GlobalState], with the dispatch over the array itself. *)
Definition setGameStarted (c : Conduct) (started : bool) : M unit :=
  wasStarted <- gets (fun w => gameStarted (vars w)) ;;
  modify (with_vars (GlobalState.assign_gameStarted started)) ;;
  console_log "Game started state changed to:" [JS.VBool started] ;;
  when (started && negb wasStarted)
    (ls <- gets (fun w => gameStartedListeners (vars w)) ;;
     console_log "Triggering game started listeners" [len ls] ;;
     forEach_guarded c gameStartedListeners [] "Error in game started listener:") ;;
  when (negb started && wasStarted)
    (ls <- gets (fun w => gameEndedListeners (vars w)) ;;
     console_log "Triggering game ended listeners" [len ls] ;;
     forEach_guarded c gameEndedListeners [] "Error in game ended listener:").

Definition triggerBalanceChange (c : Conduct) (newBalance : Z) : M unit :=
  ls <- gets (fun w => balanceChangeListeners (vars w)) ;;
  console_log "Triggering balance change listeners with balance:" [len ls; JS.VNum newBalance] ;;
  forEach_guarded c balanceChangeListeners [JS.VNum newBalance]
    "Error in balance change listener:".

Definition setBalance (c : Conduct) (b : Z) : M unit :=
  previousBalance <- gets (fun w => balance (store w)) ;;
  modify (with_store (GlobalState.assign_balance b)) ;;
  console_log "Balance updated from/to" [JS.VNum previousBalance; JS.VNum b] ;;
  when (negb (Z.eqb previousBalance b)) (triggerBalanceChange c b).

Definition setGridDimensions (c : Conduct) (cols rows : JS.jsnum) : M unit :=
  prevCols <- gets (fun w => total_cols (store w)) ;;
  prevRows <- gets (fun w => total_rows (store w)) ;;
  modify (with_store (GlobalState.assign_dimensions cols rows)) ;;
  console_log "Grid dimensions updated (previous)"
    (map JS.jsnum_value [cols; rows; prevCols; prevRows]) ;;
  when (JS.jsnum_neq prevCols cols || JS.jsnum_neq prevRows rows)
    (ls <- gets (fun w => gridDimensionChangeListeners (vars w)) ;;
     console_log "Triggering grid dimension change listeners" [len ls] ;;
     forEach_guarded c gridDimensionChangeListeners (map JS.jsnum_value [cols; rows])
       "Error in grid dimension change listener:").

(** The handler call, the hook call and [onmessage] of
    WebSocketService.ts, as in [WebSocketService]. *)
Definition apply_handler (c : Conduct) (h : Handler) (arg : JS.value) : M unit :=
  match h with
  | Plain callback => invoke c callback [arg]
  | OnceCallback event callback => invoke c callback [arg] ;; WebSocketService.off event
  end.

Definition call_logoutUser (c : Conduct) (h : Hook) : M unit :=
  history <- gets trace ;;
  emit LogoutUser ;;
  during_logout c ;;
  if h history then throw ThrownByHook else ret tt.

Definition onmessage (c : Conduct) (ev : WebSocketService.MessageEvent) : M unit :=
  try_catch
    (msg <- WebSocketService.JSON_parse ev ;;
     _ <- WebSocketService.read msg "data" ;;
     if WebSocketService.session_expired msg then
       console_log "Session expired, logging out user" [] ;;
       hook <- gets window_logoutUser ;;
       match hook with
       | Some h => call_logoutUser c h
       | None => ret tt
       end
     else
       when (WebSocketService.carries_bet_steps msg)
         (GlobalState.setBetSteps (JS.prop msg "mineSweeperAmounts") ;;
          console_log "Bet steps updated" []) ;;
       table <- gets (fun w => listeners (ws w)) ;;
       match WebSocketService.handler_for (WebSocketService.eventKey msg) table with
       | Some h => apply_handler c h (JS.or (JS.prop msg "data") msg)
       | None => ret tt
       end)
    (fun _ => console_error "Invalid message:" [JS.VStr (WebSocketService.text ev)]).

(** Functions that leave the listeners alone: while one is called it
    returns or throws, leaves the module variables of the store (the
    game-started flag and the listener arrays) as they are, and calls no
    function handed to the program.  It may write to the store object and
    to the console, use the service and set timers. *)
Definition leaves_listeners_alone (c : Conduct) : Prop :=
  forall id args w, exists evs,
    outcome_of (during c id args w) <> OutOfFuel /\
    vars (world_of (during c id args w)) = vars w /\
    trace (world_of (during c id args w)) = trace w ++ evs /\
    calls evs = [].

Definition spares_the_store_object (c : Conduct) : Prop :=
  forall id args w, store (world_of (during c id args w)) = store w.

(** Functions that keep out of the store altogether. *)
Definition outside_the_store (c : Conduct) : Prop :=
  leaves_listeners_alone c /\ spares_the_store_object c.

(** The functions return or throw: none of them runs for ever. *)
Definition terminating (c : Conduct) : Prop :=
  (forall id args w, outcome_of (during c id args w) <> OutOfFuel) /\
  (forall w, outcome_of (during_logout c w) <> OutOfFuel).

(** [w'] is [w] with more events and, possibly, fewer entries in the
    handler table of the service; everything else is as in [w]. *)
Definition confined (w w' : World) : Prop :=
  store w' = store w /\ vars w' = vars w /\ timers w' = timers w /\
  window_logoutUser w' = window_logoutUser w /\
  queue (ws w') = queue (ws w) /\ socket (ws w') = socket (ws w) /\
  isConnected (ws w') = isConnected (ws w) /\
  (exists evs, trace w' = trace w ++ evs) /\
  (forall k h, listeners (ws w') !! k = Some h -> listeners (ws w) !! k = Some h).

(** A computation that does not run for ever, and one that is
    confined. *)
Definition finishes {A} (m : M A) : Prop := forall w, outcome_of (m w) <> OutOfFuel.
Definition keeps {A} (m : M A) : Prop := forall w, confined w (world_of (m w)).

(** Functions that change no more than that while they are called. *)
Definition unobtrusive (c : Conduct) : Prop :=
  (forall id args w, confined w (world_of (during c id args w))) /\
  (forall w, confined w (world_of (during_logout c w))).

(** A handler as [checkForPendingGames] and [fetchBalance] register them:
    while it is called it writes the balance to the store, sends a
    request and registers a handler for the answer. *)
Definition busy : Conduct :=
  {| during := fun id _ =>
       GlobalState.setBalance 250 ;;
       WebSocketService.send "minesweeper_game_load" (JS.VObj [("operation", JS.VStr "minesweeper_game_load")]) ;;
       WebSocketService.on "minesweeper_game_load" (Plain (returning (S id)));
     during_logout := WebSocketService.off "getbalance" |}.

(** Functions that write a console line while they are called. *)
Definition chatty : Conduct :=
  {| during := fun id _ => console_log "listener called" [JS.VNum (Z.of_nat id)];
     during_logout := console_log "logout hook called" [] |}.

(** The function [id] unsubscribes itself from the game-started listeners
    when it is called; the other functions do nothing. *)
Definition leaves_when_called (id : nat) : Conduct :=
  {| during := fun k _ =>
       if Nat.eqb k id then GlobalState.unsubscribeGameStartedListener (returning id)
       else ret tt;
     during_logout := ret tt |}.

End Reentrant.


(** ** The JSON text of a value

    The text [JSON.stringify(value)] returns, stated as a relation after
    the grammar of JSON and the serialisation rules of ECMAScript, and not
    through the function [JS.stringify] of the model: a number is written
    with its decimal digits, most significant first and without a leading
    zero; a string between double quotes with the two-character escapes of
    JSON and [\u00xx] for the other control characters; an array between
    brackets and an object between braces, the parts separated by commas.
    A member that is [undefined] is left out of an object and written
    [null] in an array; [undefined] itself has no JSON text.  The numbers
    are the safe integers, which a double holds exactly and prints as a
    run of digits. *)
Module JsonText.

Definition MAX_SAFE_INTEGER : Z := 9007199254740991.

Inductive digit : Z -> ascii -> Prop :=
| digit_0 : digit 0 "0"
| digit_1 : digit 1 "1"
| digit_2 : digit 2 "2"
| digit_3 : digit 3 "3"
| digit_4 : digit 4 "4"
| digit_5 : digit 5 "5"
| digit_6 : digit 6 "6"
| digit_7 : digit 7 "7"
| digit_8 : digit 8 "8"
| digit_9 : digit 9 "9".

(** [more_digits n t z]: after a run of digits that denotes [n], the
    digits [t] make the run denote [z]. *)
Inductive more_digits : Z -> string -> Z -> Prop :=
| more_digits_none n : more_digits n EmptyString n
| more_digits_one n d c t z :
    digit d c -> more_digits (10 * n + d) t z -> more_digits n (String c t) z.

(** A positive integer: a first digit that is not zero, and more
    digits. *)
Inductive numeral : Z -> string -> Prop :=
| numeral_digits d c t z :
    digit d c -> 0 < d -> more_digits d t z -> numeral z (String c t).

Inductive integer : Z -> string -> Prop :=
| integer_zero : integer 0 "0"
| integer_positive z t : numeral z t -> integer z t
| integer_negative z t : numeral z t -> integer (- z) (String "-" t).

(** The characters JSON writes as a backslash and a letter: the double
    quote (code 34), the backslash (92), backspace (8), form feed (12),
    line feed (10), carriage return (13) and tab (9). *)
Inductive escape_letter : ascii -> ascii -> Prop :=
| escape_quote : escape_letter "034" "034"
| escape_backslash : escape_letter "092" "092"
| escape_backspace : escape_letter "008" "b"
| escape_form_feed : escape_letter "012" "f"
| escape_line_feed : escape_letter "010" "n"
| escape_return : escape_letter "013" "r"
| escape_tab : escape_letter "009" "t".

Inductive hex : N -> ascii -> Prop :=
| hex_0 : hex 0 "0"
| hex_1 : hex 1 "1"
| hex_2 : hex 2 "2"
| hex_3 : hex 3 "3"
| hex_4 : hex 4 "4"
| hex_5 : hex 5 "5"
| hex_6 : hex 6 "6"
| hex_7 : hex 7 "7"
| hex_8 : hex 8 "8"
| hex_9 : hex 9 "9"
| hex_a : hex 10 "a"
| hex_b : hex 11 "b"
| hex_c : hex 12 "c"
| hex_d : hex 13 "d"
| hex_e : hex 14 "e"
| hex_f : hex 15 "f".

(** One character of a string, as it is written inside the quotes. *)
Inductive written : ascii -> string -> Prop :=
| written_letter c e :
    escape_letter c e -> written c (String "092" (String e EmptyString))
| written_code c hi lo h l :
    (N_of_ascii c < 32)%N ->
    (forall e, ~ escape_letter c e) ->
    N_of_ascii c = (16 * hi + lo)%N ->
    hex hi h -> hex lo l ->
    written c (String "092" (String "u" (String "0" (String "0"
                 (String h (String l EmptyString))))))
| written_plain c :
    (32 <= N_of_ascii c)%N -> c <> "034"%char -> c <> "092"%char ->
    written c (String c EmptyString).

Inductive inside_quotes : string -> string -> Prop :=
| inside_quotes_end : inside_quotes EmptyString EmptyString
| inside_quotes_char c s e t :
    written c e -> inside_quotes s t -> inside_quotes (String c s) (e +:+ t).

Inductive quoted : string -> string -> Prop :=
| quoted_string s t :
    inside_quotes s t -> quoted s (String "034" (t +:+ String "034" EmptyString)).

Inductive text : JS.value -> string -> Prop :=
| text_null : text JS.VNull "null"
| text_true : text (JS.VBool true) "true"
| text_false : text (JS.VBool false) "false"
| text_number z t :
    - MAX_SAFE_INTEGER <= z <= MAX_SAFE_INTEGER -> integer z t -> text (JS.VNum z) t
| text_not_a_number : text JS.VNaN "null"
| text_string s t : quoted s t -> text (JS.VStr s) t
| text_array items parts :
    elements items parts ->
    text (JS.VArr items) ("[" +:+ String.concat "," parts +:+ "]")
| text_object fields parts :
    members fields parts ->
    text (JS.VObj fields) ("{" +:+ String.concat "," parts +:+ "}")
with elements : list JS.value -> list string -> Prop :=
| elements_none : elements [] []
| elements_undefined items parts :
    elements items parts -> elements (JS.VUndefined :: items) ("null" :: parts)
| elements_value x t items parts :
    text x t -> elements items parts -> elements (x :: items) (t :: parts)
with members : list (string * JS.value) -> list string -> Prop :=
| members_none : members [] []
| members_undefined k fields parts :
    members fields parts -> members ((k, JS.VUndefined) :: fields) parts
| members_value k kt x t fields parts :
    quoted k kt -> text x t -> members fields parts ->
    members ((k, x) :: fields) ((kt +:+ ":" +:+ t) :: parts).

(** The values of the model whose numbers are safe integers. *)
Fixpoint safe (v : JS.value) : bool :=
  match v with
  | JS.VNum z => (- MAX_SAFE_INTEGER <=? z) && (z <=? MAX_SAFE_INTEGER)
  | JS.VArr items => forallb safe items
  | JS.VObj fields => forallb (fun kv => safe (snd kv)) fields
  | _ => true
  end.

Scheme text_mut := Induction for text Sort Prop
  with elements_mut := Induction for elements Sort Prop
  with members_mut := Induction for members Sort Prop.

End JsonText.

(** The reading of the specification for expiry frames: receiving the
    frame makes the handler call the logout hook exactly once. *)
Definition logs_out_exactly_once (ev : WebSocketService.MessageEvent) (w : World) : Prop :=
  logouts (new_events w (exec (WebSocketService.onmessage ev) w)) = 1%nat.

(** The reading of the specification for [triggerPendingGameRestore]: the
    call invokes every registered pending-restore listener once, in
    registration order. *)
Definition fires_pending_restore_listeners (w : World) : Prop :=
  calls (new_events w (exec GlobalState.triggerPendingGameRestore w)) =
  each_once (pendingGameRestoreListeners (vars w)) [].

(** * Properties *)

Section ModelChecks.

(** The platform functions of the model on small inputs. *)

Example stringify_command :
  JS.stringify (JS.VObj [("operation", JS.VStr "minesweeper_game_load");
                         ("data", JS.VObj [("tableId", JS.VStr "STGMS101")]);
                         ("skipped", JS.VUndefined)]) =
  Some ("{" +:+ JS.quote "operation" +:+ ":" +:+ JS.quote "minesweeper_game_load" +:+ "," +:+
        JS.quote "data" +:+ ":{" +:+ JS.quote "tableId" +:+ ":" +:+ JS.quote "STGMS101" +:+
        "}}").
Proof. vm_compute. reflexivity. Qed.

Example stringify_array :
  JS.stringify (JS.VArr [JS.VNum 10; JS.VNaN; JS.VUndefined; JS.VBool true; JS.VNum (-3)]) =
  Some "[10,null,null,true,-3]".
Proof. vm_compute. reflexivity. Qed.

Example stringify_undefined : JS.stringify JS.VUndefined = None.
Proof. reflexivity. Qed.

Example parseInt_cases :
  map JS.parseInt ["42"; " 42"; "12px"; "abc"; "0X1f"; "-7"; "+8"; "0"; EmptyString] =
  [JS.Num 42; JS.Num 42; JS.Num 12; JS.NaN; JS.Num 31; JS.Num (-7); JS.Num 8; JS.Num 0; JS.NaN].
Proof. vm_compute. reflexivity. Qed.

Example split_cases :
  map (JS.split "x") ["5x6"; "5"; "x"; "1x2x3"] =
  [["5"; "6"]; ["5"]; [EmptyString; EmptyString]; ["1"; "2"; "3"]].
Proof. vm_compute. reflexivity. Qed.

(** A grid string without an [x] gives the columns only; the rows are
    [undefined]. *)
Example gridOption_without_rows :
  let parts := Main.parse_gridOption "5" in
  (Main.at_index parts 0, Main.at_index parts 1) = (JS.Num 5, JS.Undef).
Proof. vm_compute. reflexivity. Qed.

Example truthy_cases :
  map JS.truthy [JS.VStr EmptyString; JS.VStr "0"; JS.VNum 0; JS.VNaN; JS.VArr []; JS.VObj [];
                 JS.VNull; JS.VUndefined] =
  [false; true; false; false; true; true; false; false].
Proof. vm_compute. reflexivity. Qed.

(** The dispatch key is [event], or [operation] when [event] is missing
    or falsy. *)
Example eventKey_cases :
  map WebSocketService.eventKey
    [JS.VObj [("event", JS.VStr "tick"); ("operation", JS.VStr "info")];
     JS.VObj [("operation", JS.VStr "info")];
     JS.VObj [("event", JS.VStr EmptyString); ("operation", JS.VStr "info")];
     JS.VObj [("data", JS.VNum 1)];
     JS.VNum 5] =
  [JS.VStr "tick"; JS.VStr "info"; JS.VStr "info"; JS.VUndefined; JS.VUndefined].
Proof. vm_compute. reflexivity. Qed.

(** Frames that never reach a handler: text that is not JSON, and the
    JSON value [null]. *)
Example malformed_frames_are_dropped :
  let w := exec (WebSocketService.on "tick" (Plain (returning 1))) initial_world in
  let bad := {| WebSocketService.text := "not json"; WebSocketService.json := None |} in
  let null := frame_carrying JS.VNull in
  new_events w (exec (WebSocketService.onmessage bad) w) =
    [Console Error "Invalid message:" [JS.VStr "not json"]] /\
  new_events w (exec (WebSocketService.onmessage null) w) =
    [Console Error "Invalid message:" [JS.VStr "null"]].
Proof. vm_compute. split; reflexivity. Qed.

End ModelChecks.

Section Basics.

Lemma calls_app (a b : list Event) : calls (a ++ b) = calls a ++ calls b.
Proof. unfold calls. apply flat_map_app. Qed.

Lemma transmissions_app (a b : list Event) :
  transmissions (a ++ b) = transmissions a ++ transmissions b.
Proof. unfold transmissions. apply flat_map_app. Qed.

Lemma new_events_extend (w w' : World) (evs : list Event) :
  trace w' = trace w ++ evs -> new_events w w' = evs.
Proof. intros H. unfold new_events. rewrite H. apply drop_app_length. Qed.

Lemma new_events_same (w w' : World) : trace w' = trace w -> new_events w w' = [].
Proof.
  intros H. apply new_events_extend. rewrite H. symmetry. apply app_nil_r.
Qed.

End Basics.

Section StoreFacts.

Lemma setter_entries_app (a b : list Event) :
  setter_entries (a ++ b) = setter_entries a ++ setter_entries b.
Proof. unfold setter_entries. apply flat_map_app. Qed.

Lemma listener_events_no_setter (evs : list Event) :
  Forall listener_event evs -> setter_entries evs = [].
Proof.
  induction 1 as [|e evs He _ IH]; [reflexivity|].
  change (e :: evs) with ([e] ++ evs). rewrite setter_entries_app, IH.
  destruct e as [[| |] ? ?| | | |]; simpl in He; try contradiction; reflexivity.
Qed.

Lemma extended_nil (w : World) : extended w [] = w.
Proof. destruct w. unfold extended, with_trace. simpl. rewrite app_nil_r. reflexivity. Qed.

Lemma extended_extended (w : World) (a b : list Event) :
  extended (extended w a) b = extended w (a ++ b).
Proof. unfold extended, with_trace. simpl. rewrite app_assoc. reflexivity. Qed.

(** Firing a registry: every listener is called once, in the order of the
    list, a listener that throws costs one error line and nothing else, and
    the loop returns. *)
Lemma forEach_guarded_fires (ls : list Callback) (args : list JS.value) (text : string) :
  forall w, exists evs,
    forEach_guarded ls args text w = (Ret tt, extended w evs) /\
    calls evs = each_once ls args /\
    Forall listener_event evs.
Proof.
  induction ls as [|l rest IH]; intros w.
  - exists []. rewrite extended_nil. repeat split. constructor.
  - simpl forEach_guarded. unfold bind at 1. unfold try_catch, invoke.
    unfold bind, gets, emit, modify. simpl.
    destruct (cb_throws l (trace w) args) eqn:Hthrow;
      unfold throw, ret, console_error, emit, modify.
    + destruct (IH (extended (extended w [Call (cb_id l) args])
                      [Console Error text []])) as (evs & Hrun & Hcalls & Hall).
      exists ([Call (cb_id l) args] ++ [Console Error text []] ++ evs).
      split; [|split].
      * rewrite <- !extended_extended. exact Hrun.
      * rewrite !calls_app, Hcalls. reflexivity.
      * repeat constructor. exact Hall.
    + destruct (IH (extended w [Call (cb_id l) args])) as (evs & Hrun & Hcalls & Hall).
      exists ([Call (cb_id l) args] ++ evs).
      split; [|split].
      * rewrite <- !extended_extended. exact Hrun.
      * rewrite !calls_app, Hcalls. reflexivity.
      * repeat constructor. exact Hall.
Qed.



Lemma addPendingGameRestoreListener_runs (cb : Callback) (w : World) :
  exists evs,
    GlobalState.addPendingGameRestoreListener cb w =
      (Ret tt, extended (with_vars (GlobalState.update_pendingGameRestoreListeners
                                      (fun ls => ls ++ [cb])) w) evs) /\
    calls evs = [].
Proof.
  eexists. split; [destruct w; reflexivity | reflexivity].
Qed.



Lemma register_pending_restore (cbs : list Callback) :
  forall w, exists evs,
    register_all GlobalState.addPendingGameRestoreListener cbs w =
      (Ret tt, extended (with_vars (GlobalState.update_pendingGameRestoreListeners
                                      (fun ls => ls ++ cbs)) w) evs) /\
    calls evs = [].
Proof.
  induction cbs as [|cb rest IH]; intros w.
  - exists []. split; [|reflexivity].
    destruct w as [s [g l1 l2 l3 l4 l5 l6] sv h tm tr]. simpl.
    unfold ret, extended, with_trace, with_vars, GlobalState.update_pendingGameRestoreListeners.
    simpl. rewrite !app_nil_r. reflexivity.
  - simpl register_all. unfold bind at 1.
    destruct (addPendingGameRestoreListener_runs cb w) as (e1 & -> & Hc1).
    destruct (IH (extended (with_vars (GlobalState.update_pendingGameRestoreListeners
                                         (fun ls => ls ++ [cb])) w) e1))
      as (e2 & -> & Hc2).
    exists (e1 ++ e2). split.
    + destruct w as [s [g l1 l2 l3 l4 l5 l6] sv h tm tr].
      unfold extended, with_trace, with_vars, GlobalState.update_pendingGameRestoreListeners.
      simpl. rewrite <- !app_assoc. reflexivity.
    + rewrite calls_app, Hc1, Hc2. reflexivity.
Qed.

(** [setGameStarted]: the flag is written, one setter line is logged, and
    the registry that matches the transition (if any) is fired. *)
Lemma setGameStarted_runs (flag : bool) (w : World) :
  exists evs,
    GlobalState.setGameStarted flag w =
      (Ret tt, extended (with_vars (GlobalState.assign_gameStarted flag) w) evs) /\
    calls evs =
      (if flag && negb (gameStarted (vars w))
       then each_once (gameStartedListeners (vars w)) []
       else if negb flag && gameStarted (vars w)
       then each_once (gameEndedListeners (vars w)) []
       else []) /\
    setter_entries evs = ["Game started state changed to:"].
Proof.
  destruct w as [s [g l1 l2 l3 l4 l5 l6] sv h tm tr].
  unfold GlobalState.setGameStarted.
  set (w1 := extended (with_vars (GlobalState.assign_gameStarted flag)
                         {| store := s; vars := Build_ModuleState g l1 l2 l3 l4 l5 l6;
                            ws := sv; window_logoutUser := h; timers := tm; trace := tr |})
                      [Console Info "Game started state changed to:" [JS.VBool flag]]).
  destruct flag, g; simpl.
  - exists [Console Info "Game started state changed to:" [JS.VBool true]].
    repeat split.
  - destruct (forEach_guarded_fires l1 [] "Error in game started listener:"
                (extended w1 [Console Info "Triggering game started listeners" [len l1]]))
      as (evs & Hrun & Hcalls & Hall).
    exists ([Console Info "Game started state changed to:" [JS.VBool true]] ++
            [Console Info "Triggering game started listeners" [len l1]] ++ evs).
    split; [|split].
    + unfold bind, gets, modify, console_log, emit, when, ret. simpl.
      unfold bind, gets, modify, console_log, emit, when, ret. simpl.
      subst w1. unfold extended in Hrun. rewrite Hrun.
      unfold extended, with_trace, with_vars. simpl.
      rewrite <- !app_assoc. reflexivity.
    + rewrite !calls_app, Hcalls. reflexivity.
    + rewrite !setter_entries_app, (listener_events_no_setter evs Hall). reflexivity.
  - destruct (forEach_guarded_fires l2 [] "Error in game ended listener:"
                (extended w1 [Console Info "Triggering game ended listeners" [len l2]]))
      as (evs & Hrun & Hcalls & Hall).
    exists ([Console Info "Game started state changed to:" [JS.VBool false]] ++
            [Console Info "Triggering game ended listeners" [len l2]] ++ evs).
    split; [|split].
    + unfold bind, gets, modify, console_log, emit, when, ret. simpl.
      unfold bind, gets, modify, console_log, emit, when, ret. simpl.
      subst w1. unfold extended in Hrun. rewrite Hrun.
      unfold extended, with_trace, with_vars. simpl.
      rewrite <- !app_assoc. reflexivity.
    + rewrite !calls_app, Hcalls. reflexivity.
    + rewrite !setter_entries_app, (listener_events_no_setter evs Hall). reflexivity.
  - exists [Console Info "Game started state changed to:" [JS.VBool false]].
    repeat split.
Qed.

End StoreFacts.

(** * The two readings of a call agree on functions that do nothing *)

Section IdleFunctions.

Lemma invoke_idle (cb : Callback) (args : list JS.value) (w : World) :
  Reentrant.invoke Reentrant.idle cb args w = invoke cb args w.
Proof. reflexivity. Qed.

Lemma guarded_call_keeps_vars (l : Callback) (args : list JS.value) (text : string) (w : World) :
  vars (snd (try_catch (invoke l args) (fun _ => console_error text []) w)) = vars w.
Proof.
  unfold try_catch, invoke, bind, gets, emit, modify.
  destruct (cb_throws l (trace w) args); destruct w; reflexivity.
Qed.

Lemma forEach_step (array : World -> list Callback) (f : Callback -> M unit)
    (count k : nat) (w : World) (l : Callback) :
  array w !! k = Some l ->
  Reentrant.forEach array f (S count) k w =
  (f l ;; Reentrant.forEach array f count (S k)) w.
Proof.
  intros H. simpl Reentrant.forEach. unfold bind at 1. unfold gets. rewrite H. reflexivity.
Qed.

Lemma forEach_idle (array : ModuleState -> list Callback)
    (args : list JS.value) (text : string) (rest : list Callback) :
  forall pre w,
    array (vars w) = pre ++ rest ->
    Reentrant.forEach (fun w => array (vars w))
      (fun l => try_catch (Reentrant.invoke Reentrant.idle l args)
                  (fun _ => console_error text []))
      (length rest) (length pre) w =
    forEach_guarded rest args text w.
Proof.
  induction rest as [|l rest IH]; intros pre w Harr.
  - reflexivity.
  - simpl length.
    rewrite (forEach_step _ _ _ _ w l) by (rewrite Harr; apply list_lookup_middle; reflexivity).
    simpl forEach_guarded. unfold bind.
    change (try_catch (Reentrant.invoke Reentrant.idle l args)
              (fun _ => console_error text []) w)
      with (try_catch (invoke l args) (fun _ => console_error text []) w).
    pose proof (guarded_call_keeps_vars l args text w) as Hv.
    destruct (try_catch (invoke l args) (fun _ => console_error text []) w) as [[[]|e|] w1];
      try reflexivity.
    simpl in Hv.
    replace (S (length pre)) with (length (pre ++ [l]))
      by (rewrite length_app, Nat.add_1_r; reflexivity).
    apply IH. rewrite Hv, Harr, <- app_assoc. reflexivity.
Qed.

Lemma forEach_guarded_idle (array : ModuleState -> list Callback)
    (args : list JS.value) (text : string) (w : World) :
  Reentrant.forEach_guarded Reentrant.idle array args text w =
  forEach_guarded (array (vars w)) args text w.
Proof.
  unfold Reentrant.forEach_guarded, bind, gets.
  apply (forEach_idle array args text (array (vars w)) [] w). reflexivity.
Qed.

(** With functions that do nothing while they are called, the dispatch
    over the array as it is at each step is the dispatch over the array
    as it was at the start. *)
Lemma setGameStarted_idle (flag : bool) (w : World) :
  Reentrant.setGameStarted Reentrant.idle flag w = GlobalState.setGameStarted flag w.
Proof.
  destruct w as [s [g l1 l2 l3 l4 l5 l6] sv h tm tr].
  unfold Reentrant.setGameStarted, GlobalState.setGameStarted.
  unfold when, bind, gets, ret, console_log, emit, modify.
  cbn [with_vars with_trace vars store trace GlobalState.assign_gameStarted
       gameStartedListeners gameEndedListeners gameStarted].
  destruct flag, g; cbn [andb negb ret]; rewrite ?forEach_guarded_idle; reflexivity.
Qed.

Lemma setBalance_idle (b : Z) (w : World) :
  Reentrant.setBalance Reentrant.idle b w = GlobalState.setBalance b w.
Proof.
  destruct w as [[tk tr_ tc cr gm ba st ri rw ti] v sv h tm tr].
  unfold Reentrant.setBalance, GlobalState.setBalance,
    Reentrant.triggerBalanceChange, GlobalState.triggerBalanceChange.
  unfold when, bind, gets, ret, console_log, emit, modify.
  cbn [with_store with_trace vars store trace balance].
  destruct (Z.eqb ba b); cbn [negb]; [reflexivity|].
  rewrite forEach_guarded_idle. reflexivity.
Qed.

Lemma setGridDimensions_idle (cols rows : JS.jsnum) (w : World) :
  Reentrant.setGridDimensions Reentrant.idle cols rows w =
  GlobalState.setGridDimensions cols rows w.
Proof.
  destruct w as [[tk tr_ tc cr gm ba st ri rw ti] v sv h tm tr].
  unfold Reentrant.setGridDimensions, GlobalState.setGridDimensions.
  unfold when, bind, gets, ret, console_log, emit, modify.
  cbn [with_store with_trace vars store trace total_cols total_rows].
  destruct (JS.jsnum_neq tc cols || JS.jsnum_neq tr_ rows); [|reflexivity].
  rewrite forEach_guarded_idle. reflexivity.
Qed.

Lemma onmessage_idle (ev : WebSocketService.MessageEvent) (w : World) :
  Reentrant.onmessage Reentrant.idle ev w = WebSocketService.onmessage ev w.
Proof. reflexivity. Qed.

End IdleFunctions.

(** * Dispatch to functions that call back *)

Section ReentrantDispatch.

Variable c : Reentrant.Conduct.
Hypothesis Hc : Reentrant.leaves_listeners_alone c.

(** One call inside its [try]/[catch]: it returns, the module variables
    are as before (and the store object too, when the functions spare
    it), and the one call is all that was called. *)
Lemma guarded_call_outside (l : Callback) (args : list JS.value) (text : string) (w : World) :
  exists evs w',
    try_catch (Reentrant.invoke c l args) (fun _ => console_error text []) w = (Ret tt, w') /\
    (Reentrant.spares_the_store_object c -> store w' = store w) /\
    vars w' = vars w /\
    trace w' = trace w ++ evs /\ calls evs = [(cb_id l, args)].
Proof.
  unfold try_catch, Reentrant.invoke.
  unfold bind at 1. unfold gets at 1.
  unfold bind at 1. unfold emit at 1, modify at 1.
  set (w1 := with_trace (fun t => t ++ [Call (cb_id l) args]) w).
  destruct (Hc (cb_id l) args w1) as (evs & Hfuel & Hv & Ht & Hcalls).
  assert (Hs : Reentrant.spares_the_store_object c ->
               store (world_of (Reentrant.during c (cb_id l) args w1)) = store w).
  { intros H. rewrite (H (cb_id l) args w1). destruct w; reflexivity. }
  assert (Hv1 : vars w1 = vars w) by (destruct w; reflexivity).
  assert (Ht1 : trace w1 = trace w ++ [Call (cb_id l) args]) by (destruct w; reflexivity).
  clearbody w1.
  unfold bind.
  destruct (Reentrant.during c (cb_id l) args w1) as [[[]|e|] w2];
    unfold outcome_of, world_of in *; simpl in Hs, Hv, Ht, Hfuel.
  - destruct (cb_throws l (trace w) args).
    + exists ([Call (cb_id l) args] ++ evs ++ [Console Error text []]),
        (with_trace (fun t => t ++ [Console Error text []]) w2).
      split; [reflexivity|].
      split; [intros H; rewrite <- (Hs H); destruct w2; reflexivity|].
      split; [rewrite <- Hv1, <- Hv; destruct w2; reflexivity|].
      split.
      * destruct w2; simpl in *. rewrite Ht, Ht1, <- !app_assoc. reflexivity.
      * rewrite !calls_app, Hcalls. reflexivity.
    + exists ([Call (cb_id l) args] ++ evs), w2.
      split; [reflexivity|].
      split; [exact Hs|].
      split; [congruence|].
      split.
      * rewrite Ht, Ht1, <- !app_assoc. reflexivity.
      * rewrite !calls_app, Hcalls. reflexivity.
  - exists ([Call (cb_id l) args] ++ evs ++ [Console Error text []]),
      (with_trace (fun t => t ++ [Console Error text []]) w2).
    split; [reflexivity|].
    split; [intros H; rewrite <- (Hs H); destruct w2; reflexivity|].
    split; [rewrite <- Hv1, <- Hv; destruct w2; reflexivity|].
    split.
    + destruct w2; simpl in *. rewrite Ht, Ht1, <- !app_assoc. reflexivity.
    + rewrite !calls_app, Hcalls. reflexivity.
  - exfalso. apply Hfuel. reflexivity.
Qed.

(** [forEach] from index [length pre] on, over an array that holds
    [pre ++ rest]: every function of [rest] is called once, in order. *)
Lemma forEach_outside (array : ModuleState -> list Callback)
    (args : list JS.value) (text : string) (rest : list Callback) :
  forall pre w,
    array (vars w) = pre ++ rest ->
    exists evs w',
      Reentrant.forEach (fun w => array (vars w))
        (fun l => try_catch (Reentrant.invoke c l args) (fun _ => console_error text []))
        (length rest) (length pre) w = (Ret tt, w') /\
      (Reentrant.spares_the_store_object c -> store w' = store w) /\
      vars w' = vars w /\
      trace w' = trace w ++ evs /\ calls evs = each_once rest args.
Proof.
  induction rest as [|l rest IH]; intros pre w Harr.
  - exists [], w. repeat split. symmetry. apply app_nil_r.
  - simpl length.
    rewrite (forEach_step _ _ _ _ w l) by (rewrite Harr; apply list_lookup_middle; reflexivity).
    unfold bind at 1.
    destruct (guarded_call_outside l args text w) as (e1 & w1 & -> & Hs1 & Hv1 & Ht1 & Hc1).
    assert (Harr1 : array (vars w1) = (pre ++ [l]) ++ rest)
      by (rewrite Hv1, Harr, <- app_assoc; reflexivity).
    destruct (IH (pre ++ [l]) w1 Harr1) as (e2 & w2 & Hrun & Hs2 & Hv2 & Ht2 & Hc2).
    rewrite length_app in Hrun. simpl in Hrun. rewrite Nat.add_1_r in Hrun.
    exists (e1 ++ e2), w2.
    split; [exact Hrun|].
    split; [intros H; rewrite (Hs2 H); exact (Hs1 H)|].
    split; [congruence|].
    split; [rewrite Ht2, Ht1, <- app_assoc; reflexivity|].
    rewrite calls_app, Hc1, Hc2. reflexivity.
Qed.

Lemma forEach_guarded_outside (array : ModuleState -> list Callback)
    (args : list JS.value) (text : string) (w : World) :
  exists evs w',
    Reentrant.forEach_guarded c array args text w = (Ret tt, w') /\
    (Reentrant.spares_the_store_object c -> store w' = store w) /\
    vars w' = vars w /\
    trace w' = trace w ++ evs /\ calls evs = each_once (array (vars w)) args.
Proof.
  unfold Reentrant.forEach_guarded, bind, gets.
  apply (forEach_outside array args text (array (vars w)) [] w). reflexivity.
Qed.

Ltac dispatch_outside :=
  match goal with
  | |- context [Reentrant.forEach_guarded c ?a ?args ?t ?w0] =>
      let evs := fresh "evs" in
      let w' := fresh "w'" in
      let Hrun := fresh "Hrun" in
      let Hs := fresh "Hs" in
      let Hv := fresh "Hv" in
      let Ht := fresh "Ht" in
      let Hcalls := fresh "Hcalls" in
      destruct (forEach_guarded_outside a args t w0) as (evs & w' & Hrun & Hs & Hv & Ht & Hcalls);
      rewrite Hrun; simpl in Hs, Hv, Ht, Hcalls
  end.


Lemma setBalance_outside (b : Z) (w : World) :
  exists evs w',
    Reentrant.setBalance c b w = (Ret tt, w') /\
    (Reentrant.spares_the_store_object c ->
     store w' = GlobalState.assign_balance b (store w)) /\
    vars w' = vars w /\
    trace w' = trace w ++ evs /\
    calls evs =
      (if Z.eqb (balance (store w)) b then []
       else each_once (balanceChangeListeners (vars w)) [JS.VNum b]).
Proof.
  destruct w as [[tk tr_ tc cr gm ba st ri rw ti] v sv h tm tr].
  unfold Reentrant.setBalance.
  unfold bind at 1. unfold gets at 1. cbn [store balance].
  unfold bind at 1. unfold modify at 1.
  unfold bind at 1. unfold console_log at 1, emit, modify.
  destruct (Z.eqb ba b); cbn [negb when].
  - eexists. eexists. split; [reflexivity|]. repeat split.
  - unfold Reentrant.triggerBalanceChange.
    unfold bind, gets, ret, console_log, emit, modify;
    cbn [with_store with_trace vars store trace].
    dispatch_outside.
    eexists. eexists. split; [reflexivity|].
    split; [exact Hs|]. split; [exact Hv|].
    split; [rewrite Ht, <- !app_assoc; reflexivity|].
    rewrite !calls_app, Hcalls. reflexivity.
Qed.

Lemma setGridDimensions_outside (cols rows : JS.jsnum) (w : World) :
  exists evs w',
    Reentrant.setGridDimensions c cols rows w = (Ret tt, w') /\
    (Reentrant.spares_the_store_object c ->
     store w' = GlobalState.assign_dimensions cols rows (store w)) /\
    vars w' = vars w /\
    trace w' = trace w ++ evs /\
    calls evs =
      (if JS.jsnum_neq (total_cols (store w)) cols || JS.jsnum_neq (total_rows (store w)) rows
       then each_once (gridDimensionChangeListeners (vars w)) (map JS.jsnum_value [cols; rows])
       else []).
Proof.
  destruct w as [[tk tr_ tc cr gm ba st ri rw ti] v sv h tm tr].
  unfold Reentrant.setGridDimensions.
  unfold bind at 1. unfold gets at 1. cbn [store total_cols].
  unfold bind at 1. unfold gets at 1. cbn [store total_rows].
  unfold bind at 1. unfold modify at 1.
  unfold bind at 1. unfold console_log at 1, emit, modify.
  destruct (JS.jsnum_neq tc cols || JS.jsnum_neq tr_ rows); cbn [when].
  - unfold bind, gets, ret, console_log, emit, modify;
    cbn [with_store with_trace vars store trace].
    dispatch_outside.
    eexists. eexists. split; [reflexivity|].
    split; [exact Hs|]. split; [exact Hv|].
    split; [rewrite Ht, <- !app_assoc; reflexivity|].
    rewrite !calls_app, Hcalls. reflexivity.
  - eexists. eexists. split; [reflexivity|]. repeat split.
Qed.

End ReentrantDispatch.

(** A listener that writes a console line while it is called. *)
Lemma chatty_leaves_listeners_alone : Reentrant.leaves_listeners_alone Reentrant.chatty.
Proof.
  intros id args w. exists [Console Info "listener called" [JS.VNum (Z.of_nat id)]].
  destruct w. repeat split. discriminate.
Qed.

Lemma chatty_outside_the_store : Reentrant.outside_the_store Reentrant.chatty.
Proof.
  split; [exact chatty_leaves_listeners_alone|].
  intros id args w. destruct w. reflexivity.
Qed.

Section GameStartedSignal.


(** What the run above does: two listeners are announced, the first is
    called and leaves, the second is not called and stays registered. *)
Example self_unsubscribing_listener_run :
  let w0 := exec (register_all GlobalState.addGameStartedListener [returning 1; returning 2])
              initial_world in
  let w1 := exec (Reentrant.setGameStarted (Reentrant.leaves_when_called 1) true) w0 in
  new_events w0 w1 =
    [Console Info "Game started state changed to:" [JS.VBool true];
     Console Info "Triggering game started listeners" [JS.VNum 2];
     Call 1 [];
     Console Info "Removed game started listener. Remaining listeners:" [JS.VNum 1]] /\
  map cb_id (gameStartedListeners (vars w1)) = [2%nat].
Proof. vm_compute. split; reflexivity. Qed.



End GameStartedSignal.

Section PendingRestoreSignal.

(** A run on a small world: two listeners, the first of which throws. *)
Example setGameStarted_two_listeners :
  let w0 := exec (GlobalState.addGameStartedListener (throwing 1) ;;
                  GlobalState.addGameStartedListener (returning 2)) initial_world in
  calls (new_events w0 (exec (GlobalState.setGameStarted true) w0)) = [(1%nat, []); (2%nat, [])].
Proof. vm_compute. reflexivity. Qed.

(** C1, as the specification states it, fails: with one listener
    registered, [triggerPendingGameRestore] calls nothing. *)
Lemma triggerPendingGameRestore_skips_registered_listener :
  ~ fires_pending_restore_listeners
      (exec (GlobalState.addPendingGameRestoreListener (returning 1)) initial_world).
Proof.
  unfold fires_pending_restore_listeners. vm_compute. discriminate.
Qed.

(** C1, amended.  [addPendingGameRestoreListener] keeps the callbacks in
    registration order, and [triggerPendingGameRestore] is the placeholder
    the source says it is: it writes its one console line, returns, leaves
    the registry and the rest of the state as they were, and calls no
    registered callback. *)
Theorem triggerPendingGameRestore_only_logs (w : World) (cbs : list Callback) :
  let w1 := exec (register_all GlobalState.addPendingGameRestoreListener cbs) w in
  let r := GlobalState.triggerPendingGameRestore w1 in
  pendingGameRestoreListeners (vars w1) = pendingGameRestoreListeners (vars w) ++ cbs /\
  r = (Ret tt, extended w1 [Console Info "Triggering pending game restore" []]) /\
  calls (new_events w1 (world_of r)) = [].
Proof.
  intros w1 r.
  assert (Hreg : pendingGameRestoreListeners (vars w1) =
                 pendingGameRestoreListeners (vars w) ++ cbs).
  { subst w1. unfold exec.
    destruct (register_pending_restore cbs w) as (evs & -> & _).
    destruct w as [s [g l1 l2 l3 l4 l5 l6] sv h tm tr]. reflexivity. }
  clearbody w1.
  assert (Hr : r = (Ret tt, extended w1 [Console Info "Triggering pending game restore" []]))
    by reflexivity.
  split; [exact Hreg | split; [exact Hr |]].
  rewrite Hr. unfold world_of. simpl snd.
  rewrite (new_events_extend w1 _ [Console Info "Triggering pending game restore" []]).
  - reflexivity.
  - destruct w1; reflexivity.
Qed.

End PendingRestoreSignal.

Section Transport.

Lemma send_when_not_open (e : string) (d : JS.value) (w : World) :
  WebSocketService.is_open (ws w) = false ->
  WebSocketService.send e d w =
    (Ret tt, with_ws (fun s => WebSocketService.assign_queue
                                 (queue s ++ [{| event := e; data := d |}]) s) w).
Proof.
  intros Hclosed. unfold WebSocketService.send, WebSocketService.isSocketConnected, bind, gets.
  rewrite Hclosed. reflexivity.
Qed.

Lemma send_when_open (e : string) (d : JS.value) (w : World) :
  WebSocketService.is_open (ws w) = true ->
  WebSocketService.send e d w =
    (Ret tt, extended w [Transmit (WebSocketService.wire (JS.stringify d))]).
Proof.
  intros Hopen. unfold WebSocketService.send, WebSocketService.isSocketConnected, bind, gets.
  rewrite Hopen. reflexivity.
Qed.

(** While the connection is not open, a run of sends only grows the
    queue, at its end and in call order. *)
Lemma send_all_not_open (cmds : list WSMessage) :
  forall w,
    WebSocketService.is_open (ws w) = false ->
    send_all cmds w =
      (Ret tt, with_ws (fun s => WebSocketService.assign_queue (queue s ++ cmds) s) w).
Proof.
  induction cmds as [|c rest IH]; intros w Hclosed.
  - destruct w as [s v [so li q ic] h tm tr]. simpl.
    unfold ret, with_ws, WebSocketService.assign_queue. simpl.
    rewrite app_nil_r. reflexivity.
  - destruct c as [e d]. simpl send_all. unfold bind.
    rewrite (send_when_not_open _ _ _ Hclosed).
    rewrite IH.
    + destruct w as [s v [so li q ic] h tm tr].
      unfold with_ws, WebSocketService.assign_queue. simpl.
      rewrite <- app_assoc. reflexivity.
    + destruct w as [s v [so li q ic] h tm tr]. exact Hclosed.
Qed.

(** On an open connection the loop of [onopen] sends the whole queue, in
    queue order, and leaves it empty; fuel for one turn per entry is
    enough. *)
Lemma flush_sends_queue (q : list WSMessage) :
  forall (fuel : nat) (w : World),
    WebSocketService.is_open (ws w) = true ->
    queue (ws w) = q ->
    (length q <= fuel)%nat ->
    WebSocketService.flush fuel w =
      (Ret tt, extended (with_ws (WebSocketService.assign_queue []) w)
                 (map (fun c => Transmit (frame_of c)) q)).
Proof.
  induction q as [|c rest IH]; intros fuel w Hopen Hq Hfuel.
  - destruct fuel; simpl; unfold bind, gets; rewrite Hq;
      destruct w as [s v [so li q' ic] h tm tr]; simpl in Hq; subst q';
      unfold ret, extended, with_trace, with_ws, WebSocketService.assign_queue; simpl;
      rewrite app_nil_r; reflexivity.
  - destruct fuel as [|fuel]; [simpl in Hfuel; lia|].
    simpl WebSocketService.flush. unfold bind at 1. unfold gets at 1. rewrite Hq.
    unfold bind at 1. unfold modify at 1.
    unfold bind at 1.
    rewrite send_when_open
      by (destruct w as [s v [so li q' ic] h tm tr]; exact Hopen).
    rewrite (IH fuel).
    + destruct w as [s v [so li q' ic] h tm tr].
      unfold extended, with_trace, with_ws, WebSocketService.assign_queue. simpl.
      rewrite <- app_assoc. reflexivity.
    + destruct w as [s v [so li q' ic] h tm tr]. exact Hopen.
    + destruct w as [s v [so li q' ic] h tm tr]. reflexivity.
    + simpl in Hfuel. lia.
Qed.

Lemma transmissions_of_frames (q : list WSMessage) :
  transmissions (map (fun c => Transmit (frame_of c)) q) = map frame_of q.
Proof. induction q as [|c rest IH]; [reflexivity | simpl; rewrite IH; reflexivity]. Qed.

End Transport.

Section Queueing.

(** The world in which [onopen] starts its loop, and what holds there. *)
Lemma socket_opens_runs (fuel : nat) (w : World) :
  (length (queue (ws w)) <= fuel)%nat ->
  WebSocketService.socket_opens fuel w =
    (Ret tt,
     extended
       (with_ws (fun s => {| socket := Some OPEN; listeners := listeners s;
                             queue := []; isConnected := true |}) w)
       (Console Info "WebSocket connected successfully" [] ::
        map (fun c => Transmit (frame_of c)) (queue (ws w)))).
Proof.
  intros Hfuel.
  unfold WebSocketService.socket_opens, WebSocketService.onopen.
  unfold bind at 1. unfold modify at 1.
  unfold bind at 1. unfold modify at 1.
  unfold bind at 1. unfold console_log, emit, modify.
  rewrite (flush_sends_queue (queue (ws w))).
  - destruct w as [s v [so li q ic] h tm tr].
    unfold extended, with_trace, with_ws, WebSocketService.assign_queue,
      WebSocketService.assign_socket, WebSocketService.assign_isConnected. simpl.
    rewrite <- app_assoc. reflexivity.
  - destruct w as [s v [so li q ic] h tm tr]. reflexivity.
  - destruct w as [s v [so li q ic] h tm tr]. reflexivity.
  - destruct w as [s v [so li q ic] h tm tr]. exact Hfuel.
Qed.

(** C2.  From a connection that is not open and has nothing queued, every
    one of [N] calls to [send] appends its command to the queue and puts
    nothing on the wire (after the first [n] calls the queue holds the
    first [n] commands and no event has been added).  When the socket then
    opens, the handler returns, exactly the [N] frames of the commands have
    been transmitted, in call order, and the queue is empty. *)
Theorem queued_sends_flush_in_order (w : World) (cmds : list WSMessage) (fuel : nat) :
  WebSocketService.is_open (ws w) = false ->
  queue (ws w) = [] ->
  (length cmds <= fuel)%nat ->
  let w1 := exec (send_all cmds) w in
  let r := WebSocketService.socket_opens fuel w1 in
  (forall n : nat,
      let wn := exec (send_all (take n cmds)) w in
      queue (ws wn) = take n cmds /\ new_events w wn = []) /\
  queue (ws w1) = cmds /\
  outcome_of r = Ret tt /\
  transmissions (new_events w1 (world_of r)) = map frame_of cmds /\
  length (transmissions (new_events w1 (world_of r))) = length cmds /\
  queue (ws (world_of r)) = [].
Proof.
  intros Hclosed Hempty Hfuel w1 r.
  assert (Hprefix : forall l, queue (ws (exec (send_all l) w)) = l /\
                              new_events w (exec (send_all l) w) = []).
  { intros l. unfold exec. rewrite (send_all_not_open l w Hclosed).
    destruct w as [s v [so li q ic] h tm tr]. simpl in Hempty. subst q.
    split; [reflexivity|]. apply new_events_same. reflexivity. }
  assert (Hq1 : queue (ws w1) = cmds) by apply Hprefix.
  assert (Hr : r = (Ret tt,
                    extended
                      (with_ws (fun s => {| socket := Some OPEN; listeners := listeners s;
                                            queue := []; isConnected := true |}) w1)
                      (Console Info "WebSocket connected successfully" [] ::
                       map (fun c => Transmit (frame_of c)) cmds))).
  { subst r. rewrite socket_opens_runs by (rewrite Hq1; exact Hfuel).
    rewrite Hq1. reflexivity. }
  clearbody w1 r. subst r.
  assert (Hnew : new_events w1
                   (world_of (Ret tt,
                     extended
                       (with_ws (fun s => {| socket := Some OPEN; listeners := listeners s;
                                             queue := []; isConnected := true |}) w1)
                       (Console Info "WebSocket connected successfully" [] ::
                        map (fun c => Transmit (frame_of c)) cmds))) =
                 Console Info "WebSocket connected successfully" [] ::
                 map (fun c => Transmit (frame_of c)) cmds).
  { apply new_events_extend. destruct w1; reflexivity. }
  split; [intros n; apply Hprefix|].
  split; [exact Hq1|].
  split; [reflexivity|].
  rewrite Hnew.
  change (transmissions (Console Info "WebSocket connected successfully" [] ::
                         map (fun c => Transmit (frame_of c)) cmds))
    with (transmissions (map (fun c => Transmit (frame_of c)) cmds)).
  rewrite transmissions_of_frames.
  split; [reflexivity|].
  split; [apply length_map|].
  destruct w1 as [s v [so li q ic] h tm tr]. reflexivity.
Qed.

(** Two commands queued on a fresh service, then the socket opens. *)
Lemma queued_sends_flush_in_order_witness :
  let cmds := [{| event := "getbalance";
                  data := JS.VObj [("operation", JS.VStr "getbalance")] |};
               {| event := "minesweeper_game_load";
                  data := JS.VObj [("operation", JS.VStr "minesweeper_game_load");
                                   ("data", JS.VObj [("tableId", JS.VStr "STGMS101")])] |}] in
  let w1 := exec (send_all cmds) initial_world in
  let r := WebSocketService.socket_opens 2 w1 in
  WebSocketService.is_open (ws initial_world) = false /\
  queue (ws initial_world) = [] /\
  (length cmds <= 2)%nat /\
  queue (ws w1) = cmds /\
  transmissions (new_events w1 (world_of r)) = map frame_of cmds /\
  queue (ws (world_of r)) = [].
Proof.
  intros cmds w1 r.
  assert (Hclosed : WebSocketService.is_open (ws initial_world) = false) by reflexivity.
  assert (Hempty : queue (ws initial_world) = []) by reflexivity.
  assert (Hfuel : (length cmds <= 2)%nat) by (simpl; lia).
  destruct (queued_sends_flush_in_order initial_world cmds 2 Hclosed Hempty Hfuel)
    as (_ & Hq & _ & Htx & _ & Hq').
  repeat split; assumption.
Defined.

(** The frames of such a run, spelled out. *)
Example queued_frames_on_the_wire :
  let cmds := [{| event := "getbalance";
                  data := JS.VObj [("operation", JS.VStr "getbalance")] |};
               {| event := "bet"; data := JS.VArr [JS.VNum 5; JS.VUndefined; JS.VNum (-12)] |}] in
  transmissions (trace (exec (WebSocketService.socket_opens 2)
                          (exec (send_all cmds) initial_world))) =
  ["{" +:+ JS.quote "operation" +:+ ":" +:+ JS.quote "getbalance" +:+ "}";
   "[5,null,-12]"].
Proof. vm_compute. reflexivity. Qed.

(** Without fuel for every entry the loop is cut short, and says so. *)
Example flush_out_of_fuel :
  let cmds := [{| event := "a"; data := JS.VNull |}; {| event := "b"; data := JS.VNull |}] in
  outcome_of (WebSocketService.socket_opens 1 (exec (send_all cmds) initial_world)) = OutOfFuel.
Proof. vm_compute. reflexivity. Qed.

End Queueing.

Section Routing.

Import WebSocketService.

(** A frame that carries a string status under [data] is an object, so
    reading its members does not throw, and [data] is an object too. *)
Lemma status_string_not_nullish (msg : JS.value) (lit : string) :
  JS.is_str (JS.prop (JS.prop msg "data") "status") lit = true ->
  JS.nullish msg = false /\ JS.truthy (JS.prop msg "data") = true.
Proof.
  intros H. split.
  - destruct msg; try reflexivity; discriminate H.
  - destruct (JS.prop msg "data"); try reflexivity; discriminate H.
Qed.

Lemma eventKey_string_not_nullish (msg : JS.value) (k : string) :
  eventKey msg = JS.VStr k -> JS.nullish msg = false.
Proof. intros H. destruct msg; try reflexivity; discriminate H. Qed.

(** An expiry frame: the log line, the hook if the page has one, and the
    end of the handler. *)
Lemma onmessage_expired (ev : MessageEvent) (msg : JS.value) (w : World) :
  json ev = Some msg ->
  JS.nullish msg = false ->
  session_expired msg = true ->
  onmessage ev w =
    (Ret tt,
     extended w
       (Console Info "Session expired, logging out user" [] ::
        match window_logoutUser w with
        | Some h =>
            LogoutUser ::
            (if h (trace w ++ [Console Info "Session expired, logging out user" []])
             then [Console Error "Invalid message:" [JS.VStr (text ev)]] else [])
        | None => []
        end)).
Proof.
  intros Hjson Hnn Hexp.
  unfold onmessage, try_catch, bind at 1, JSON_parse. rewrite Hjson. unfold ret at 1.
  unfold bind at 1, read. rewrite Hnn. unfold ret at 1. rewrite Hexp.
  destruct w as [s v sv [h|] tm tr]; simpl.
  - unfold bind, console_log, emit, modify, gets, call_logoutUser. simpl.
    unfold bind, console_log, emit, modify, gets. simpl.
    destruct (h (tr ++ [Console Info "Session expired, logging out user" []]));
      unfold throw, ret, console_error, emit, modify, extended, with_trace; simpl;
      rewrite <- !app_assoc; reflexivity.
  - unfold bind, console_log, emit, modify, gets, ret, extended, with_trace. simpl.
    reflexivity.
Qed.

(** A frame that is neither an expiry frame nor intercepted as bet steps
    goes to the handler of its key, if the table has one. *)
Lemma onmessage_dispatches (ev : MessageEvent) (msg : JS.value) (w : World) :
  json ev = Some msg ->
  JS.nullish msg = false ->
  session_expired msg = false ->
  carries_bet_steps msg = false ->
  onmessage ev w =
    match handler_for (eventKey msg) (listeners (ws w)) with
    | Some h =>
        try_catch (apply_handler h (payload msg))
          (fun _ => console_error "Invalid message:" [JS.VStr (text ev)]) w
    | None => (Ret tt, w)
    end.
Proof.
  intros Hjson Hnn Hexp Hbet.
  unfold onmessage, try_catch, bind at 1, JSON_parse. rewrite Hjson. unfold ret at 1.
  unfold bind at 1, read. rewrite Hnn. unfold ret at 1. rewrite Hexp, Hbet.
  unfold when. unfold bind at 1. unfold ret at 1.
  unfold bind at 1. unfold gets at 1.
  destruct (handler_for (eventKey msg) (listeners (ws w))); reflexivity.
Qed.

(** The frame intercepted as bet steps: the call into the store throws,
    the [catch] logs, and the dispatch is never reached. *)
Lemma onmessage_bet_steps (ev : MessageEvent) (msg : JS.value) (w : World) :
  json ev = Some msg ->
  JS.nullish msg = false ->
  session_expired msg = false ->
  carries_bet_steps msg = true ->
  onmessage ev w =
    (Ret tt, extended w [Console Error "Invalid message:" [JS.VStr (text ev)]]).
Proof.
  intros Hjson Hnn Hexp Hbet.
  unfold onmessage, try_catch, bind at 1, JSON_parse. rewrite Hjson. unfold ret at 1.
  unfold bind at 1, read. rewrite Hnn. unfold ret at 1. rewrite Hexp, Hbet.
  reflexivity.
Qed.

(** What one handler does when applied. *)
Lemma apply_plain (cb : Callback) (arg : JS.value) (text : string) (w : World) :
  try_catch (apply_handler (Plain cb) arg)
    (fun _ => console_error "Invalid message:" [JS.VStr text]) w =
  (Ret tt,
   extended w (Call (cb_id cb) [arg] ::
               (if cb_throws cb (trace w) [arg]
                then [Console Error "Invalid message:" [JS.VStr text]] else []))).
Proof.
  unfold try_catch, apply_handler, invoke, bind, gets, emit, modify.
  destruct w as [s v sv h tm tr]. simpl.
  destruct (cb_throws cb tr [arg]);
    unfold throw, ret, console_error, emit, modify, extended, with_trace; simpl;
    rewrite <- ?app_assoc; reflexivity.
Qed.

Lemma apply_once (k : string) (cb : Callback) (arg : JS.value) (text : string) (w : World) :
  try_catch (apply_handler (OnceCallback k cb) arg)
    (fun _ => console_error "Invalid message:" [JS.VStr text]) w =
  if cb_throws cb (trace w) [arg]
  then (Ret tt, extended w [Call (cb_id cb) [arg];
                            Console Error "Invalid message:" [JS.VStr text]])
  else (Ret tt,
        extended (with_ws (fun s => assign_listeners (delete k (listeners s)) s) w)
          [Call (cb_id cb) [arg]]).
Proof.
  unfold try_catch, apply_handler, invoke, bind, gets, emit, modify.
  destruct w as [s v sv h tm tr]. simpl.
  destruct (cb_throws cb tr [arg]);
    unfold throw, ret, console_error, emit, modify, off, extended, with_trace, with_ws; simpl;
    rewrite <- ?app_assoc; reflexivity.
Qed.

End Routing.

Section SessionExpiry.

Import WebSocketService.

(** Without the hook an expiry frame still ends the handler before the
    dispatch: nothing is called at all. *)
Lemma expired_frame_without_hook
    (w : World) (ev : MessageEvent) (msg : JS.value) :
  json ev = Some msg ->
  JS.is_str (JS.prop (JS.prop msg "data") "status") "401 Session Expired" = true ->
  window_logoutUser w = None ->
  onmessage ev w = (Ret tt, extended w [Console Info "Session expired, logging out user" []]).
Proof.
  intros Hjson Hstatus Hhook.
  destruct (status_string_not_nullish msg _ Hstatus) as [Hnn Htruthy].
  assert (Hexp : session_expired msg = true).
  { unfold session_expired. rewrite Htruthy, Hstatus. reflexivity. }
  rewrite (onmessage_expired ev msg w Hjson Hnn Hexp), Hhook. reflexivity.
Qed.

(** C5, as the specification states it, fails on a page that does not
    define [window.logoutUser]: the call is guarded by the hook being
    there, so the expiry frame logs nobody out. *)
Lemma expired_frame_without_hook_logs_nobody_out :
  ~ logs_out_exactly_once
      (frame_carrying
         (JS.VObj [("operation", JS.VStr "getbalance");
                   ("data", JS.VObj [("status", JS.VStr "401 Session Expired")])]))
      initial_world.
Proof.
  unfold logs_out_exactly_once. vm_compute. discriminate.
Qed.

(** C5, amended.  A frame whose [data.status] is the session-expiry
    string: the handler returns; the logout hook has been called exactly
    once when the page defines [window.logoutUser], and not at all when it
    does not; in both cases no callback has been called, whatever the
    handler table holds, and the table itself is left as it was. *)
Theorem expired_frame_logs_out_once
    (w : World) (ev : MessageEvent) (msg : JS.value) :
  json ev = Some msg ->
  JS.is_str (JS.prop (JS.prop msg "data") "status") "401 Session Expired" = true ->
  let r := onmessage ev w in
  outcome_of r = Ret tt /\
  logouts (new_events w (world_of r)) =
    match window_logoutUser w with
    | Some _ => 1%nat
    | None => 0%nat
    end /\
  calls (new_events w (world_of r)) = [] /\
  listeners (ws (world_of r)) = listeners (ws w).
Proof.
  intros Hjson Hstatus r.
  destruct (window_logoutUser w) as [hook|] eqn:Hhook.
  - destruct (status_string_not_nullish msg _ Hstatus) as [Hnn Htruthy].
    assert (Hexp : session_expired msg = true).
    { unfold session_expired. rewrite Htruthy, Hstatus. reflexivity. }
    subst r. rewrite (onmessage_expired ev msg w Hjson Hnn Hexp), Hhook.
    unfold outcome_of, world_of. simpl fst. simpl snd.
    rewrite (new_events_extend w _
               (Console Info "Session expired, logging out user" [] ::
                LogoutUser ::
                (if hook (trace w ++ [Console Info "Session expired, logging out user" []])
                 then [Console Error "Invalid message:" [JS.VStr (text ev)]] else [])))
      by (destruct w; reflexivity).
    split; [reflexivity|].
    split; [destruct (hook _); reflexivity|].
    split; [destruct (hook _); reflexivity|].
    destruct w; reflexivity.
  - subst r. rewrite (expired_frame_without_hook w ev msg Hjson Hstatus Hhook).
    unfold outcome_of, world_of. simpl fst. simpl snd.
    rewrite (new_events_extend w _ [Console Info "Session expired, logging out user" []])
      by (destruct w; reflexivity).
    split; [reflexivity|]. split; [reflexivity|]. split; [reflexivity|].
    destruct w; reflexivity.
Qed.

(** An expiry frame for a key that has a handler, on a page with the
    hook. *)
Lemma expired_frame_logs_out_once_witness :
  let msg := JS.VObj [("operation", JS.VStr "getbalance");
                      ("data", JS.VObj [("status", JS.VStr "401 Session Expired")])] in
  let w := {| store := GlobalState.initial_store; vars := GlobalState.initial_vars;
              ws := assign_listeners (<["getbalance" := Plain (returning 1)]> ∅) initial_service;
              window_logoutUser := Some (fun _ => false);
              timers := []; trace := [] |} in
  let r := onmessage (frame_carrying msg) w in
  listeners (ws w) !! "getbalance" = Some (Plain (returning 1)) /\
  eventKey msg = JS.VStr "getbalance" /\
  logouts (new_events w (world_of r)) = 1%nat /\
  calls (new_events w (world_of r)) = [].
Proof.
  intros msg w r.
  assert (Hjson : json (frame_carrying msg) = Some msg) by reflexivity.
  assert (Hstatus : JS.is_str (JS.prop (JS.prop msg "data") "status")
                      "401 Session Expired" = true) by reflexivity.
  destruct (expired_frame_logs_out_once w (frame_carrying msg) msg Hjson Hstatus)
    as (_ & Hlog & Hcalls & _).
  split; [vm_compute; reflexivity|].
  split; [reflexivity|].
  split; assumption.
Defined.

End SessionExpiry.

Section HandlerTable.

Import WebSocketService.

(** C7.  After [on(k, h1)] and then [on(k, h2)] the table holds [h2] for
    [k], and a frame whose dispatch key is [k] leads to one call at most,
    the call of [h2] with the payload of the frame: that call is made
    unless the frame is cut short before the dispatch (an expiry frame, a
    frame intercepted as bet steps) or the key is the empty string, which
    the dispatch treats as no key.  [h1] is not called. *)
Theorem later_registration_replaces_earlier
    (w : World) (k : string) (h1 h2 : Callback) (ev : MessageEvent) (msg : JS.value) :
  json ev = Some msg ->
  eventKey msg = JS.VStr k ->
  let w2 := exec (on k (Plain h1) ;; on k (Plain h2)) w in
  let r := onmessage ev w2 in
  listeners (ws w2) !! k = Some (Plain h2) /\
  outcome_of r = Ret tt /\
  calls (new_events w2 (world_of r)) =
    (if session_expired msg || carries_bet_steps msg || negb (JS.truthy (JS.VStr k))
     then [] else [(cb_id h2, [payload msg])]) /\
  (cb_id h1 <> cb_id h2 ->
   ~ In (cb_id h1) (map fst (calls (new_events w2 (world_of r))))).
Proof.
  intros Hjson Hkey w2 r.
  assert (Htable : listeners (ws w2) !! k = Some (Plain h2)).
  { subst w2. destruct w as [s v [so li q ic] h tm tr]. unfold exec. simpl.
    apply lookup_insert_eq. }
  pose proof (eventKey_string_not_nullish msg k Hkey) as Hnn.
  assert (Hrun : outcome_of r = Ret tt /\
                 calls (new_events w2 (world_of r)) =
                   (if session_expired msg || carries_bet_steps msg ||
                       negb (JS.truthy (JS.VStr k))
                    then [] else [(cb_id h2, [payload msg])])).
  { subst r. clearbody w2.
    destruct (session_expired msg) eqn:Hexp.
    - rewrite (onmessage_expired ev msg w2 Hjson Hnn Hexp).
      split; [reflexivity|]. unfold world_of. simpl snd.
      erewrite new_events_extend by (destruct w2; reflexivity).
      destruct (window_logoutUser w2) as [hook|]; [|reflexivity].
      destruct (hook _); reflexivity.
    - destruct (carries_bet_steps msg) eqn:Hbet.
      + rewrite (onmessage_bet_steps ev msg w2 Hjson Hnn Hexp Hbet).
        split; [reflexivity|]. unfold world_of. simpl snd.
        erewrite new_events_extend by (destruct w2; reflexivity). reflexivity.
      + rewrite (onmessage_dispatches ev msg w2 Hjson Hnn Hexp Hbet), Hkey.
        unfold handler_for. destruct (JS.truthy (JS.VStr k)); simpl.
        * rewrite Htable, apply_plain. split; [reflexivity|].
          unfold world_of. simpl snd.
          erewrite new_events_extend by (destruct w2; reflexivity).
          destruct (cb_throws h2 (trace w2) [payload msg]); reflexivity.
        * split; [reflexivity|]. apply (f_equal calls (new_events_same w2 w2 eq_refl)). }
  destruct Hrun as [Hret Hcalls].
  split; [exact Htable|]. split; [exact Hret|]. split; [exact Hcalls|].
  intros Hdiff Hin. rewrite Hcalls in Hin.
  destruct (session_expired msg || carries_bet_steps msg || negb (JS.truthy (JS.VStr k)));
    simpl in Hin; [contradiction|].
  destruct Hin as [Heq|[]]. apply Hdiff. symmetry. exact Heq.
Qed.

(** Two handlers for [getbalance], then a balance frame. *)
Lemma later_registration_replaces_earlier_witness :
  let msg := JS.VObj [("operation", JS.VStr "getbalance");
                      ("data", JS.VObj [("balance", JS.VNum 250)])] in
  let w2 := exec (on "getbalance" (Plain (returning 1)) ;;
                  on "getbalance" (Plain (returning 2))) initial_world in
  let r := onmessage (frame_carrying msg) w2 in
  json (frame_carrying msg) = Some msg /\
  eventKey msg = JS.VStr "getbalance" /\
  calls (new_events w2 (world_of r)) = [(2%nat, [JS.VObj [("balance", JS.VNum 250)]])].
Proof.
  intros msg w2 r.
  assert (Hjson : json (frame_carrying msg) = Some msg) by reflexivity.
  assert (Hkey : eventKey msg = JS.VStr "getbalance") by reflexivity.
  destruct (later_registration_replaces_earlier initial_world "getbalance"
              (returning 1) (returning 2) (frame_carrying msg) msg Hjson Hkey)
    as (_ & _ & Hcalls & _).
  split; [exact Hjson|]. split; [exact Hkey|]. exact Hcalls.
Defined.

End HandlerTable.

Section OnceHandlers.

Import WebSocketService.

(** C10.  [once(k, cb)], then two frames with dispatch key [k] that reach
    the dispatch.  The first frame calls [cb].  If that call throws, the
    wrapper never reaches its [off]: it is still the handler of [k], and
    the second frame calls [cb] again.  If the call returns, the key has no
    handler any more and the second frame calls nothing. *)
Theorem once_stays_registered_when_callback_throws
    (w : World) (k : string) (cb : Callback) (ev1 ev2 : MessageEvent) (m1 m2 : JS.value) :
  json ev1 = Some m1 ->
  json ev2 = Some m2 ->
  eventKey m1 = JS.VStr k ->
  eventKey m2 = JS.VStr k ->
  k <> EmptyString ->
  session_expired m1 = false ->
  carries_bet_steps m1 = false ->
  session_expired m2 = false ->
  carries_bet_steps m2 = false ->
  let w1 := exec (once k cb) w in
  let w2 := exec (onmessage ev1) w1 in
  let w3 := exec (onmessage ev2) w2 in
  calls (new_events w1 w2) = [(cb_id cb, [payload m1])] /\
  if cb_throws cb (trace w1) [payload m1]
  then listeners (ws w2) !! k = Some (OnceCallback k cb) /\
       calls (new_events w2 w3) = [(cb_id cb, [payload m2])]
  else listeners (ws w2) !! k = None /\
       calls (new_events w2 w3) = [].
Proof.
  intros Hj1 Hj2 Hk1 Hk2 Hne He1 Hb1 He2 Hb2 w1 w2 w3.
  pose proof (eventKey_string_not_nullish m1 k Hk1) as Hn1.
  pose proof (eventKey_string_not_nullish m2 k Hk2) as Hn2.
  assert (Htruthy : JS.truthy (JS.VStr k) = true).
  { simpl. destruct k; [contradiction Hne; reflexivity | reflexivity]. }
  assert (Htable : listeners (ws w1) !! k = Some (OnceCallback k cb)).
  { subst w1. destruct w as [s v [so li q ic] h tm tr]. unfold exec. simpl.
    apply lookup_insert_eq. }
  assert (Hw2 : w2 = snd (if cb_throws cb (trace w1) [payload m1]
                          then (Ret tt, extended w1 [Call (cb_id cb) [payload m1];
                                          Console Error "Invalid message:" [JS.VStr (text ev1)]])
                          else (Ret tt,
                                extended (with_ws (fun s => assign_listeners
                                                              (delete k (listeners s)) s) w1)
                                  [Call (cb_id cb) [payload m1]]))).
  { subst w2. unfold exec.
    rewrite (onmessage_dispatches ev1 m1 w1 Hj1 Hn1 He1 Hb1), Hk1.
    unfold handler_for. rewrite Htruthy, Htable, apply_once. reflexivity. }
  assert (Hw3 : w3 = snd (match handler_for (JS.VStr k) (listeners (ws w2)) with
                          | Some h =>
                              try_catch (apply_handler h (payload m2))
                                (fun _ => console_error "Invalid message:"
                                            [JS.VStr (text ev2)]) w2
                          | None => (Ret tt, w2)
                          end)).
  { subst w3. unfold exec.
    rewrite (onmessage_dispatches ev2 m2 w2 Hj2 Hn2 He2 Hb2), Hk2. reflexivity. }
  clearbody w3 w2 w1.
  unfold handler_for in Hw3. rewrite Htruthy in Hw3.
  destruct (cb_throws cb (trace w1) [payload m1]) eqn:Hthrow; simpl snd in Hw2.
  - assert (Htable2 : listeners (ws w2) !! k = Some (OnceCallback k cb))
      by (rewrite Hw2; destruct w1; exact Htable).
    rewrite Htable2, apply_once in Hw3.
    split; [|split].
    + rewrite Hw2. erewrite new_events_extend by (destruct w1; reflexivity). reflexivity.
    + exact Htable2.
    + rewrite Hw3.
      destruct (cb_throws cb (trace w2) [payload m2]); simpl snd;
        (erewrite new_events_extend by (destruct w2; reflexivity)); reflexivity.
  - assert (Htable2 : listeners (ws w2) !! k = None).
    { rewrite Hw2. destruct w1 as [s v [so li q ic] h tm tr]. simpl.
      apply lookup_delete_eq. }
    rewrite Htable2 in Hw3. simpl snd in Hw3.
    split; [|split].
    + rewrite Hw2. erewrite new_events_extend by (destruct w1; reflexivity). reflexivity.
    + exact Htable2.
    + rewrite Hw3. apply (f_equal calls (new_events_same w2 w2 eq_refl)).
Qed.

(** A callback that throws the first time: it is called for both frames. *)
Lemma once_stays_registered_when_callback_throws_witness :
  let m1 := JS.VObj [("event", JS.VStr "tick"); ("data", JS.VNum 1)] in
  let m2 := JS.VObj [("event", JS.VStr "tick"); ("data", JS.VNum 2)] in
  let w1 := exec (once "tick" (throwing_once 9)) initial_world in
  let w2 := exec (onmessage (frame_carrying m1)) w1 in
  let w3 := exec (onmessage (frame_carrying m2)) w2 in
  cb_throws (throwing_once 9) (trace w1) [payload m1] = true /\
  calls (new_events w1 w2) = [(9%nat, [JS.VNum 1])] /\
  listeners (ws w2) !! "tick" = Some (OnceCallback "tick" (throwing_once 9)) /\
  calls (new_events w2 w3) = [(9%nat, [JS.VNum 2])].
Proof.
  intros m1 m2 w1 w2 w3.
  assert (Hne : "tick" <> EmptyString) by discriminate.
  pose proof (once_stays_registered_when_callback_throws initial_world "tick"
                (throwing_once 9) (frame_carrying m1) (frame_carrying m2) m1 m2
                eq_refl eq_refl eq_refl eq_refl Hne eq_refl eq_refl eq_refl eq_refl)
    as H.
  cbv zeta in H.
  change (cb_throws (throwing_once 9)
            (trace (exec (once "tick" (throwing_once 9)) initial_world)) [payload m1])
    with true in H.
  destruct H as (Hc1 & Ht & Hc2).
  split; [reflexivity|]. split; [exact Hc1|]. split; [exact Ht | exact Hc2].
Defined.

(** The same two frames with a callback that returns: called once. *)
Example once_fires_once_when_callback_returns :
  let m1 := JS.VObj [("event", JS.VStr "tick"); ("data", JS.VNum 1)] in
  let m2 := JS.VObj [("event", JS.VStr "tick"); ("data", JS.VNum 2)] in
  let w1 := exec (once "tick" (returning 9)) initial_world in
  let w3 := exec (onmessage (frame_carrying m1) ;; onmessage (frame_carrying m2)) w1 in
  calls (new_events w1 w3) = [(9%nat, [JS.VNum 1])].
Proof. vm_compute. reflexivity. Qed.

End OnceHandlers.

Section BetSteps.

Import WebSocketService.

(** The service never writes to the data members of the store: whatever
    the frame, [onmessage] leaves them as they were. *)
Lemma onmessage_keeps_store (ev : MessageEvent) (w : World) :
  store (exec (onmessage ev) w) = store w.
Proof.
  unfold exec, onmessage, try_catch, bind at 1, JSON_parse.
  destruct (json ev) as [msg|]; [|destruct w; reflexivity].
  unfold ret at 1. unfold bind at 1, read.
  destruct (JS.nullish msg); [destruct w; reflexivity|].
  unfold ret at 1.
  destruct (session_expired msg).
  - destruct w as [s v sv [h|] tm tr]; simpl; [|reflexivity].
    unfold bind, console_log, emit, modify, gets, call_logoutUser. simpl.
    unfold bind, console_log, emit, modify, gets. simpl.
    destruct (h _); reflexivity.
  - destruct (carries_bet_steps msg); [destruct w; reflexivity|].
    unfold when. unfold bind at 1. unfold ret at 1. unfold bind at 1. unfold gets at 1.
    destruct (handler_for (eventKey msg) (listeners (ws w))) as [[cb|k cb]|].
    + unfold apply_handler, invoke, bind, gets, emit, modify.
      destruct w as [s v sv h tm tr]; simpl. destruct (cb_throws cb tr _); reflexivity.
    + unfold apply_handler, invoke, bind, gets, emit, modify.
      destruct w as [s v sv h tm tr]; simpl. destruct (cb_throws cb tr _); reflexivity.
    + reflexivity.
Qed.

(** C6, evaluated on the frames it speaks of.  With a handler for [info]
    registered: the frame that carries the amounts under [data] is handed
    to that handler and the store keeps its values; the frame that carries
    them beside [operation] makes the call into the store throw (the store
    has no [setBetSteps]), which is logged as an invalid message, skips
    the handler and changes nothing either. *)
Theorem info_frame_bet_steps_not_stored :
  let w := exec (on "info" (Plain (returning 7))) initial_world in
  let w1 := exec (onmessage info_frame_nested) w in
  let w2 := exec (onmessage info_frame_top_level) w in
  store w1 = store w /\
  calls (new_events w w1) = [(7%nat, [JS.VObj [("mineSweeperAmounts", bet_steps)]])] /\
  store w2 = store w /\
  new_events w w2 = [Console Error "Invalid message:" [JS.VStr (text info_frame_top_level)]].
Proof.
  intros w w1 w2.
  split; [apply onmessage_keeps_store|].
  split; [vm_compute; reflexivity|].
  split; [apply onmessage_keeps_store|].
  vm_compute. reflexivity.
Qed.

End BetSteps.

Section Restoration.

Import Main.

Lemma world_step_bind (m1 m2 : M unit) (F1 F2 : World -> World) (t1 t2 : list string) :
  world_step m1 F1 t1 ->
  world_step m2 F2 t2 ->
  blind F2 ->
  world_step (m1 ;; m2) (fun w => F2 (F1 w)) (t1 ++ t2).
Proof.
  intros H1 H2 Hblind w.
  destruct (H1 w) as (e1 & Hm1 & Ht1).
  destruct (H2 (extended (F1 w) e1)) as (e2 & Hm2 & Ht2).
  exists (e1 ++ e2). split.
  - unfold bind. rewrite Hm1, Hm2, Hblind, extended_extended. reflexivity.
  - rewrite setter_entries_app, Ht1, Ht2. reflexivity.
Qed.

Lemma world_step_bind_as (m1 m2 : M unit) (F1 F2 : World -> World) (t1 t2 t : list string) :
  world_step m1 F1 t1 ->
  world_step m2 F2 t2 ->
  blind F2 ->
  t = t1 ++ t2 ->
  world_step (m1 ;; m2) (fun w => F2 (F1 w)) t.
Proof. intros H1 H2 Hblind ->. apply world_step_bind; assumption. Qed.

Lemma blind_with_store (f : GlobalStateObject -> GlobalStateObject) : blind (with_store f).
Proof. intros [s v sv h tm tr] evs. reflexivity. Qed.

Lemma blind_with_vars (f : ModuleState -> ModuleState) : blind (with_vars f).
Proof. intros [s v sv h tm tr] evs. reflexivity. Qed.

Lemma blind_with_timers (f : list Timer -> list Timer) : blind (with_timers f).
Proof. intros [s v sv h tm tr] evs. reflexivity. Qed.

Lemma blind_compose (F G : World -> World) :
  blind F -> blind G -> blind (fun w => F (G w)).
Proof. intros HF HG w evs. rewrite HG, HF. reflexivity. Qed.

(** A step that does nothing. *)
Lemma world_step_skip (f : GlobalStateObject -> GlobalStateObject) :
  (forall s, f s = s) -> world_step (ret tt) (with_store f) [].
Proof.
  intros Hid [s v sv h tm tr]. exists []. split; [|reflexivity].
  unfold ret, extended, with_store, with_trace. simpl.
  rewrite Hid, app_nil_r. reflexivity.
Qed.

(** A setter that writes one member and logs one line. *)
Lemma setGameMatrix_step (m : list (list string)) :
  world_step (GlobalState.setGameMatrix m) (with_store (GlobalState.assign_game_matrix m))
    ["Game matrix updated"].
Proof. intros [s v sv h tm tr]. eexists. split; reflexivity. Qed.

Lemma setStakeAmount_step (b : Z) :
  world_step (GlobalState.setStakeAmount b) (with_store (GlobalState.assign_stakeAmount b))
    ["Stake amount set to:"].
Proof. intros [s v sv h tm tr]. eexists. split; reflexivity. Qed.

Lemma setRoundId_step (id : nullable_string) :
  world_step (GlobalState.setRoundId id) (with_store (GlobalState.assign_roundId id))
    ["Round ID set:"].
Proof. intros [s v sv h tm tr]. eexists. split; reflexivity. Qed.

Lemma setReward_step (x : Z) :
  world_step (GlobalState.setReward x) (with_store (GlobalState.assign_reward x))
    ["Reward set to:"].
Proof. intros [s v sv h tm tr]. eexists. split; reflexivity. Qed.

Lemma setTimeout_step (t : Task) (ms : Z) :
  world_step (setTimeout t ms)
    (with_timers (fun ts => ts ++ [{| delay := ms; task := t |}])) [].
Proof.
  intros [s v sv h tm tr]. exists []. split; [|reflexivity].
  unfold setTimeout, modify, extended, with_trace, with_timers. simpl.
  rewrite app_nil_r. reflexivity.
Qed.

Lemma setGameStarted_step (flag : bool) :
  world_step (GlobalState.setGameStarted flag)
    (with_vars (GlobalState.assign_gameStarted flag)) ["Game started state changed to:"].
Proof.
  intros w. destruct (setGameStarted_runs flag w) as (evs & Hrun & _ & Hset).
  exists evs. split; assumption.
Qed.

(** [setGridDimensions]: both members are written, one setter line is
    logged, and the grid listeners are fired when a dimension changed. *)
Lemma setGridDimensions_runs (cols rows : JS.jsnum) (w : World) :
  exists evs,
    GlobalState.setGridDimensions cols rows w =
      (Ret tt, extended (with_store (GlobalState.assign_dimensions cols rows) w) evs) /\
    calls evs =
      (if JS.jsnum_neq (total_cols (store w)) cols || JS.jsnum_neq (total_rows (store w)) rows
       then each_once (gridDimensionChangeListeners (vars w)) (map JS.jsnum_value [cols; rows])
       else []) /\
    setter_entries evs = ["Grid dimensions updated (previous)"].
Proof.
  destruct w as [[tk tr_ tc cr gm ba st ri rw ti] v sv h tm tr].
  unfold GlobalState.setGridDimensions.
  set (line := Console Info "Grid dimensions updated (previous)"
                 (map JS.jsnum_value [cols; rows; tc; tr_])).
  set (w0 := {| store := Build_GlobalStateObject tk tr_ tc cr gm ba st ri rw ti;
                vars := v; ws := sv; window_logoutUser := h; timers := tm; trace := tr |}).
  set (w1 := extended (with_store (GlobalState.assign_dimensions cols rows) w0) [line]).
  simpl total_cols. simpl total_rows.
  destruct (JS.jsnum_neq tc cols || JS.jsnum_neq tr_ rows) eqn:Hchanged.
  - set (ls := gridDimensionChangeListeners v).
    destruct (forEach_guarded_fires ls (map JS.jsnum_value [cols; rows])
                "Error in grid dimension change listener:"
                (extended w1 [Console Info "Triggering grid dimension change listeners"
                                [len ls]]))
      as (evs & Hrun & Hcalls & Hall).
    exists ([line] ++ [Console Info "Triggering grid dimension change listeners" [len ls]]
            ++ evs).
    split; [|split].
    + unfold bind, gets, modify, console_log, emit, when, ret. simpl.
      rewrite Hchanged.
      unfold bind, gets, modify, console_log, emit, when, ret. simpl.
      subst w1 w0 ls line. unfold extended in Hrun. simpl in Hrun. simpl.
      unfold with_trace, with_store in Hrun. simpl in Hrun.
      unfold with_trace, with_store. simpl.
      rewrite Hrun. unfold extended, with_trace. simpl.
      rewrite <- !app_assoc. reflexivity.
    + rewrite !calls_app, Hcalls. reflexivity.
    + rewrite !setter_entries_app, (listener_events_no_setter evs Hall). reflexivity.
  - exists [line]. split; [|split; reflexivity].
    unfold bind, gets, modify, console_log, emit, when, ret. simpl.
    rewrite Hchanged. reflexivity.
Qed.

Lemma setGridDimensions_step (cols rows : JS.jsnum) :
  world_step (GlobalState.setGridDimensions cols rows)
    (with_store (GlobalState.assign_dimensions cols rows))
    ["Grid dimensions updated (previous)"].
Proof.
  intros w. destruct (setGridDimensions_runs cols rows w) as (evs & Hrun & _ & Hset).
  exists evs. split; assumption.
Qed.

Lemma world_step_ext (m : M unit) (F G : World -> World) (t : list string) :
  (forall w, F w = G w) -> world_step m F t -> world_step m G t.
Proof.
  intros Hext H w. destruct (H w) as (evs & Hm & Ht).
  exists evs. rewrite <- Hext. split; assumption.
Qed.

(** The guarded parts of [restorePendingGame], one by one. *)
Lemma matrix_step (gd : GameLoadResponse) :
  world_step
    (match res_revealedMatrix gd with
     | Some m => GlobalState.setGameMatrix m
     | None => ret tt
     end)
    (with_store (restored_matrix gd))
    (if matrix_present gd then ["Game matrix updated"] else []).
Proof.
  unfold restored_matrix, matrix_present. destruct (res_revealedMatrix gd) as [m|].
  - apply setGameMatrix_step.
  - apply world_step_skip. reflexivity.
Qed.

Lemma grid_step (gd : GameLoadResponse) :
  world_step
    (match res_gridOption gd with
     | Some g =>
         when (negb (String.eqb g EmptyString))
           (let parts := parse_gridOption g in
            GlobalState.setGridDimensions (at_index parts 0) (at_index parts 1))
     | None => ret tt
     end)
    (with_store (restored_grid gd))
    (if grid_present gd then ["Grid dimensions updated (previous)"] else []).
Proof.
  unfold restored_grid, grid_present. destruct (res_gridOption gd) as [g|].
  - destruct (negb (String.eqb g EmptyString)); simpl when.
    + apply setGridDimensions_step.
    + apply world_step_skip. reflexivity.
  - apply world_step_skip. reflexivity.
Qed.

Lemma stake_step (gd : GameLoadResponse) :
  world_step
    (match res_betAmount gd with
     | Some b => when (negb (Z.eqb b 0)) (GlobalState.setStakeAmount b)
     | None => ret tt
     end)
    (with_store (restored_stake gd))
    (if stake_present gd then ["Stake amount set to:"] else []).
Proof.
  unfold restored_stake, stake_present. destruct (res_betAmount gd) as [b|].
  - destruct (negb (Z.eqb b 0)); simpl when.
    + apply setStakeAmount_step.
    + apply world_step_skip. reflexivity.
  - apply world_step_skip. reflexivity.
Qed.

Lemma row_step (gd : GameLoadResponse) :
  world_step
    (match res_currentRow gd with
     | Some r =>
         rows <- gets (fun w => total_rows (store w)) ;;
         let frontendCurrentRow := JS.jsnum_sub (JS.jsnum_sub rows (JS.Num 1)) (JS.Num r) in
         GlobalState.setCurrentRow frontendCurrentRow
     | None => ret tt
     end)
    (with_store (restored_row gd))
    (if row_present gd then ["Setting current row to:"] else []).
Proof.
  unfold restored_row, row_present. destruct (res_currentRow gd) as [r|].
  - intros [s v sv h tm tr]. eexists. split; reflexivity.
  - apply world_step_skip. reflexivity.
Qed.

(** The reward the code computes is the last element of the list, or zero
    when there is none. *)
Lemma calculatedReward_last (rowRewards : option (list Z)) :
  calculatedReward rowRewards =
  match rowRewards with
  | Some rs => List.last rs 0
  | None => 0
  end.
Proof.
  destruct rowRewards as [rs|]; [|reflexivity]. unfold calculatedReward.
  induction rs as [|x [|y rest] IH]; try reflexivity.
  exact IH.
Qed.

Lemma reward_step (gd : GameLoadResponse) :
  world_step (GlobalState.setReward (calculatedReward (res_rowRewards gd)))
    (with_store (restored_reward gd)) ["Reward set to:"].
Proof.
  unfold restored_reward. rewrite <- calculatedReward_last. apply setReward_step.
Qed.

Ltac blind_tac :=
  repeat first [apply blind_with_store | apply blind_with_vars
               | apply blind_with_timers | apply blind_compose].

(** [restorePendingGame] as a whole: it returns, the world is the restored
    world up to the events added, and the setters ran in the order of the
    specification. *)
Lemma restorePendingGame_step (gd : GameLoadResponse) :
  world_step (restorePendingGame gd) (restored_world gd) (restoration_order gd).
Proof.
  unfold restorePendingGame, restoration_order.
  eapply world_step_ext; [shelve|].
  eapply world_step_bind; [apply matrix_step | | shelve].
  eapply world_step_bind; [apply grid_step | | shelve].
  eapply world_step_bind; [apply stake_step | | shelve].
  eapply world_step_bind; [apply setRoundId_step | | shelve].
  eapply world_step_bind; [apply row_step | | shelve].
  eapply world_step_bind_as; [apply reward_step | | shelve | reflexivity].
  eapply world_step_bind_as;
    [apply setGameStarted_step | apply setTimeout_step | apply blind_with_timers
    | reflexivity].
  Unshelve.
  all: first [solve [blind_tac] | intros [s v sv h tm tr]; reflexivity].
Qed.

End Restoration.

Section GridOption.

(** What [parseInt] reads off a run of decimal digits. *)
Lemma digits_of_uint (d : Decimal.uint) :
  forall acc, JS.digits 10 (Some acc) (NilEmpty.string_of_uint d) = Some (uint_value d acc).
Proof.
  induction d; intros acc; simpl; try reflexivity; apply IHd.
Qed.

Lemma uint_value_acc (d : Decimal.uint) :
  forall p, uint_value d (Zpos p) = Zpos (Pos.of_uint_acc d p).
Proof.
  induction d; intros p; simpl; try reflexivity; rewrite <- IHd; f_equal; lia.
Qed.

Lemma uint_value_of_uint (d : Decimal.uint) : uint_value d 0 = Z.of_N (Pos.of_uint d).
Proof.
  induction d; simpl; try reflexivity; try exact IHd; apply (uint_value_acc d).
Qed.

Lemma lacks_x_uint (d : Decimal.uint) : lacks "x" (NilEmpty.string_of_uint d) = true.
Proof. induction d; simpl; try reflexivity; exact IHd. Qed.

Lemma parseInt_uint (d : Decimal.uint) :
  d <> Decimal.Nil ->
  JS.parseInt (NilEmpty.string_of_uint d) = JS.Num (uint_value d 0).
Proof.
  intros Hd. destruct d; try contradiction; unfold JS.parseInt; simpl;
    try (rewrite digits_of_uint; apply f_equal; rewrite Z.mul_1_l; reflexivity).
  destruct d; simpl; try reflexivity;
    rewrite digits_of_uint; apply f_equal; rewrite Z.mul_1_l; reflexivity.
Qed.

Lemma parseInt_decimal (z : Z) : 0 <= z -> JS.parseInt (JS.decimal z) = JS.Num z.
Proof.
  intros Hz. unfold JS.decimal. destruct z as [|p|p]; [reflexivity| |lia].
  simpl Z.to_int. unfold NilZero.string_of_int, NilZero.string_of_uint.
  pose proof (Unsigned.to_uint_nonnil p) as Hnn.
  destruct (Pos.to_uint p) eqn:E; try contradiction; rewrite <- E in *;
    rewrite parseInt_uint by exact Hnn;
    rewrite uint_value_of_uint, Unsigned.of_to; reflexivity.
Qed.

Lemma lacks_x_decimal (z : Z) : 0 <= z -> lacks "x" (JS.decimal z) = true.
Proof.
  intros Hz. unfold JS.decimal. destruct z as [|p|p]; [reflexivity| |lia].
  simpl Z.to_int. unfold NilZero.string_of_int, NilZero.string_of_uint.
  destruct (Pos.to_uint p) eqn:E; try reflexivity; rewrite <- E; apply lacks_x_uint.
Qed.

Lemma split_lacks (sep : ascii) (s : string) : lacks sep s = true -> JS.split sep s = [s].
Proof.
  induction s as [|c r IH]; simpl; [reflexivity|].
  intros H. apply andb_true_iff in H. destruct H as [Hc Hr].
  apply negb_true_iff in Hc. rewrite Hc, (IH Hr). reflexivity.
Qed.

Lemma split_at_first (sep : ascii) (a b : string) :
  lacks sep a = true -> JS.split sep (a +:+ String sep b) = a :: JS.split sep b.
Proof.
  induction a as [|c r IH]; simpl.
  - intros _. rewrite Ascii.eqb_refl. reflexivity.
  - intros H. apply andb_true_iff in H. destruct H as [Hc Hr].
    apply negb_true_iff in Hc. rewrite Hc, (IH Hr). reflexivity.
Qed.

(** A grid string written as two decimal numbers around an [x] parses
    to these two numbers. *)
Lemma parse_gridOption_decimal (c r : Z) :
  0 <= c -> 0 <= r ->
  Main.parse_gridOption (JS.decimal c +:+ "x" +:+ JS.decimal r) = [JS.Num c; JS.Num r].
Proof.
  intros Hc Hr. unfold Main.parse_gridOption.
  change ("x" +:+ JS.decimal r) with (String "x" (JS.decimal r)).
  rewrite split_at_first by (apply lacks_x_decimal; exact Hc).
  rewrite split_lacks by (apply lacks_x_decimal; exact Hr).
  simpl. rewrite !parseInt_decimal by assumption. reflexivity.
Qed.

Lemma grid_string_not_empty (c r : Z) :
  String.eqb (JS.decimal c +:+ "x" +:+ JS.decimal r) EmptyString = false.
Proof. destruct (JS.decimal c); reflexivity. Qed.

End GridOption.

Section JsonTextOfTheModel.

Lemma append_assoc (a b c : string) : (a +:+ b) +:+ c = a +:+ (b +:+ c).
Proof.
  induction a as [|x a IH]; [reflexivity|].
  change (String x ((a +:+ b) +:+ c) = String x (a +:+ (b +:+ c))).
  f_equal. exact IH.
Qed.

Lemma append_empty (a : string) : a +:+ EmptyString = a.
Proof.
  induction a as [|x a IH]; [reflexivity|].
  change (String x (a +:+ EmptyString) = String x a). f_equal. exact IH.
Qed.

Lemma join_comma_concat (parts : list string) :
  JS.join_comma parts = String.concat "," parts.
Proof.
  destruct parts as [|p ps]; [reflexivity|].
  unfold JS.join_comma. revert p.
  induction ps as [|q ps IH]; intros p.
  - reflexivity.
  - simpl fold_left. rewrite IH.
    change (String.concat "," (p :: q :: ps)) with (p +:+ "," +:+ String.concat "," (q :: ps)).
    destruct ps as [|q' ps].
    + reflexivity.
    + change (String.concat "," ((p +:+ "," +:+ q) :: q' :: ps))
        with ((p +:+ "," +:+ q) +:+ "," +:+ String.concat "," (q' :: ps)).
      change (String.concat "," (q :: q' :: ps))
        with (q +:+ "," +:+ String.concat "," (q' :: ps)).
      rewrite !append_assoc. reflexivity.
Qed.


Lemma more_digits_uint (n : Z) (t : string) (z : Z) :
  JsonText.more_digits n t z ->
  exists u, NilEmpty.string_of_uint u = t /\ uint_value u n = z.
Proof.
  induction 1 as [n|n d c t z Hd _ (u & Ht & Hz)].
  - exists Decimal.Nil. split; reflexivity.
  - destruct Hd;
      [exists (Decimal.D0 u)|exists (Decimal.D1 u)|exists (Decimal.D2 u)|exists (Decimal.D3 u)
      |exists (Decimal.D4 u)|exists (Decimal.D5 u)|exists (Decimal.D6 u)|exists (Decimal.D7 u)
      |exists (Decimal.D8 u)|exists (Decimal.D9 u)];
      (split; [simpl; rewrite Ht; reflexivity | exact Hz]).
Qed.

(** A numeral is the text the model prints for its number, which is
    positive. *)
Lemma numeral_decimal (z : Z) (t : string) :
  JsonText.numeral z t -> exists p, z = Zpos p /\ JS.decimal z = t.
Proof.
  intros [d c t' z' Hd Hpos Hmore].
  destruct (more_digits_uint _ _ _ Hmore) as (u & Ht & Hz).
  assert (Hu : exists v, NilEmpty.string_of_uint v = String c t' /\ uint_value v 0 = z' /\
                         Decimal.unorm v = v /\ v <> Decimal.zero).
  { destruct Hd; try lia;
      [exists (Decimal.D1 u)|exists (Decimal.D2 u)|exists (Decimal.D3 u)
      |exists (Decimal.D4 u)|exists (Decimal.D5 u)|exists (Decimal.D6 u)|exists (Decimal.D7 u)
      |exists (Decimal.D8 u)|exists (Decimal.D9 u)];
      (split; [simpl; rewrite Ht; reflexivity|];
       split; [exact Hz|]; split; [reflexivity | discriminate]). }
  destruct Hu as (v & Hv & Hval & Hnorm & Hnz).
  rewrite uint_value_of_uint in Hval.
  pose proof (Unsigned.to_of v) as Hto. rewrite Hnorm in Hto.
  destruct (Pos.of_uint v) as [|p] eqn:Hp.
  - simpl in Hto. congruence.
  - exists p. split; [symmetry; exact Hval|].
    rewrite <- Hval. unfold JS.decimal. simpl Z.to_int. simpl in Hto. rewrite Hto.
    unfold NilZero.string_of_int, NilZero.string_of_uint.
    rewrite <- Hv. destruct v; try reflexivity. simpl in Hv. discriminate.
Qed.

Lemma integer_decimal (z : Z) (t : string) : JsonText.integer z t -> JS.decimal z = t.
Proof.
  intros [|z' t' H|z' t' H].
  - reflexivity.
  - destruct (numeral_decimal _ _ H) as (p & _ & Ht). exact Ht.
  - destruct (numeral_decimal _ _ H) as (p & -> & Ht).
    unfold JS.decimal in *. simpl Z.to_int in *.
    unfold NilZero.string_of_int in *. rewrite Ht. reflexivity.
Qed.

Lemma hex_digit_of (n : N) (c : ascii) : JsonText.hex n c -> c = JS.hex_digit n.
Proof. destruct 1; reflexivity. Qed.

Lemma written_escape_char (c : ascii) (e : string) :
  JsonText.written c e -> JS.escape_char c = e.
Proof.
  intros [c' e' Hletter|c' hi lo h l Hlt Hno Hcode Hh Hl|c' Hge Hq Hb].
  - destruct Hletter; reflexivity.
  - assert (Hlo : (lo < 16)%N) by (destruct Hl; lia).
    rewrite (hex_digit_of _ _ Hh), (hex_digit_of _ _ Hl).
    assert (Hhi' : hi = (N_of_ascii c' / 16)%N)
      by (rewrite Hcode; apply (N.div_unique _ 16 hi lo); [exact Hlo | reflexivity]).
    assert (Hlo' : lo = (N_of_ascii c' mod 16)%N)
      by (rewrite Hcode; apply (N.mod_unique _ 16 hi lo); [exact Hlo | reflexivity]).
    rewrite Hhi', Hlo'. clear - Hlt Hno.
    destruct c' as [[] [] [] [] [] [] [] []];
      try (vm_compute in Hlt; discriminate Hlt);
      try reflexivity;
      exfalso; eapply Hno; constructor.
  - destruct c' as [[] [] [] [] [] [] [] []];
      try reflexivity;
      try (exfalso; apply Hq; reflexivity);
      try (exfalso; apply Hb; reflexivity);
      exfalso; apply Hge; reflexivity.
Qed.

Lemma inside_quotes_escape (s t : string) : JsonText.inside_quotes s t -> JS.escape s = t.
Proof.
  induction 1 as [|c s e t Hc _ IH].
  - reflexivity.
  - simpl. rewrite (written_escape_char _ _ Hc), IH. reflexivity.
Qed.

Lemma quoted_quote (s t : string) : JsonText.quoted s t -> JS.quote s = t.
Proof.
  intros [s' t' H]. unfold JS.quote. rewrite (inside_quotes_escape _ _ H). reflexivity.
Qed.

(** The model's [JSON.stringify] returns the JSON text of a value that
    has one. *)
Lemma stringify_text (d : JS.value) (t : string) :
  JsonText.text d t -> JS.stringify d = Some t.
Proof.
  intros H.
  induction H using JsonText.text_mut with
    (P0 := fun items parts _ =>
             map (fun x => default "null" (JS.stringify x)) items = parts)
    (P1 := fun fields parts _ =>
             concat (map (fun kv : string * JS.value =>
                            match JS.stringify (snd kv) with
                            | Some t => [JS.quote (fst kv) +:+ ":" +:+ t]
                            | None => []
                            end) fields) = parts);
    try reflexivity.
  - simpl. rewrite (integer_decimal _ _ i). reflexivity.
  - simpl. rewrite (quoted_quote _ _ q). reflexivity.
  - simpl. simpl in IHtext. rewrite IHtext, join_comma_concat. reflexivity.
  - simpl. simpl in IHtext. rewrite IHtext, join_comma_concat. reflexivity.
  - simpl. simpl in IHtext. rewrite IHtext. reflexivity.
  - simpl. simpl in IHtext, IHtext0. rewrite IHtext, IHtext0. reflexivity.
  - simpl. simpl in IHtext. rewrite IHtext. reflexivity.
  - simpl. simpl in IHtext, IHtext0. rewrite IHtext, IHtext0, (quoted_quote _ _ q). reflexivity.
Qed.


Lemma uint_more_digits (u : Decimal.uint) :
  forall n, JsonText.more_digits n (NilEmpty.string_of_uint u) (uint_value u n).
Proof.
  induction u; intros n; simpl;
    try (eapply JsonText.more_digits_one; [constructor | apply IHu]).
  constructor.
Qed.

Lemma decimal_numeral (p : positive) : JsonText.numeral (Zpos p) (JS.decimal (Zpos p)).
Proof.
  unfold JS.decimal. simpl Z.to_int.
  unfold NilZero.string_of_int, NilZero.string_of_uint.
  assert (Hval : uint_value (Pos.to_uint p) 0 = Zpos p)
    by (rewrite uint_value_of_uint, Unsigned.of_to; reflexivity).
  assert (Hnorm : Decimal.unorm (Pos.to_uint p) = Pos.to_uint p).
  { rewrite <- (Unsigned.to_of (Pos.to_uint p)), Unsigned.of_to. reflexivity. }
  pose proof (Unsigned.to_uint_nonzero p) as Hnz.
  rewrite <- Hval at 1.
  destruct (Pos.to_uint p) as [|u|u|u|u|u|u|u|u|u|u]; simpl;
    try (eapply JsonText.numeral_digits; [constructor | lia | apply uint_more_digits]).
  - discriminate Hnorm.
  - exfalso. unfold Decimal.unorm in Hnorm. simpl in Hnorm.
    destruct (Decimal.nzhead u) eqn:Hhead; try discriminate Hnorm.
    + injection Hnorm as Hn. subst u. apply Hnz. reflexivity.
    + exact (DecimalFacts.nzhead_nonzero _ _ Hhead).
Qed.

Lemma decimal_integer (z : Z) : JsonText.integer z (JS.decimal z).
Proof.
  destruct z as [|p|p].
  - constructor.
  - apply JsonText.integer_positive, decimal_numeral.
  - change (Zneg p) with (- Zpos p).
    replace (JS.decimal (- Zpos p)) with (String "-" (JS.decimal (Zpos p))).
    + apply JsonText.integer_negative, decimal_numeral.
    + reflexivity.
Qed.


Lemma escape_char_written (c : ascii) : JsonText.written c (JS.escape_char c).
Proof.
  destruct c as [[] [] [] [] [] [] [] []];
    first
      [ apply JsonText.written_letter; constructor
      | apply JsonText.written_plain;
        [intros H; vm_compute in H; discriminate H | discriminate | discriminate]
      | match goal with
        | |- JsonText.written ?c _ =>
            apply (JsonText.written_code c (N_of_ascii c / 16) (N_of_ascii c mod 16));
            [ reflexivity
            | intros e H; inversion H
            | reflexivity
            | vm_compute; constructor
            | vm_compute; constructor ]
        end ].
Qed.

Lemma escape_inside_quotes (s : string) : JsonText.inside_quotes s (JS.escape s).
Proof.
  induction s as [|c s IH]; simpl.
  - constructor.
  - constructor; [apply escape_char_written | exact IH].
Qed.

Lemma quote_quoted (s : string) : JsonText.quoted s (JS.quote s).
Proof.
  unfold JS.quote.
  change (JS.dquote +:+ JS.escape s +:+ JS.dquote)
    with (String "034" (JS.escape s +:+ String "034" EmptyString)).
  constructor. apply escape_inside_quotes.
Qed.

(** Every value of the model whose numbers are safe integers has the JSON
    text the model's [JSON.stringify] returns for it. *)
Lemma text_stringify :
  forall d, JsonText.safe d = true ->
  forall t, JS.stringify d = Some t -> JsonText.text d t.
Proof.
  fix IH 1. intros d Hsafe t Ht.
  destruct d as [| |b|z| |s|items|fields].
  - discriminate Ht.
  - injection Ht as <-. constructor.
  - destruct b; injection Ht as <-; constructor.
  - injection Ht as <-. simpl in Hsafe. apply andb_true_iff in Hsafe.
    destruct Hsafe as [Hlo Hhi]. apply Z.leb_le in Hlo, Hhi.
    constructor; [split; assumption | apply decimal_integer].
  - injection Ht as <-. constructor.
  - injection Ht as <-. constructor. apply quote_quoted.
  - simpl in Ht. injection Ht as <-. rewrite join_comma_concat. constructor.
    simpl in Hsafe. revert Hsafe. clear - IH.
    induction items as [|x items IHitems]; intros Hsafe; simpl.
    + constructor.
    + simpl in Hsafe. apply andb_true_iff in Hsafe. destruct Hsafe as [Hx Hrest].
      destruct (JS.stringify x) as [tx|] eqn:Hx'.
      * apply JsonText.elements_value; [apply IH; assumption | apply IHitems; exact Hrest].
      * assert (x = JS.VUndefined) as -> by (destruct x as [| |[]| | | | |]; simpl in Hx'; congruence).
        apply JsonText.elements_undefined. apply IHitems; exact Hrest.
  - simpl in Ht. injection Ht as <-. rewrite join_comma_concat. constructor.
    simpl in Hsafe. revert Hsafe. clear - IH.
    induction fields as [|[k x] fields IHfields]; intros Hsafe; simpl.
    + constructor.
    + simpl in Hsafe. apply andb_true_iff in Hsafe. destruct Hsafe as [Hx Hrest].
      destruct (JS.stringify x) as [tx|] eqn:Hx'.
      * apply JsonText.members_value;
          [apply quote_quoted | apply IH; assumption | apply IHfields; exact Hrest].
      * assert (x = JS.VUndefined) as -> by (destruct x as [| |[]| | | | |]; simpl in Hx'; congruence).
        apply JsonText.members_undefined. apply IHfields; exact Hrest.
Qed.

End JsonTextOfTheModel.

Section WireFormat.

Import WebSocketService.

Lemma stringify_defined (d : JS.value) :
  d <> JS.VUndefined -> exists t, JS.stringify d = Some t.
Proof.
  intros Hd. destruct d as [| |[]| | | | |]; simpl; eauto. contradiction.
Qed.

(** C9.  On an open connection (the service is connected and its socket is
    in the ready state [OPEN]) [send(event, data)] returns and puts
    exactly one frame on the wire, whatever [data] is.  When [data] has a
    JSON text, that text is the frame, character for character, and every
    value other than [undefined] has one.  Nothing of what the call does
    depends on [event]: two calls that differ only in the event key have
    the same result and leave the same world, so the frames are the
    same. *)
Theorem send_frame_ignores_event (w : World) (e1 e2 : string) (d : JS.value) :
  isConnected (ws w) = true ->
  socket (ws w) = Some OPEN ->
  (exists frame, send e1 d w = (Ret tt, extended w [Transmit frame])) /\
  (forall t, JsonText.text d t ->
     send e1 d w = (Ret tt, extended w [Transmit t]) /\
     transmissions (new_events w (exec (send e1 d) w)) = [t]) /\
  (JsonText.safe d = true -> d <> JS.VUndefined -> exists t, JsonText.text d t) /\
  send e1 d w = send e2 d w.
Proof.
  intros Hflag Hsocket.
  assert (Hopen : is_open (ws w) = true) by (unfold is_open; rewrite Hflag, Hsocket; reflexivity).
  split; [|split; [|split]].
  - eexists. apply (send_when_open e1 d w Hopen).
  - intros t Ht. apply stringify_text in Ht.
    assert (Hsend : send e1 d w = (Ret tt, extended w [Transmit t]))
      by (rewrite (send_when_open e1 d w Hopen), Ht; reflexivity).
    split; [exact Hsend|].
    unfold exec. rewrite Hsend.
    rewrite (new_events_extend w _ [Transmit t]) by (destruct w; reflexivity).
    reflexivity.
  - intros Hsafe Hd. destruct (stringify_defined d Hd) as (t & Ht).
    exists t. apply text_stringify; assumption.
  - rewrite (send_when_open e1 d w Hopen), (send_when_open e2 d w Hopen). reflexivity.
Qed.

(** The request of [checkForPendingGames] on an open service, as
    [socket_opens] leaves a fresh one, with its frame spelled out; the
    double quote is the character of code 34. *)
Lemma send_frame_ignores_event_witness :
  let w := exec (socket_opens 0) initial_world in
  let d := JS.VObj [("operation", JS.VStr "minesweeper_game_load");
                    ("data", JS.VObj [("tableId", JS.VStr "STGMS101");
                                      ("stake", JS.VNum 25);
                                      ("cells", JS.VArr [JS.VNum (-12); JS.VUndefined;
                                                         JS.VBool true; JS.VNull]);
                                      ("note", JS.VUndefined)])] in
  let q := String "034" EmptyString in
  let frame :=
    "{" +:+ q +:+ "operation" +:+ q +:+ ":" +:+ q +:+ "minesweeper_game_load" +:+ q +:+
    "," +:+ q +:+ "data" +:+ q +:+ ":{" +:+
      q +:+ "tableId" +:+ q +:+ ":" +:+ q +:+ "STGMS101" +:+ q +:+
      "," +:+ q +:+ "stake" +:+ q +:+ ":25" +:+
      "," +:+ q +:+ "cells" +:+ q +:+ ":[-12,null,true,null]" +:+
    "}}" in
  isConnected (ws w) = true /\
  socket (ws w) = Some OPEN /\
  transmissions (new_events w (exec (send "minesweeper_game_load" d) w)) = [frame] /\
  send "minesweeper_game_load" d w = send "another key" d w.
Proof.
  intros w d q frame.
  assert (Hflag : isConnected (ws w) = true) by reflexivity.
  assert (Hsocket : socket (ws w) = Some OPEN) by reflexivity.
  assert (Htext : JsonText.text d frame)
    by (apply text_stringify; [reflexivity | vm_compute; reflexivity]).
  destruct (send_frame_ignores_event w "minesweeper_game_load" "another key" d Hflag Hsocket)
    as (_ & Hframe & _ & Heq).
  destruct (Hframe frame Htext) as [_ Htx].
  repeat split; assumption.
Defined.

End WireFormat.

Section RestoreOrder.

Import Main.

(** C3, as the specification states it, fails for the stake: a response
    that carries a stake of zero leaves the stake of the store (1 on a
    fresh page) as it was. *)
Lemma restore_ignores_zero_stake :
  ~ stake_applied_when_present zero_stake_round initial_world.
Proof.
  intros H. specialize (H 0 eq_refl). vm_compute in H. discriminate H.
Qed.

(** C3, amended.  [restorePendingGame] returns, and what it did to the
    store is what the specification lists, applied in its order: the game
    matrix if the response has one, the grid dimensions parsed from the
    grid string if it has one that is not empty (columns before the [x],
    rows after it), the stake if it has one that is not zero, the round id
    in every case, the current row if the response reports one, the
    reward, and last the game-started flag, set to true; after that the
    restore signal is scheduled.  The stored row is
    [totalRows - 1 - reported row] for the total rows the store holds at
    that point, and the reward is the last element of the reward list, or
    zero when the list is empty or absent. *)
Theorem restorePendingGame_applies_in_order (gd : GameLoadResponse) (w : World) :
  let r := restorePendingGame gd w in
  let w' := world_of r in
  outcome_of r = Ret tt /\
  setter_entries (new_events w w') = restoration_order gd /\
  store w' = restored_store gd (store w) /\
  roundId (store w') = res_roundId gd /\
  gameStarted (vars w') = true /\
  timers w' = timers w ++ [{| delay := 500; task := TriggerPendingGameRestoreTask |}] /\
  (forall c r,
      0 <= c -> 0 <= r ->
      res_gridOption gd = Some (JS.decimal c +:+ "x" +:+ JS.decimal r) ->
      total_cols (store w') = JS.Num c /\ total_rows (store w') = JS.Num r) /\
  (forall row n,
      res_currentRow gd = Some row -> total_rows (store w') = JS.Num n ->
      current_row (store w') = JS.Num (n - 1 - row)) /\
  (forall rs x, res_rowRewards gd = Some (rs ++ [x]) -> reward (store w') = x) /\
  (res_rowRewards gd = Some [] \/ res_rowRewards gd = None -> reward (store w') = 0).
Proof.
  intros r w'.
  destruct (restorePendingGame_step gd w) as (evs & Hrun & Hset).
  assert (Hw' : w' = extended (restored_world gd w) evs) by (subst w' r; rewrite Hrun; reflexivity).
  assert (Hstore : store w' = restored_store gd (store w))
    by (rewrite Hw'; destruct w; reflexivity).
  split; [subst r; rewrite Hrun; reflexivity|].
  split; [rewrite Hw', (new_events_extend w _ evs) by (destruct w; reflexivity); exact Hset|].
  split; [exact Hstore|].
  split; [rewrite Hstore; unfold restored_store, restored_reward, restored_row;
          destruct (res_currentRow gd); reflexivity|].
  split; [rewrite Hw'; destruct w; reflexivity|].
  split; [rewrite Hw'; destruct w; reflexivity|].
  rewrite Hstore. clear. unfold restored_store, restored_reward.
  split; [|split; [|split]].
  - intros c r Hc Hr Hgrid. unfold restored_row, restored_round, restored_stake, restored_grid.
    rewrite Hgrid, grid_string_not_empty, (parse_gridOption_decimal c r Hc Hr).
    destruct (res_currentRow gd); destruct (res_betAmount gd) as [b|];
      try destruct (negb (Z.eqb b 0)); split; reflexivity.
  - intros row n Hrow Hn. unfold restored_row in *. rewrite Hrow in *. simpl in *.
    rewrite Hn. simpl. reflexivity.
  - intros rs x Hrs. rewrite Hrs. simpl. apply List.last_last.
  - intros [Hrs|Hrs]; rewrite Hrs; reflexivity.
Qed.

(** The examples of the specification.  The response of a round seen at
    row 2, on the store of a fresh page (six rows): row [6 - 1 - 2 = 3],
    reward 35, every setter in order. *)
Example restore_row_inversion_and_reward :
  let w' := exec (restorePendingGame pending_round) initial_world in
  total_rows (store w') = JS.Num 6 /\
  total_cols (store w') = JS.Num 5 /\
  current_row (store w') = JS.Num 3 /\
  reward (store w') = 35 /\
  stakeAmount (store w') = 25 /\
  roundId (store w') = SStr "R-17" /\
  gameStarted (vars w') = true /\
  setter_entries (trace w') =
    ["Game matrix updated"; "Grid dimensions updated (previous)"; "Stake amount set to:";
     "Round ID set:"; "Setting current row to:"; "Reward set to:";
     "Game started state changed to:"].
Proof. vm_compute. repeat split. Qed.

(** What the guards take as absent: a stake of zero and an empty grid
    string are skipped, like a member that is not there. *)
Example restore_skips_zero_stake_and_empty_grid :
  let gd := {| res_status := Some "200 OK"; res_hasExistingGame := Some true;
               res_roundId := SStr "R-18"; res_currentRow := None;
               res_gridOption := Some EmptyString; res_betAmount := Some 0;
               res_revealedMatrix := None; res_rowRewards := Some [];
               res_gameOver := None |} in
  let w' := exec (restorePendingGame gd) initial_world in
  stakeAmount (store w') = 1 /\
  reward (store w') = 0 /\
  current_row (store w') = JS.Num 5 /\
  setter_entries (trace w') =
    ["Round ID set:"; "Reward set to:"; "Game started state changed to:"].
Proof. vm_compute. repeat split. Qed.

(** The row is inverted against the rows of the grid just restored. *)
Example restore_uses_new_grid_rows :
  let gd := {| res_status := Some "200 OK"; res_hasExistingGame := Some true;
               res_roundId := SStr "R-19"; res_currentRow := Some 2;
               res_gridOption := Some "4x8"; res_betAmount := None;
               res_revealedMatrix := None; res_rowRewards := None;
               res_gameOver := None |} in
  let w' := exec (restorePendingGame gd) initial_world in
  total_rows (store w') = JS.Num 8 /\ current_row (store w') = JS.Num 5.
Proof. vm_compute. repeat split. Qed.

End RestoreOrder.

Section Classification.

Import Main.

Lemma totalRows_is_number (w : World) : exists n, totalRows w = JS.Num n.
Proof.
  unfold totalRows. destruct (total_rows (store w)) as [z| |]; simpl.
  - destruct (negb (Z.eqb z 0)); eauto.
  - eauto.
  - eauto.
Qed.

(** The completion test of the handler, in the words of the
    specification: the row it compares (the reported one, zero when none
    is reported) has reached [totalRows - 1], or the response says
    [gameOver: true]. *)
Lemma isGameCompleted_spec (res : GameLoadResponse) (w : World) (n : Z) :
  totalRows w = JS.Num n ->
  isGameCompleted res w = true <-> (n - 1 <= reported_row res \/ res_gameOver res = Some true).
Proof.
  intros Hn. unfold isGameCompleted, backendCurrentRow, reported_row. rewrite Hn.
  rewrite orb_true_iff.
  assert (Hover : match res_gameOver res with Some true => true | _ => false end = true
                  <-> res_gameOver res = Some true).
  { destruct (res_gameOver res) as [[|]|]; split; congruence. }
  rewrite Hover.
  destruct (res_currentRow res) as [row|]; simpl; rewrite Z.leb_le; reflexivity.
Qed.

Lemma isGameCompleted_extended (res : GameLoadResponse) (w : World) (evs : list Event) :
  isGameCompleted res (extended w evs) = isGameCompleted res w.
Proof. destruct w; reflexivity. Qed.

(** The handler on a [200 OK] response that reports an existing game. *)
Lemma on_minesweeper_game_load_existing (res : GameLoadResponse) (w : World) :
  res_status res = Some "200 OK" ->
  res_hasExistingGame res = Some true ->
  on_minesweeper_game_load res w =
    if isGameCompleted res w || negb (hasValidRoundId res)
    then (Ret false,
          extended w
            [Console Info "Pending game check response:" [response_value res];
             Console Info "Existing game found - checking if it is truly active..." [];
             Console Info "Game appears to be completed or invalid - starting fresh" []])
    else (restorePendingGame res ;; ret true)
           (extended w
              [Console Info "Pending game check response:" [response_value res];
               Console Info "Existing game found - checking if it is truly active..." [];
               Console Info "Game is truly active - proceeding with restoration..." []]).
Proof.
  intros Hstatus Hgame. unfold on_minesweeper_game_load.
  rewrite Hstatus, Hgame. cbv iota beta.
  unfold bind at 1. unfold console_log at 1, emit, modify.
  unfold bind at 1. unfold console_log at 1, emit, modify.
  unfold bind at 1. unfold gets at 1.
  change (with_trace
            (fun t => t ++ [Console Info
                              "Existing game found - checking if it is truly active..." []])
            (with_trace
               (fun t => t ++ [Console Info "Pending game check response:"
                                 [response_value res]]) w))
    with (extended (extended w [Console Info "Pending game check response:"
                                  [response_value res]])
            [Console Info "Existing game found - checking if it is truly active..." []]).
  rewrite !isGameCompleted_extended.
  destruct (isGameCompleted res w || negb (hasValidRoundId res)).
  - unfold bind, console_log, emit, modify, ret.
    destruct w; unfold extended, with_trace; simpl. rewrite <- !app_assoc. reflexivity.
  - unfold bind at 1. unfold console_log at 1, emit, modify.
    f_equal. destruct w; unfold extended, with_trace; simpl. rewrite <- !app_assoc. reflexivity.
Qed.

(** The round id test of the handler, in the words of the
    specification: the response carries a round id, and it is a string
    that is not empty. *)
Lemma hasValidRoundId_spec (res : GameLoadResponse) :
  hasValidRoundId res = true <->
  exists id, res_roundId res = SStr id /\ id <> EmptyString.
Proof.
  unfold hasValidRoundId. destruct (res_roundId res) as [| |s].
  - split; [discriminate | intros (id & H & _); discriminate].
  - split; [discriminate | intros (id & H & _); discriminate].
  - rewrite negb_true_iff. split.
    + intros H. exists s. split; [reflexivity|].
      intros ->. simpl in H. discriminate.
    + intros (id & [= <-] & Hne). apply String.eqb_neq. exact Hne.
Qed.

(** The rows the handler compares against: the total rows of the store,
    six when the store holds zero or no number. *)
Lemma totalRows_of_store (w : World) :
  totalRows w =
    JS.Num match total_rows (store w) with
           | JS.Num z => if Z.eqb z 0 then 6 else z
           | _ => 6
           end.
Proof.
  unfold totalRows. destruct (total_rows (store w)) as [z| |]; simpl; try reflexivity.
  destruct (Z.eqb z 0); reflexivity.
Qed.

(** C4, as the specification states it, fails for a store without rows:
    with [total_rows] zero every reported row has reached
    [total rows - 1], and yet the round reported at row 2 with a round id
    is restored, because the handler compares against six rows then. *)
Lemma zero_stored_rows_round_is_restored :
  ~ exhausted_by_stored_rows pending_round
      (exec (GlobalState.setGridDimensions (JS.Num 5) (JS.Num 0)) initial_world).
Proof.
  intros H. specialize (H 0 2 eq_refl eq_refl). vm_compute in H.
  specialize (H ltac:(discriminate)). discriminate H.
Qed.

(** C4, amended.  A [200 OK] response with [hasExistingGame] true.  The
    handler always answers.  The rows it compares against are the total
    rows of the store, or six when the store holds zero or no number; the
    row it compares is the reported one, or zero when none is reported.
    It answers "no pending game" whenever that row has reached
    [rows - 1] or [gameOver] is true, whatever the round id; it restores
    (and answers "pending game") exactly when the round id is a string
    that is not empty and the round is not exhausted.  When it answers "no
    pending game" the store is untouched; when it restores, the store is
    the restored one and the game is started. *)
Theorem exhausted_round_is_not_restored (res : GameLoadResponse) (w : World) :
  res_status res = Some "200 OK" ->
  res_hasExistingGame res = Some true ->
  let r := on_minesweeper_game_load res w in
  let rows := match total_rows (store w) with
              | JS.Num z => if Z.eqb z 0 then 6 else z
              | _ => 6
              end in
  let row := match res_currentRow res with
             | Some reported => reported
             | None => 0
             end in
  let exhausted := rows - 1 <= row \/ res_gameOver res = Some true in
  let named := exists id, res_roundId res = SStr id /\ id <> EmptyString in
  (exhausted -> outcome_of r = Ret false) /\
  (outcome_of r = Ret true <-> named /\ ~ exhausted) /\
  (outcome_of r = Ret false <-> ~ named \/ exhausted) /\
  (outcome_of r = Ret false ->
   store (world_of r) = store w /\ vars (world_of r) = vars w /\
   timers (world_of r) = timers w) /\
  (outcome_of r = Ret true ->
   store (world_of r) = restored_store res (store w) /\
   gameStarted (vars (world_of r)) = true).
Proof.
  intros Hstatus Hgame r rows row exhausted named.
  pose proof (isGameCompleted_spec res w rows (totalRows_of_store w)) as Hspec.
  change (reported_row res) with row in Hspec. fold exhausted in Hspec.
  pose proof (hasValidRoundId_spec res) as Hid. fold named in Hid.
  subst r. rewrite (on_minesweeper_game_load_existing res w Hstatus Hgame).
  destruct (isGameCompleted res w) eqn:Hdone; simpl orb.
  - assert (Hex : exhausted) by (apply Hspec; reflexivity).
    unfold outcome_of, world_of. simpl fst. simpl snd.
    split; [intros _; reflexivity|].
    split; [split; [discriminate | intros [_ Hno]; contradiction]|].
    split; [split; [intros _; right; exact Hex | reflexivity]|].
    split; [intros _; destruct w; repeat split | discriminate].
  - assert (Hnex : ~ exhausted) by (intros Hex; apply Hspec in Hex; discriminate).
    destruct (hasValidRoundId res) eqn:Hvalid; simpl negb; cbv iota.
    + assert (Hnamed : named) by (apply Hid; reflexivity).
      set (w0 := extended w _).
      destruct (restorePendingGame_step res w0) as (evs & Hrun & _).
      unfold bind. rewrite Hrun. unfold ret, outcome_of, world_of. simpl fst. simpl snd.
      split; [intros Hex; contradiction|].
      split; [split; [intros _; split; [exact Hnamed | exact Hnex] | reflexivity]|].
      split; [split; [discriminate | intros [H|H]; contradiction]|].
      split; [discriminate|].
      intros _. subst w0. destruct w; repeat split.
    + assert (Hanon : ~ named) by (intros H; apply Hid in H; discriminate).
      unfold outcome_of, world_of. simpl fst. simpl snd.
      split; [intros _; reflexivity|].
      split; [split; [discriminate | intros [H _]; contradiction]|].
      split; [split; [intros _; left; exact Hanon | reflexivity]|].
      split; [intros _; destruct w; repeat split | discriminate].
Qed.

(** The first example of the specification: six rows, the round reported
    at row 5 with the round id [R-17]. *)
Lemma exhausted_round_is_not_restored_witness :
  let res := with_row_and_flag 5 false pending_round in
  let r := on_minesweeper_game_load res initial_world in
  res_status res = Some "200 OK" /\
  res_hasExistingGame res = Some true /\
  total_rows (store initial_world) = JS.Num 6 /\
  res_currentRow res = Some 5 /\
  res_roundId res = SStr "R-17" /\
  outcome_of r = Ret false /\
  store (world_of r) = store initial_world.
Proof.
  intros res r.
  assert (Hstatus : res_status res = Some "200 OK") by reflexivity.
  assert (Hgame : res_hasExistingGame res = Some true) by reflexivity.
  destruct (exhausted_round_is_not_restored res initial_world Hstatus Hgame)
    as (Hex & _ & _ & Hkeep & _).
  assert (Hout : outcome_of r = Ret false).
  { apply Hex. left. vm_compute. discriminate. }
  split; [exact Hstatus|]. split; [exact Hgame|]. split; [reflexivity|].
  split; [reflexivity|]. split; [reflexivity|]. split; [exact Hout|].
  apply (Hkeep Hout).
Defined.

(** The second example: row 3 of six, with the game-over flag. *)
Example game_over_round_is_not_restored :
  outcome_of (on_minesweeper_game_load (with_row_and_flag 3 true pending_round)
                initial_world) = Ret false.
Proof. vm_compute. reflexivity. Qed.

(** And the round that is restored: row 2 of six, no flag. *)
Example active_round_is_restored :
  let r := on_minesweeper_game_load pending_round initial_world in
  outcome_of r = Ret true /\ current_row (store (world_of r)) = JS.Num 3 /\
  roundId (store (world_of r)) = SStr "R-17".
Proof. vm_compute. repeat split. Qed.

End Classification.

(** * Further properties of the store *)

Section StoreNotifications.

Lemma register_balance (cbs : list Callback) :
  forall w, exists evs,
    register_all GlobalState.addBalanceChangeListener cbs w =
      (Ret tt, extended (with_vars (GlobalState.update_balanceChangeListeners
                                      (fun ls => ls ++ cbs)) w) evs) /\
    calls evs = [].
Proof.
  induction cbs as [|cb rest IH]; intros w.
  - exists []. split; [|reflexivity].
    destruct w as [s [g l1 l2 l3 l4 l5 l6] sv h tm tr]. simpl.
    unfold ret, extended, with_trace, with_vars, GlobalState.update_balanceChangeListeners.
    simpl. rewrite !app_nil_r. reflexivity.
  - simpl register_all. unfold bind at 1.
    assert (Hadd : exists e1,
               GlobalState.addBalanceChangeListener cb w =
                 (Ret tt, extended (with_vars (GlobalState.update_balanceChangeListeners
                                                 (fun ls => ls ++ [cb])) w) e1) /\
               calls e1 = []).
    { eexists. split; [destruct w; reflexivity | reflexivity]. }
    destruct Hadd as (e1 & -> & Hc1).
    destruct (IH (extended (with_vars (GlobalState.update_balanceChangeListeners
                                         (fun ls => ls ++ [cb])) w) e1))
      as (e2 & -> & Hc2).
    exists (e1 ++ e2). split.
    + destruct w as [s [g l1 l2 l3 l4 l5 l6] sv h tm tr].
      unfold extended, with_trace, with_vars, GlobalState.update_balanceChangeListeners.
      simpl. rewrite <- !app_assoc. reflexivity.
    + rewrite calls_app, Hc1, Hc2. reflexivity.
Qed.

Lemma register_grid (cbs : list Callback) :
  forall w, exists evs,
    register_all GlobalState.addGridDimensionChangeListener cbs w =
      (Ret tt, extended (with_vars (GlobalState.update_gridDimensionChangeListeners
                                      (fun ls => ls ++ cbs)) w) evs) /\
    calls evs = [].
Proof.
  induction cbs as [|cb rest IH]; intros w.
  - exists []. split; [|reflexivity].
    destruct w as [s [g l1 l2 l3 l4 l5 l6] sv h tm tr]. simpl.
    unfold ret, extended, with_trace, with_vars, GlobalState.update_gridDimensionChangeListeners.
    simpl. rewrite !app_nil_r. reflexivity.
  - simpl register_all. unfold bind at 1.
    assert (Hadd : exists e1,
               GlobalState.addGridDimensionChangeListener cb w =
                 (Ret tt, extended (with_vars (GlobalState.update_gridDimensionChangeListeners
                                                 (fun ls => ls ++ [cb])) w) e1) /\
               calls e1 = []).
    { eexists. split; [destruct w; reflexivity | reflexivity]. }
    destruct Hadd as (e1 & -> & Hc1).
    destruct (IH (extended (with_vars (GlobalState.update_gridDimensionChangeListeners
                                         (fun ls => ls ++ [cb])) w) e1))
      as (e2 & -> & Hc2).
    exists (e1 ++ e2). split.
    + destruct w as [s [g l1 l2 l3 l4 l5 l6] sv h tm tr].
      unfold extended, with_trace, with_vars, GlobalState.update_gridDimensionChangeListeners.
      simpl. rewrite <- !app_assoc. reflexivity.
    + rewrite calls_app, Hc1, Hc2. reflexivity.
Qed.

Lemma setBalance_runs (b : Z) (w : World) :
  exists evs,
    GlobalState.setBalance b w =
      (Ret tt, extended (with_store (GlobalState.assign_balance b) w) evs) /\
    calls evs =
      (if Z.eqb (balance (store w)) b then []
       else each_once (balanceChangeListeners (vars w)) [JS.VNum b]).
Proof.
  destruct w as [[tk tr_ tc cr gm ba st ri rw ti] v sv h tm tr].
  unfold GlobalState.setBalance.
  set (line := Console Info "Balance updated from/to" [JS.VNum ba; JS.VNum b]).
  set (w0 := {| store := Build_GlobalStateObject tk tr_ tc cr gm ba st ri rw ti;
                vars := v; ws := sv; window_logoutUser := h; timers := tm; trace := tr |}).
  set (w1 := extended (with_store (GlobalState.assign_balance b) w0) [line]).
  simpl balance.
  destruct (Z.eqb ba b) eqn:Hsame.
  - exists [line]. split; [|reflexivity].
    unfold bind, gets, modify, console_log, emit, when, ret. simpl.
    rewrite Hsame. reflexivity.
  - set (ls := balanceChangeListeners v).
    set (line2 := Console Info "Triggering balance change listeners with balance:"
                    [len ls; JS.VNum b]).
    destruct (forEach_guarded_fires ls [JS.VNum b] "Error in balance change listener:"
                (extended w1 [line2])) as (evs & Hrun & Hcalls & _).
    exists ([line] ++ [line2] ++ evs). split.
    + unfold bind, gets, modify, console_log, emit, when, ret. simpl.
      rewrite Hsame. simpl.
      unfold GlobalState.triggerBalanceChange.
      unfold bind, gets, modify, console_log, emit, when, ret. simpl.
      subst w1 w0 ls line line2. unfold extended in Hrun. simpl in Hrun. simpl.
      unfold with_trace, with_store in Hrun. simpl in Hrun.
      unfold with_trace, with_store. simpl.
      rewrite Hrun. unfold extended, with_trace. simpl.
      rewrite <- !app_assoc. reflexivity.
    + rewrite !calls_app, Hcalls. reflexivity.
Qed.

(** X1.  [setBalance(b)] stores [b] and returns; with listeners that keep
    out of the store while they are called, it calls the balance-change
    listeners (registered through [addBalanceChangeListener], in
    registration order, each once, with the new balance as argument)
    exactly when [b] differs from the balance stored before, and setting
    the same balance again calls none. *)
Theorem setBalance_notifies_only_on_change
    (c : Reentrant.Conduct) (w : World) (cbs : list Callback) (b : Z) :
  Reentrant.outside_the_store c ->
  let w0 := exec (register_all GlobalState.addBalanceChangeListener cbs) w in
  let r := Reentrant.setBalance c b w0 in
  let again := Reentrant.setBalance c b (world_of r) in
  outcome_of r = Ret tt /\
  GlobalState.getBalance (world_of r) = (Ret b, world_of r) /\
  calls (new_events w0 (world_of r)) =
    (if Z.eqb (balance (store w)) b then []
     else each_once (balanceChangeListeners (vars w) ++ cbs) [JS.VNum b]) /\
  calls (new_events (world_of r) (world_of again)) = [].
Proof.
  intros Hc w0 r again.
  assert (Hw0 : balanceChangeListeners (vars w0) = balanceChangeListeners (vars w) ++ cbs /\
                balance (store w0) = balance (store w)).
  { subst w0. unfold exec. destruct (register_balance cbs w) as (e & -> & _).
    destruct w as [s [g l1 l2 l3 l4 l5 l6] sv h tm tr]. split; reflexivity. }
  destruct Hw0 as [Hls Hbal]. clearbody w0.
  destruct Hc as [Hq Hstore].
  destruct (setBalance_outside c Hq b w0) as (evs & w1 & Hr & Hs & _ & Ht & Hcalls).
  specialize (Hs Hstore).
  assert (Hw1 : world_of r = w1) by (subst r; rewrite Hr; reflexivity).
  assert (Hb : balance (store w1) = b) by (rewrite Hs; destruct (store w0); reflexivity).
  destruct (setBalance_outside c Hq b w1) as (evs' & w2 & Hr' & _ & _ & Ht' & Hcalls').
  subst again. rewrite Hw1, Hr'. subst r. rewrite Hr.
  unfold outcome_of, world_of. simpl fst. simpl snd.
  split; [reflexivity|].
  split; [unfold GlobalState.getBalance, gets; rewrite Hb; reflexivity|].
  split.
  - rewrite (new_events_extend w0 w1 evs Ht), Hcalls, Hls, Hbal. reflexivity.
  - rewrite (new_events_extend w1 w2 evs' Ht'), Hcalls', Hb, Z.eqb_refl. reflexivity.
Qed.

Lemma setBalance_notifies_only_on_change_witness :
  let w0 := exec (register_all GlobalState.addBalanceChangeListener [returning 1; throwing 2])
              initial_world in
  let r := Reentrant.setBalance Reentrant.chatty 250 w0 in
  Reentrant.outside_the_store Reentrant.chatty /\
  calls (new_events w0 (world_of r)) = [(1%nat, [JS.VNum 250]); (2%nat, [JS.VNum 250])] /\
  calls (new_events (world_of r)
           (world_of (Reentrant.setBalance Reentrant.chatty 250 (world_of r)))) = [].
Proof.
  intros w0 r. split; [exact chatty_outside_the_store|].
  destruct (setBalance_notifies_only_on_change Reentrant.chatty initial_world
              [returning 1; throwing 2] 250 chatty_outside_the_store)
    as (_ & _ & Hcalls & Hagain).
  split; [exact Hcalls | exact Hagain].
Defined.

(** The same dispatch with a listener that unsubscribes itself while it
    is called: the listener registered after it is passed over. *)
Example setBalance_passes_over_after_unsubscribe :
  let leaves := {| Reentrant.during := fun k _ =>
                     if Nat.eqb k 1
                     then StoreApi.unsubscribeBalanceChangeListener (returning 1)
                     else ret tt;
                   Reentrant.during_logout := ret tt |} in
  let w0 := exec (register_all GlobalState.addBalanceChangeListener
                    [returning 1; returning 2; returning 3]) initial_world in
  calls (new_events w0 (exec (Reentrant.setBalance leaves 250) w0)) =
    [(1%nat, [JS.VNum 250]); (3%nat, [JS.VNum 250])].
Proof. vm_compute. reflexivity. Qed.

(** X2.  [setGridDimensions(cols, rows)] stores both values and returns;
    with listeners that keep out of the store while they are called, it
    calls the grid listeners (in registration order, each once, with the
    two values) exactly when one of the two differs from the stored one
    under [!==].  Since [NaN !== NaN], writing a [NaN] dimension notifies
    every time, while writing the same numbers again notifies nobody. *)
Theorem setGridDimensions_notifies_only_on_change
    (c : Reentrant.Conduct) (w : World) (cbs : list Callback) (cols rows : JS.jsnum) :
  Reentrant.outside_the_store c ->
  let w0 := exec (register_all GlobalState.addGridDimensionChangeListener cbs) w in
  let r := Reentrant.setGridDimensions c cols rows w0 in
  let again := Reentrant.setGridDimensions c cols rows (world_of r) in
  let everyone :=
    each_once (gridDimensionChangeListeners (vars w) ++ cbs) (map JS.jsnum_value [cols; rows]) in
  outcome_of r = Ret tt /\
  total_cols (store (world_of r)) = cols /\
  total_rows (store (world_of r)) = rows /\
  calls (new_events w0 (world_of r)) =
    (if JS.jsnum_neq (total_cols (store w)) cols || JS.jsnum_neq (total_rows (store w)) rows
     then everyone else []) /\
  calls (new_events (world_of r) (world_of again)) =
    (if JS.jsnum_neq cols cols || JS.jsnum_neq rows rows then everyone else []) /\
  (forall n m, JS.jsnum_neq (JS.Num n) (JS.Num n) || JS.jsnum_neq (JS.Num m) (JS.Num m) = false) /\
  (forall x, JS.jsnum_neq JS.NaN x = true).
Proof.
  intros Hc w0 r again everyone.
  assert (Hw0 : gridDimensionChangeListeners (vars w0) =
                gridDimensionChangeListeners (vars w) ++ cbs /\
                store w0 = store w).
  { subst w0. unfold exec. destruct (register_grid cbs w) as (e & -> & _).
    destruct w as [s [g l1 l2 l3 l4 l5 l6] sv h tm tr]. split; reflexivity. }
  destruct Hw0 as [Hls Hstore]. clearbody w0.
  destruct Hc as [Hq Hspare].
  destruct (setGridDimensions_outside c Hq cols rows w0)
    as (evs & w1 & Hr & Hs & Hv & Ht & Hcalls).
  specialize (Hs Hspare).
  assert (Hw1 : world_of r = w1) by (subst r; rewrite Hr; reflexivity).
  assert (Hafter : total_cols (store w1) = cols /\ total_rows (store w1) = rows)
    by (rewrite Hs; destruct (store w0); split; reflexivity).
  destruct Hafter as (Hcols & Hrows).
  destruct (setGridDimensions_outside c Hq cols rows w1)
    as (evs' & w2 & Hr' & _ & _ & Ht' & Hcalls').
  subst again. rewrite Hw1, Hr'. subst r. rewrite Hr.
  unfold outcome_of, world_of. simpl fst. simpl snd.
  split; [reflexivity|].
  split; [exact Hcols|]. split; [exact Hrows|].
  split; [|split; [|split]].
  - rewrite (new_events_extend w0 w1 evs Ht), Hcalls, Hls, Hstore. reflexivity.
  - rewrite (new_events_extend w1 w2 evs' Ht'), Hcalls', Hcols, Hrows, Hv, Hls. reflexivity.
  - intros n m. unfold JS.jsnum_neq. simpl. rewrite !Z.eqb_refl. reflexivity.
  - intros x. destruct x; reflexivity.
Qed.

Lemma setGridDimensions_notifies_only_on_change_witness :
  let w0 := exec (register_all GlobalState.addGridDimensionChangeListener
                    [returning 1; throwing 2]) initial_world in
  let r := Reentrant.setGridDimensions Reentrant.chatty (JS.Num 7) JS.NaN w0 in
  Reentrant.outside_the_store Reentrant.chatty /\
  calls (new_events w0 (world_of r)) =
    [(1%nat, [JS.VNum 7; JS.VNaN]); (2%nat, [JS.VNum 7; JS.VNaN])] /\
  calls (new_events (world_of r)
           (world_of (Reentrant.setGridDimensions Reentrant.chatty (JS.Num 7) JS.NaN
                        (world_of r)))) =
    [(1%nat, [JS.VNum 7; JS.VNaN]); (2%nat, [JS.VNum 7; JS.VNaN])].
Proof.
  intros w0 r. split; [exact chatty_outside_the_store|].
  destruct (setGridDimensions_notifies_only_on_change Reentrant.chatty initial_world
              [returning 1; throwing 2] (JS.Num 7) JS.NaN chatty_outside_the_store)
    as (_ & _ & _ & Hcalls & Hagain & _).
  split; [exact Hcalls | exact Hagain].
Defined.

End StoreNotifications.

Section Unsubscribing.

Lemma remove_first_fresh (cb : Callback) (ls : list Callback) :
  existsb (fun l => Nat.eqb (cb_id l) (cb_id cb)) ls = false ->
  remove_first (cb_id cb) (ls ++ [cb]) = ls.
Proof.
  induction ls as [|l rest IH]; simpl; intros H.
  - rewrite Nat.eqb_refl. reflexivity.
  - apply orb_false_iff in H. destruct H as [Hl Hrest].
    rewrite Hl, (IH Hrest). reflexivity.
Qed.

Lemma existsb_registered (cb : Callback) (ls : list Callback) :
  existsb (fun l => Nat.eqb (cb_id l) (cb_id cb)) (ls ++ [cb]) = true.
Proof.
  rewrite existsb_app. simpl. rewrite Nat.eqb_refl, orb_true_r. reflexivity.
Qed.

(** X3.  The closure [addGameStartedListener] returns undoes the
    registration: for a callback that was not registered before, calling
    it leaves the registry exactly as it was before the registration, so
    the next false-to-true transition calls the earlier listeners only;
    calling the closure a second time changes nothing and logs nothing. *)
Theorem unsubscribe_undoes_registration (w : World) (cb : Callback) :
  existsb (fun l => Nat.eqb (cb_id l) (cb_id cb)) (gameStartedListeners (vars w)) = false ->
  gameStarted (vars w) = false ->
  let w1 := exec (GlobalState.addGameStartedListener cb ;;
                  GlobalState.unsubscribeGameStartedListener cb) w in
  let w2 := exec (GlobalState.unsubscribeGameStartedListener cb) w1 in
  gameStartedListeners (vars w1) = gameStartedListeners (vars w) /\
  w2 = w1 /\
  calls (new_events w1 (exec (GlobalState.setGameStarted true) w1)) =
    each_once (gameStartedListeners (vars w)) [].
Proof.
  intros Hfresh Hidle w1 w2.
  assert (Hw1 : exists evs,
             w1 = extended w evs).
  { subst w1. unfold exec. destruct w as [s [g l1 l2 l3 l4 l5 l6] sv h tm tr].
    simpl in Hfresh.
    unfold GlobalState.addGameStartedListener, GlobalState.unsubscribeGameStartedListener.
    unfold bind, gets, modify, console_log, emit, when, ret. simpl.
    unfold GlobalState.push. rewrite existsb_registered. simpl.
    unfold with_vars, GlobalState.update_gameStartedListeners. simpl.
    rewrite !(remove_first_fresh cb l1 Hfresh).
    eexists. unfold extended, with_trace. simpl. rewrite <- app_assoc. reflexivity. }
  destruct Hw1 as (evs & Hw1).
  assert (Hls : gameStartedListeners (vars w1) = gameStartedListeners (vars w))
    by (rewrite Hw1; destruct w; reflexivity).
  assert (Hg : gameStarted (vars w1) = false)
    by (rewrite Hw1; destruct w; exact Hidle).
  split; [exact Hls|]. split.
  - subst w2. unfold exec, GlobalState.unsubscribeGameStartedListener, bind, gets.
    rewrite Hls, Hfresh. reflexivity.
  - clearbody w1. unfold exec.
    destruct (setGameStarted_runs true w1) as (e & -> & Hcalls & _). simpl snd.
    rewrite (new_events_extend w1 _ e) by (destruct w1; reflexivity).
    rewrite Hcalls, Hg, Hls. reflexivity.
Qed.

Lemma unsubscribe_undoes_registration_witness :
  let w := exec (GlobalState.addGameStartedListener (returning 1)) initial_world in
  let w1 := exec (GlobalState.addGameStartedListener (returning 2) ;;
                  GlobalState.unsubscribeGameStartedListener (returning 2)) w in
  existsb (fun l => Nat.eqb (cb_id l) 2) (gameStartedListeners (vars w)) = false /\
  gameStarted (vars w) = false /\
  gameStartedListeners (vars w1) = gameStartedListeners (vars w) /\
  calls (new_events w1 (exec (GlobalState.setGameStarted true) w1)) = [(1%nat, [])].
Proof.
  intros w w1.
  assert (Hfresh : existsb (fun l => Nat.eqb (cb_id l) (cb_id (returning 2)))
                     (gameStartedListeners (vars w)) = false) by reflexivity.
  assert (Hidle : gameStarted (vars w) = false) by reflexivity.
  destruct (unsubscribe_undoes_registration w (returning 2) Hfresh Hidle) as (Hls & _ & Hcalls).
  split; [exact Hfresh|]. split; [exact Hidle|]. split; [exact Hls | exact Hcalls].
Defined.

(** A callback registered twice stays registered once after one call of
    the closure: [splice] removes one position. *)
Example unsubscribe_removes_one_of_two :
  let w := exec (GlobalState.addGameStartedListener (returning 1) ;;
                 GlobalState.addGameStartedListener (returning 1) ;;
                 GlobalState.unsubscribeGameStartedListener (returning 1)) initial_world in
  map cb_id (gameStartedListeners (vars w)) = [1%nat].
Proof. vm_compute. reflexivity. Qed.

End Unsubscribing.

(** * Further properties of the transport *)

Section InboundFrames.

Import WebSocketService.

(** X5.  Decode faults: a frame whose text is not JSON, and a frame that
    is the JSON value [null], are dropped with one error line that carries
    the text; no handler is called and nothing else changes, whatever
    handlers are registered. *)
Theorem undecodable_frame_is_dropped (ev : MessageEvent) (w : World) :
  json ev = None \/ json ev = Some JS.VNull ->
  onmessage ev w =
    (Ret tt, extended w [Console Error "Invalid message:" [JS.VStr (text ev)]]).
Proof.
  intros [H|H]; unfold onmessage, try_catch, bind at 1, JSON_parse; rewrite H; reflexivity.
Qed.

Lemma undecodable_frame_is_dropped_witness :
  let w := exec (on "tick" (Plain (returning 1))) initial_world in
  let ev := {| text := "{ tick"; json := None |} in
  (json ev = None \/ json ev = Some JS.VNull) /\
  calls (new_events w (exec (onmessage ev) w)) = [] /\
  listeners (ws (exec (onmessage ev) w)) = listeners (ws w).
Proof.
  intros w ev.
  assert (H : json ev = None \/ json ev = Some JS.VNull) by (left; reflexivity).
  split; [exact H|].
  unfold exec. rewrite (undecodable_frame_is_dropped ev w H). split; reflexivity.
Defined.

(** X6.  After [off(k)] a frame whose dispatch key is [k] calls nothing
    and leaves the table alone; the handlers of the other keys are the
    ones they were. *)
Theorem off_silences_key (w : World) (k : string) (ev : MessageEvent) (msg : JS.value) :
  json ev = Some msg ->
  eventKey msg = JS.VStr k ->
  let w1 := exec (off k) w in
  let w2 := exec (onmessage ev) w1 in
  listeners (ws w1) !! k = None /\
  (forall k', k' <> k -> listeners (ws w1) !! k' = listeners (ws w) !! k') /\
  calls (new_events w1 w2) = [] /\
  listeners (ws w2) = listeners (ws w1).
Proof.
  intros Hjson Hkey w1 w2.
  assert (Hnone : listeners (ws w1) !! k = None).
  { subst w1. destruct w as [s v [so li q ic] h tm tr]. unfold exec. simpl.
    apply lookup_delete_eq. }
  assert (Hother : forall k', k' <> k -> listeners (ws w1) !! k' = listeners (ws w) !! k').
  { intros k' Hne. subst w1. destruct w as [s v [so li q ic] h tm tr]. unfold exec. simpl.
    apply lookup_delete_ne. congruence. }
  split; [exact Hnone|]. split; [exact Hother|].
  pose proof (eventKey_string_not_nullish msg k Hkey) as Hnn.
  subst w2. clearbody w1. unfold exec.
  destruct (session_expired msg) eqn:Hexp.
  - rewrite (onmessage_expired ev msg w1 Hjson Hnn Hexp). simpl snd.
    erewrite new_events_extend by (destruct w1; reflexivity).
    split; [|destruct w1; reflexivity].
    destruct (window_logoutUser w1) as [hook|]; [|reflexivity].
    destruct (hook _); reflexivity.
  - destruct (carries_bet_steps msg) eqn:Hbet.
    + rewrite (onmessage_bet_steps ev msg w1 Hjson Hnn Hexp Hbet). simpl snd.
      erewrite new_events_extend by (destruct w1; reflexivity).
      split; [reflexivity | destruct w1; reflexivity].
    + rewrite (onmessage_dispatches ev msg w1 Hjson Hnn Hexp Hbet), Hkey.
      unfold handler_for. rewrite Hnone.
      destruct (JS.truthy (JS.VStr k)); simpl snd;
        (split; [apply (f_equal calls (new_events_same w1 w1 eq_refl)) | reflexivity]).
Qed.

Lemma off_silences_key_witness :
  let msg := JS.VObj [("event", JS.VStr "tick"); ("data", JS.VNum 1)] in
  let w := exec (on "tick" (Plain (returning 1)) ;; on "tock" (Plain (returning 2)))
             initial_world in
  let w1 := exec (off "tick") w in
  json (frame_carrying msg) = Some msg /\
  eventKey msg = JS.VStr "tick" /\
  calls (new_events w (exec (onmessage (frame_carrying msg)) w)) = [(1%nat, [JS.VNum 1])] /\
  calls (new_events w1 (exec (onmessage (frame_carrying msg)) w1)) = [] /\
  listeners (ws w1) !! "tock" = Some (Plain (returning 2)).
Proof.
  intros msg w w1.
  destruct (off_silences_key w "tick" (frame_carrying msg) msg eq_refl eq_refl)
    as (_ & Hother & Hcalls & _).
  split; [reflexivity|]. split; [reflexivity|]. split; [vm_compute; reflexivity|].
  split; [exact Hcalls|].
  etransitivity; [apply Hother; discriminate | vm_compute; reflexivity].
Defined.

End InboundFrames.

Section InboundFramesOfActingHandlers.

Import WebSocketService.

Import Reentrant (finishes, keeps).

Lemma confined_refl (w : World) : Reentrant.confined w w.
Proof.
  unfold Reentrant.confined. repeat (split; [reflexivity|]).
  split; [exists []; symmetry; apply app_nil_r | auto].
Qed.

Lemma confined_trans (w1 w2 w3 : World) :
  Reentrant.confined w1 w2 -> Reentrant.confined w2 w3 -> Reentrant.confined w1 w3.
Proof.
  intros (A1 & A2 & A3 & A4 & A5 & A6 & A7 & (e1 & A8) & A9)
         (B1 & B2 & B3 & B4 & B5 & B6 & B7 & (e2 & B8) & B9).
  unfold Reentrant.confined.
  repeat (split; [congruence|]).
  split; [exists (e1 ++ e2); rewrite B8, A8, app_assoc; reflexivity|].
  intros k h Hk. apply A9, B9, Hk.
Qed.

Lemma confined_emit (e : Event) (w : World) :
  Reentrant.confined w (with_trace (fun t => t ++ [e]) w).
Proof.
  destruct w. unfold Reentrant.confined. simpl.
  repeat (split; [reflexivity|]). split; [exists [e]; reflexivity | auto].
Qed.

Lemma confined_off (k : string) (w : World) :
  Reentrant.confined w (with_ws (fun s => assign_listeners (delete k (listeners s)) s) w).
Proof.
  destruct w as [s v [so li q ic] h tm tr]. unfold Reentrant.confined. simpl.
  repeat (split; [reflexivity|]).
  split; [exists []; symmetry; apply app_nil_r|].
  intros k' h' Hk. apply lookup_delete_Some in Hk. apply Hk.
Qed.

Lemma finishes_bind {A B} (m : M A) (k : A -> M B) :
  finishes m -> (forall a, finishes (k a)) -> finishes (bind m k).
Proof.
  intros Hm Hk w. unfold bind. specialize (Hm w).
  destruct (m w) as [[a|e|] w1]; simpl in *.
  - apply Hk.
  - discriminate.
  - exfalso. apply Hm. reflexivity.
Qed.

Lemma keeps_bind {A B} (m : M A) (k : A -> M B) :
  keeps m -> (forall a, keeps (k a)) -> keeps (bind m k).
Proof.
  intros Hm Hk w. unfold bind. specialize (Hm w).
  destruct (m w) as [[a|e|] w1]; simpl in *; try exact Hm.
  apply (confined_trans w w1); [exact Hm | apply Hk].
Qed.

Lemma finishes_try_catch {A} (m : M A) (h : Exn -> M A) :
  finishes m -> (forall e, finishes (h e)) -> finishes (try_catch m h).
Proof.
  intros Hm Hh w. unfold try_catch. specialize (Hm w).
  destruct (m w) as [[a|e|] w1]; simpl in *.
  - discriminate.
  - apply Hh.
  - exact Hm.
Qed.

Lemma keeps_try_catch {A} (m : M A) (h : Exn -> M A) :
  keeps m -> (forall e, keeps (h e)) -> keeps (try_catch m h).
Proof.
  intros Hm Hh w. unfold try_catch. specialize (Hm w).
  destruct (m w) as [[a|e|] w1]; simpl in *; try exact Hm.
  apply (confined_trans w w1); [exact Hm | apply Hh].
Qed.

Lemma finishes_still {A} (o : Outcome A) :
  o <> OutOfFuel -> finishes (fun w => (o, w)).
Proof. intros H w. exact H. Qed.

Lemma keeps_still {A} (o : Outcome A) : keeps (fun w => (o, w)).
Proof. intros w. apply confined_refl. Qed.

Lemma finishes_modify (f : World -> World) : finishes (modify f).
Proof. intros w. discriminate. Qed.

Lemma finishes_gets {A} (f : World -> A) : finishes (gets f).
Proof. intros w. discriminate. Qed.

Lemma keeps_gets {A} (f : World -> A) : keeps (gets f).
Proof. intros w. apply confined_refl. Qed.

Lemma keeps_emit (e : Event) : keeps (emit e).
Proof. intros w. apply confined_emit. Qed.

Lemma keeps_off (k : string) : keeps (off k).
Proof. intros w. apply confined_off. Qed.

Variable c : Reentrant.Conduct.

Lemma invoke_finishes (cb : Callback) (args : list JS.value) :
  Reentrant.terminating c -> finishes (Reentrant.invoke c cb args).
Proof.
  intros [Hd _]. unfold Reentrant.invoke.
  apply finishes_bind; [apply finishes_gets|]. intros history.
  apply finishes_bind; [apply finishes_modify|]. intros _.
  apply finishes_bind; [intros w; apply Hd|]. intros _.
  destruct (cb_throws cb history args); apply finishes_still; discriminate.
Qed.

Lemma invoke_keeps (cb : Callback) (args : list JS.value) :
  Reentrant.unobtrusive c -> keeps (Reentrant.invoke c cb args).
Proof.
  intros [Hd _]. unfold Reentrant.invoke.
  apply keeps_bind; [apply keeps_gets|]. intros history.
  apply keeps_bind; [apply keeps_emit|]. intros _.
  apply keeps_bind; [intros w; apply Hd|]. intros _.
  destruct (cb_throws cb history args); apply keeps_still.
Qed.

Lemma onmessage_finishes (ev : MessageEvent) :
  Reentrant.terminating c -> finishes (Reentrant.onmessage c ev).
Proof.
  intros Hc. unfold Reentrant.onmessage.
  apply finishes_try_catch; [|intros e; apply finishes_modify].
  apply finishes_bind.
  { unfold JSON_parse. destruct (json ev); apply finishes_still; discriminate. }
  intros msg. apply finishes_bind.
  { unfold read. destruct (JS.nullish msg); apply finishes_still; discriminate. }
  intros _. destruct (session_expired msg).
  - apply finishes_bind; [apply finishes_modify|]. intros _.
    apply finishes_bind; [apply finishes_gets|]. intros [h|].
    + unfold Reentrant.call_logoutUser.
      apply finishes_bind; [apply finishes_gets|]. intros history.
      apply finishes_bind; [apply finishes_modify|]. intros _.
      apply finishes_bind; [intros w; apply Hc|]. intros _.
      destruct (h history); apply finishes_still; discriminate.
    + apply finishes_still. discriminate.
  - apply finishes_bind.
    { destruct (carries_bet_steps msg); simpl.
      - apply finishes_bind; [apply finishes_still; discriminate|].
        intros _. apply finishes_modify.
      - apply finishes_still. discriminate. }
    intros _. apply finishes_bind; [apply finishes_gets|]. intros table.
    destruct (handler_for (eventKey msg) table) as [[cb|k cb]|]; simpl.
    + apply invoke_finishes, Hc.
    + apply finishes_bind; [apply invoke_finishes, Hc|]. intros _. apply finishes_modify.
    + apply finishes_still. discriminate.
Qed.

Lemma onmessage_keeps (ev : MessageEvent) :
  Reentrant.unobtrusive c -> keeps (Reentrant.onmessage c ev).
Proof.
  intros Hc. unfold Reentrant.onmessage.
  apply keeps_try_catch; [|intros e; apply keeps_emit].
  apply keeps_bind.
  { unfold JSON_parse. destruct (json ev); apply keeps_still. }
  intros msg. apply keeps_bind.
  { unfold read. destruct (JS.nullish msg); apply keeps_still. }
  intros _. destruct (session_expired msg).
  - apply keeps_bind; [apply keeps_emit|]. intros _.
    apply keeps_bind; [apply keeps_gets|]. intros [h|].
    + unfold Reentrant.call_logoutUser.
      apply keeps_bind; [apply keeps_gets|]. intros history.
      apply keeps_bind; [apply keeps_emit|]. intros _.
      apply keeps_bind; [intros w; apply Hc|]. intros _.
      destruct (h history); apply keeps_still.
    + apply keeps_still.
  - apply keeps_bind.
    { destruct (carries_bet_steps msg); simpl.
      - apply keeps_bind; [apply keeps_still|]. intros _. apply keeps_emit.
      - apply keeps_still. }
    intros _. apply keeps_bind; [apply keeps_gets|]. intros table.
    destruct (handler_for (eventKey msg) table) as [[cb|k cb]|]; simpl.
    + apply invoke_keeps, Hc.
    + apply keeps_bind; [apply invoke_keeps, Hc|]. intros _. apply keeps_off.
    + apply keeps_still.
Qed.

(** X4.  [onmessage] never lets an exception out, whatever the frame and
    whatever the registered handler and the logout hook do while they are
    called, calls back into the store and the service included; when they
    return or throw, [onmessage] returns.  It adds no write of its own to
    theirs but console lines and, for a [once] handler that returned, the
    deletion of its key: when the handler and the hook leave the store,
    the module variables, the timers, the hook, the queue, the socket and
    the connected flag alone, add events only and take no entry into the
    handler table, the same holds of the whole of [onmessage]. *)
Theorem onmessage_never_throws_and_is_confined (ev : MessageEvent) (w : World) :
  let r := Reentrant.onmessage c ev w in
  let w' := world_of r in
  (forall e, outcome_of r <> Throw e) /\
  (Reentrant.terminating c -> outcome_of r = Ret tt) /\
  (Reentrant.unobtrusive c ->
   store w' = store w /\ vars w' = vars w /\ timers w' = timers w /\
   window_logoutUser w' = window_logoutUser w /\
   queue (ws w') = queue (ws w) /\ socket (ws w') = socket (ws w) /\
   isConnected (ws w') = isConnected (ws w) /\
   (exists evs, trace w' = trace w ++ evs) /\
   (forall k h, listeners (ws w') !! k = Some h -> listeners (ws w) !! k = Some h)).
Proof.
  intros r w'.
  assert (Hthrow : forall e, outcome_of r <> Throw e).
  { intros e. subst r. unfold Reentrant.onmessage, try_catch.
    match goal with |- context [match ?body w with _ => _ end] => destruct (body w) as [[[]|e'|] w1] end;
      discriminate. }
  split; [exact Hthrow|]. split.
  - intros Hc. pose proof (onmessage_finishes ev Hc w) as Hfuel. fold r in Hfuel.
    destruct (outcome_of r) as [[]|e|] eqn:Hr.
    + reflexivity.
    + exfalso. apply (Hthrow e). reflexivity.
    + exfalso. apply Hfuel. reflexivity.
  - intros Hc. exact (onmessage_keeps ev Hc w).
Qed.

End InboundFramesOfActingHandlers.

(** A frame for a key whose handler, while it is called, writes the
    balance, sends a request and registers a handler, and then throws:
    [onmessage] returns. *)
Lemma onmessage_never_throws_and_is_confined_witness :
  let w := exec (WebSocketService.on "getbalance" (Plain (throwing 1))) initial_world in
  let ev := frame_carrying (JS.VObj [("operation", JS.VStr "getbalance");
                                     ("data", JS.VObj [("balance", JS.VNum 250)])]) in
  let r := Reentrant.onmessage Reentrant.busy ev w in
  Reentrant.terminating Reentrant.busy /\
  outcome_of r = Ret tt /\
  balance (store (world_of r)) = 250 /\
  calls (new_events w (world_of r)) = [(1%nat, [JS.VObj [("balance", JS.VNum 250)]])].
Proof.
  intros w ev r.
  assert (Hbusy : Reentrant.terminating Reentrant.busy).
  { split.
    - intros id args w0. unfold Reentrant.busy, Reentrant.during.
      unfold bind.
      destruct (setBalance_runs 250 w0) as (evs & -> & _).
      unfold WebSocketService.send, WebSocketService.isSocketConnected, bind, gets.
      destruct (WebSocketService.is_open _); discriminate.
    - intros w0. discriminate. }
  split; [exact Hbusy|].
  split; [exact (proj1 (proj2 (onmessage_never_throws_and_is_confined Reentrant.busy ev w)) Hbusy)|].
  split; vm_compute; reflexivity.
Defined.

Section OutboundPath.

Import WebSocketService.

Lemma send_all_open (cmds : list WSMessage) :
  forall w,
    is_open (ws w) = true ->
    send_all cmds w = (Ret tt, extended w (map (fun c => Transmit (frame_of c)) cmds)).
Proof.
  induction cmds as [|c rest IH]; intros w Hopen.
  - simpl. rewrite extended_nil. reflexivity.
  - destruct c as [e d]. simpl send_all. unfold bind.
    rewrite (send_when_open e d w Hopen).
    rewrite IH by (destruct w; exact Hopen).
    rewrite extended_extended. reflexivity.
Qed.

(** X7.  On an open connection every [send] goes to the wire at once: a
    run of calls transmits the frames of the commands in call order and
    nothing else is observed, and the queue and the rest of the world stay
    as they were. *)
Theorem open_sends_bypass_queue (w : World) (cmds : list WSMessage) :
  is_open (ws w) = true ->
  let r := send_all cmds w in
  outcome_of r = Ret tt /\
  new_events w (world_of r) = map (fun c => Transmit (frame_of c)) cmds /\
  transmissions (new_events w (world_of r)) = map frame_of cmds /\
  queue (ws (world_of r)) = queue (ws w) /\
  ws (world_of r) = ws w /\ store (world_of r) = store w.
Proof.
  intros Hopen r. subst r. rewrite (send_all_open cmds w Hopen).
  unfold outcome_of, world_of. simpl fst. simpl snd.
  rewrite (new_events_extend w _ (map (fun c => Transmit (frame_of c)) cmds))
    by (destruct w; reflexivity).
  split; [reflexivity|]. split; [reflexivity|].
  split; [apply transmissions_of_frames|].
  destruct w; repeat split.
Qed.

Lemma open_sends_bypass_queue_witness :
  let w := exec (socket_opens 0) initial_world in
  let cmds := [{| event := "a"; data := JS.VNum 1 |}; {| event := "b"; data := JS.VNum 2 |}] in
  is_open (ws w) = true /\
  transmissions (new_events w (world_of (send_all cmds w))) = ["1"; "2"] /\
  queue (ws (world_of (send_all cmds w))) = [].
Proof.
  intros w cmds.
  assert (Hopen : is_open (ws w) = true) by reflexivity.
  destruct (open_sends_bypass_queue w cmds Hopen) as (_ & _ & Htx & Hq & _).
  split; [exact Hopen|]. split; [exact Htx | exact Hq].
Defined.




(** X9.  Reconnection.  When the socket closes, the service is not
    connected and one reconnect is scheduled after the fixed delay of
    1000; commands sent in between are queued and not transmitted; the
    reconnect opens a socket on a URL built from the token the store holds
    at that moment (a token set after the close is the one used); and when
    that socket opens, what was queued goes out, in order, exactly once,
    and the queue is empty. *)
Theorem reconnect_uses_fresh_token_and_flushes
    (w : World) (t : string) (cmds : list WSMessage) (fuel : nat) :
  (length (queue (ws w) ++ cmds) <= fuel)%nat ->
  let w1 := exec socket_closes w in
  let w2 := exec (GlobalState.setToken t ;; send_all cmds) w1 in
  let w3 := exec (Main.run_task ConnectTask) w2 in
  let r := socket_opens fuel w3 in
  is_open (ws w1) = false /\
  timers w1 = timers w ++ [{| delay := 1000; task := ConnectTask |}] /\
  transmissions (new_events w1 w2) = [] /\
  new_events w2 w3 =
    [NewWebSocket ("wss://backend.inferixai.link/user/auth?authorization=Bearer " +:+ t)] /\
  socket (ws w3) = Some CONNECTING /\
  outcome_of r = Ret tt /\
  transmissions (new_events w3 (world_of r)) = map frame_of (queue (ws w) ++ cmds) /\
  queue (ws (world_of r)) = [] /\
  is_open (ws (world_of r)) = true.
Proof.
  intros Hfuel w1 w2 w3 r.
  assert (Hw1 : w1 = with_timers (fun ts => ts ++ [{| delay := 1000; task := ConnectTask |}])
                       (with_ws (fun s => assign_isConnected false
                                            (assign_socket (Some CLOSED) s)) w)).
  { subst w1. destruct w as [s v [so li q ic] h tm tr]. reflexivity. }
  assert (Hclosed1 : is_open (ws w1) = false) by (rewrite Hw1; destruct w; reflexivity).
  set (line := Console Info "Setting token for React integration:" [JS.VStr t]).
  set (w1' := with_store (GlobalState.assign_token (SStr t)) (extended w1 [line])).
  assert (Hclosed1' : is_open (ws w1') = false)
    by (subst w1'; destruct w1; exact Hclosed1).
  assert (Hw2 : w2 = with_ws (fun s => assign_queue (queue s ++ cmds) s) w1').
  { subst w2. unfold exec, bind.
    assert (Hset : GlobalState.setToken t w1 = (Ret tt, w1')) by (destruct w1; reflexivity).
    rewrite Hset. rewrite (send_all_not_open cmds w1' Hclosed1'). reflexivity. }
  set (url := NewWebSocket
                ("wss://backend.inferixai.link/user/auth?authorization=Bearer " +:+ t)).
  assert (Hw3 : w3 = with_ws (assign_socket (Some CONNECTING)) (extended w2 [url])).
  { subst w3. rewrite Hw2. subst w1'. destruct w1 as [[] ? [? ? ? ?] ? ? ?]. reflexivity. }
  assert (Hq3 : queue (ws w3) = queue (ws w) ++ cmds).
  { rewrite Hw3, Hw2. subst w1'. rewrite Hw1. destruct w as [s v [so li q ic] h tm tr].
    reflexivity. }
  assert (Hr : r = (Ret tt,
                    extended
                      (with_ws (fun s => {| socket := Some OPEN; listeners := listeners s;
                                            queue := []; isConnected := true |}) w3)
                      (Console Info "WebSocket connected successfully" [] ::
                       map (fun c => Transmit (frame_of c)) (queue (ws w) ++ cmds)))).
  { subst r. rewrite socket_opens_runs by (rewrite Hq3; exact Hfuel).
    rewrite Hq3. reflexivity. }
  split; [exact Hclosed1|].
  split; [rewrite Hw1; destruct w; reflexivity|].
  split.
  { rewrite (new_events_extend w1 w2 [line]); [reflexivity|].
    rewrite Hw2. subst w1'. destruct w1; reflexivity. }
  split.
  { apply new_events_extend. rewrite Hw3. destruct w2; reflexivity. }
  split; [rewrite Hw3; destruct w2 as [? ? [? ? ? ?] ? ? ?]; reflexivity|].
  clearbody w3 w2 w1. rewrite Hr. unfold outcome_of, world_of. simpl fst. simpl snd.
  split; [reflexivity|]. split.
  { erewrite new_events_extend by (destruct w3; reflexivity).
    change (transmissions (Console Info "WebSocket connected successfully" [] ::
                           map (fun c => Transmit (frame_of c)) (queue (ws w) ++ cmds)))
      with (transmissions (map (fun c => Transmit (frame_of c)) (queue (ws w) ++ cmds))).
    apply transmissions_of_frames. }
  destruct w3 as [? ? [? ? ? ?] ? ? ?]. split; reflexivity.
Qed.

Lemma reconnect_uses_fresh_token_and_flushes_witness :
  let w := exec (socket_opens 0) initial_world in
  let cmds := [{| event := "getbalance";
                  data := JS.VObj [("operation", JS.VStr "getbalance")] |}] in
  let w1 := exec socket_closes w in
  let w2 := exec (GlobalState.setToken "T2" ;; send_all cmds) w1 in
  let w3 := exec (Main.run_task ConnectTask) w2 in
  (length (queue (ws w) ++ cmds) <= 1)%nat /\
  new_events w2 w3 =
    [NewWebSocket "wss://backend.inferixai.link/user/auth?authorization=Bearer T2"] /\
  transmissions (new_events w3 (world_of (socket_opens 1 w3))) = map frame_of cmds.
Proof.
  intros w cmds w1 w2 w3.
  assert (Hfuel : (length (queue (ws w) ++ cmds) <= 1)%nat) by (simpl; lia).
  destruct (reconnect_uses_fresh_token_and_flushes w "T2" cmds 1 Hfuel)
    as (_ & _ & _ & Hurl & _ & _ & Htx & _).
  split; [exact Hfuel|]. split; [exact Hurl | exact Htx].
Defined.

End OutboundPath.

(** * Further properties of the resumption handler *)

Section ResumptionEdges.

Import Main.

Ltac split_char s :=
  destruct s as [|[[|] [|] [|] [|] [|] [|] [|] [|]] s]; try reflexivity.

(** The comparison of the status with the two literals, as a test. *)
Lemma status_cases {A} (st : option string) (a b c : A) :
  match st with
  | Some "400" => a
  | Some "200 OK" => b
  | _ => c
  end =
  match st with
  | Some s => if String.eqb s "400" then a else if String.eqb s "200 OK" then b else c
  | None => c
  end.
Proof.
  destruct st as [s|]; [|reflexivity].
  repeat split_char s.
Qed.

(** X10.  The handler fails open.  A response whose status is not
    [200 OK], or that does not report an existing game, is answered with
    "no pending game" and changes nothing in the store, the module
    variables, the timers or the service; a status that is neither [400]
    nor [200 OK] costs one warning on the console and is otherwise treated
    the same. *)
Theorem unrestorable_response_changes_nothing (res : GameLoadResponse) (w : World) :
  res_status res <> Some "200 OK" \/ res_hasExistingGame res <> Some true ->
  let r := on_minesweeper_game_load res w in
  let warning := Console Warn "Unknown response from game load:" [response_value res] in
  outcome_of r = Ret false /\
  store (world_of r) = store w /\ vars (world_of r) = vars w /\
  timers (world_of r) = timers w /\ ws (world_of r) = ws w /\
  new_events w (world_of r) =
    Console Info "Pending game check response:" [response_value res] ::
    match res_status res with
    | Some s => if String.eqb s "400" || String.eqb s "200 OK" then [] else [warning]
    | None => [warning]
    end.
Proof.
  intros Hno r warning. subst r. unfold on_minesweeper_game_load.
  rewrite status_cases.
  set (w1 := extended w [Console Info "Pending game check response:"
                           [response_value res]]).
  assert (Hw1 : w1 = extended w [Console Info "Pending game check response:"
                                   [response_value res]]) by reflexivity.
  assert (Hquiet : forall o : Outcome bool * World,
             o = (Ret false, w1) ->
             outcome_of o = Ret false /\
             store (world_of o) = store w /\ vars (world_of o) = vars w /\
             timers (world_of o) = timers w /\ ws (world_of o) = ws w /\
             new_events w (world_of o) =
               [Console Info "Pending game check response:" [response_value res]]).
  { intros o ->. rewrite Hw1. unfold outcome_of, world_of. simpl fst. simpl snd.
    rewrite (new_events_extend w _ [Console Info "Pending game check response:"
                                      [response_value res]]) by (destruct w; reflexivity).
    destruct w; repeat split. }
  assert (Hwarn : forall o : Outcome bool * World,
             o = (Ret false, extended w1 [warning]) ->
             outcome_of o = Ret false /\
             store (world_of o) = store w /\ vars (world_of o) = vars w /\
             timers (world_of o) = timers w /\ ws (world_of o) = ws w /\
             new_events w (world_of o) =
               [Console Info "Pending game check response:" [response_value res]; warning]).
  { intros o ->. rewrite Hw1. unfold outcome_of, world_of. simpl fst. simpl snd.
    rewrite (new_events_extend w _ [Console Info "Pending game check response:"
                                      [response_value res]; warning])
      by (destruct w; unfold extended, with_trace; simpl; rewrite <- app_assoc; reflexivity).
    destruct w; repeat split. }
  destruct (res_status res) as [s|] eqn:Hs.
  - destruct (String.eqb s "400") eqn:H400; simpl orb; [apply Hquiet; reflexivity|].
    destruct (String.eqb_spec s "200 OK") as [->|Hne]; simpl orb.
    + destruct Hno as [Hno|Hno]; [contradiction Hno; reflexivity|].
      destruct (res_hasExistingGame res) as [[|]|];
        [contradiction Hno; reflexivity | apply Hquiet; reflexivity
        | apply Hquiet; reflexivity].
    + apply Hwarn. reflexivity.
  - apply Hwarn. reflexivity.
Qed.

Lemma unrestorable_response_changes_nothing_witness :
  let res := {| res_status := Some "500"; res_hasExistingGame := Some true;
                res_roundId := SStr "R-1"; res_currentRow := Some 1;
                res_gridOption := None; res_betAmount := None;
                res_revealedMatrix := None; res_rowRewards := None;
                res_gameOver := None |} in
  let r := on_minesweeper_game_load res initial_world in
  (res_status res <> Some "200 OK" \/ res_hasExistingGame res <> Some true) /\
  outcome_of r = Ret false /\
  store (world_of r) = store initial_world /\
  length (new_events initial_world (world_of r)) = 2%nat.
Proof.
  intros res r.
  assert (H : res_status res <> Some "200 OK" \/ res_hasExistingGame res <> Some true)
    by (left; discriminate).
  destruct (unrestorable_response_changes_nothing res initial_world H)
    as (Hout & Hstore & _ & _ & _ & Hnew).
  split; [exact H|]. split; [exact Hout|]. split; [exact Hstore|].
  fold r in Hnew. rewrite Hnew. reflexivity.
Defined.

Lemma restored_store_idempotent (gd : GameLoadResponse) (s : GlobalStateObject) :
  restored_store gd (restored_store gd s) = restored_store gd s.
Proof.
  unfold restored_store, restored_reward, restored_row, restored_round, restored_stake,
    restored_grid, restored_matrix.
  destruct s. destruct (res_revealedMatrix gd); destruct (res_gridOption gd) as [g|];
    try destruct (negb (String.eqb g EmptyString));
    destruct (res_betAmount gd) as [b|]; try destruct (negb (Z.eqb b 0));
    destruct (res_currentRow gd); reflexivity.
Qed.

(** X11.  The handler stays registered, so the same response can arrive
    twice.  Restoring twice from one response leaves the store exactly as
    restoring once, keeps the game started, runs the same setters in the
    same order again, and schedules a second restore signal. *)
Theorem restoring_twice_is_restoring_once (gd : GameLoadResponse) (w : World) :
  let w1 := exec (restorePendingGame gd) w in
  let w2 := exec (restorePendingGame gd) w1 in
  store w2 = store w1 /\
  gameStarted (vars w2) = true /\
  setter_entries (new_events w1 w2) = setter_entries (new_events w w1) /\
  timers w2 = timers w ++ [{| delay := 500; task := TriggerPendingGameRestoreTask |};
                           {| delay := 500; task := TriggerPendingGameRestoreTask |}].
Proof.
  intros w1 w2.
  destruct (restorePendingGame_step gd w) as (e1 & Hrun1 & Hset1).
  assert (Hw1 : w1 = extended (restored_world gd w) e1) by (subst w1; unfold exec; rewrite Hrun1; reflexivity).
  destruct (restorePendingGame_step gd w1) as (e2 & Hrun2 & Hset2).
  assert (Hw2 : w2 = extended (restored_world gd w1) e2) by (subst w2; unfold exec; rewrite Hrun2; reflexivity).
  clearbody w1 w2.
  split; [|split; [|split]].
  - rewrite Hw2, Hw1. destruct w. simpl. apply restored_store_idempotent.
  - rewrite Hw2. destruct w1. reflexivity.
  - rewrite (new_events_extend w1 w2 e2) by (rewrite Hw2; destruct w1; reflexivity).
    rewrite (new_events_extend w w1 e1) by (rewrite Hw1; destruct w; reflexivity).
    rewrite Hset1, Hset2. reflexivity.
  - rewrite Hw2, Hw1. destruct w. simpl. rewrite <- app_assoc. reflexivity.
Qed.

End ResumptionEdges.

(** * The bet tab *)

Section BetSelection.

Context {number : Type}.
Variable strict_equal : number -> number -> bool.
Variable toFixed2 : number -> string.

Let State : Type := BetTab.State number.

Lemma element_in_range (steps : list number) (i : Z) :
  0 <= i < BetTab.length_of steps -> exists a, BetTab.element steps i = Some a.
Proof.
  intros [Hlo Hhi]. unfold BetTab.element, BetTab.length_of in *.
  destruct (Z.ltb_spec i 0) as [Hneg|_]; [lia|].
  destruct (nth_error steps (Z.to_nat i)) as [a|] eqn:Hnth; [exists a; reflexivity|].
  apply nth_error_None in Hnth. lia.
Qed.

(** Selecting a step inside the array and redrawing. *)
Lemma select_in_range (line : string) (i : Z) (s : State) :
  0 <= i < BetTab.length_of (BetTab.betSteps s) ->
  exists s',
    BetTab.updateBetDisplay toFixed2
      (BetTab.console_log number line [BetTab.element (BetTab.betSteps s) i]
         (BetTab.select number i (BetTab.element (BetTab.betSteps s) i) s)) = BetTab.Normal s' /\
    BetTab.currentBetIndex s' = i /\
    BetTab.betSteps s' = BetTab.betSteps s /\
    BetTab.areBetButtonsDisabled s' = BetTab.areBetButtonsDisabled s /\
    BetTab.visible (BetTab.betAmountText s') = BetTab.visible (BetTab.betAmountText s) /\
    BetTab.visible (BetTab.gameplayBetText s') = BetTab.visible (BetTab.gameplayBetText s) /\
    consistent s' /\ displayed toFixed2 s'.
Proof.
  intros Hi. destruct (element_in_range _ _ Hi) as (a & Ha).
  unfold BetTab.updateBetDisplay. simpl. rewrite Ha. simpl.
  eexists. split; [reflexivity|]. simpl.
  repeat (split; [first [reflexivity | assumption | lia]|]).
  split.
  - split; [exact Hi|]. simpl. symmetry. exact Ha.
  - exists a. simpl. repeat split.
Qed.

Lemma blocked_press (p : Press) (s : State) :
  BetTab.areBetButtonsDisabled s = true ->
  exists line, press toFixed2 p s = BetTab.Normal (BetTab.console_log number line [] s).
Proof.
  intros Hd. destruct p; simpl; unfold BetTab.handleBetIncrease, BetTab.handleBetDecrease;
    rewrite Hd; eexists; reflexivity.
Qed.

Lemma target_in_range (p : Press) (s : State) :
  0 < BetTab.length_of (BetTab.betSteps s) ->
  0 <= target p s < BetTab.length_of (BetTab.betSteps s).
Proof.
  intros Hn. destruct p; simpl; apply Z.mod_pos_bound; exact Hn.
Qed.

Lemma live_press (p : Press) (s : State) :
  BetTab.areBetButtonsDisabled s = false ->
  0 <= BetTab.currentBetIndex s < BetTab.length_of (BetTab.betSteps s) ->
  exists s',
    press toFixed2 p s = BetTab.Normal s' /\
    BetTab.currentBetIndex s' = target p s /\
    BetTab.betSteps s' = BetTab.betSteps s /\
    BetTab.areBetButtonsDisabled s' = false /\
    BetTab.visible (BetTab.betAmountText s') = BetTab.visible (BetTab.betAmountText s) /\
    BetTab.visible (BetTab.gameplayBetText s') = BetTab.visible (BetTab.gameplayBetText s) /\
    consistent s' /\ displayed toFixed2 s'.
Proof.
  intros Hd Hi.
  set (n := BetTab.length_of (BetTab.betSteps s)) in *.
  set (i := BetTab.currentBetIndex s) in *.
  assert (Hgo : forall line j, j = target p s ->
            exists s',
              BetTab.updateBetDisplay toFixed2
                (BetTab.console_log number line [BetTab.element (BetTab.betSteps s) j]
                   (BetTab.select number j (BetTab.element (BetTab.betSteps s) j) s)) =
                BetTab.Normal s' /\
              BetTab.currentBetIndex s' = target p s /\
              BetTab.betSteps s' = BetTab.betSteps s /\
              BetTab.areBetButtonsDisabled s' = false /\
              BetTab.visible (BetTab.betAmountText s') = BetTab.visible (BetTab.betAmountText s) /\
              BetTab.visible (BetTab.gameplayBetText s') =
                BetTab.visible (BetTab.gameplayBetText s) /\
              consistent s' /\ displayed toFixed2 s').
  { intros line j ->.
    destruct (select_in_range line (target p s) s) as (s' & Hrun & H1 & H2 & H3 & H4 & H5 & H6 & H7).
    { apply target_in_range. fold n. lia. }
    exists s'. rewrite Hd in H3. repeat (split; [assumption|]). assumption. }
  destruct p; simpl press; unfold BetTab.handleBetIncrease, BetTab.handleBetDecrease;
    rewrite Hd; fold n; fold i; cbv zeta.
  - destruct (Z.ltb_spec i (n - 1)) as [Hlt|Hge]; apply Hgo; unfold target; fold n; fold i.
    + rewrite Z.mod_small by lia. reflexivity.
    + replace (i + 1) with n by lia. rewrite Z.mod_same by lia. reflexivity.
  - destruct (Z.ltb_spec 0 i) as [Hlt|Hge]; apply Hgo; unfold target; fold n; fold i.
    + rewrite Z.mod_small by lia. reflexivity.
    + replace (i - 1) with (-1) by lia.
      apply (Z.mod_unique _ _ (-1)); lia.
Qed.

(** X12.  However the two buttons are clicked, a selection that starts
    inside the array stays inside it: no click throws, the steps and the
    flag of the buttons stay as they are, the amount is always the step
    under the index, and the two texts go on showing that amount. *)
Theorem clicks_keep_the_selection_inside_the_steps (ps : list Press) (s : State) :
  consistent s -> displayed toFixed2 s ->
  exists s',
    presses toFixed2 ps s = BetTab.Normal s' /\
    consistent s' /\ displayed toFixed2 s' /\
    BetTab.betSteps s' = BetTab.betSteps s /\
    BetTab.areBetButtonsDisabled s' = BetTab.areBetButtonsDisabled s.
Proof.
  revert s. induction ps as [|p ps IH]; intros s Hc Hd.
  - exists s. repeat split; try assumption; apply Hc.
  - simpl presses. destruct (BetTab.areBetButtonsDisabled s) eqn:Hflag.
    + destruct (blocked_press p s Hflag) as (line & ->). simpl BetTab.and_then.
      destruct (IH (BetTab.console_log number line [] s)) as (s' & Hrun & H1 & H2 & H3 & H4);
        [exact Hc | exact Hd |].
      exists s'. rewrite Hrun. simpl in H3, H4. rewrite H4, Hflag.
      repeat (split; [first [reflexivity | assumption]|]). reflexivity.
    + destruct (live_press p s Hflag (proj1 Hc)) as (s1 & -> & _ & Hsteps & Hf & _ & _ & Hc1 & Hd1).
      simpl BetTab.and_then.
      destruct (IH s1 Hc1 Hd1) as (s' & Hrun & H1 & H2 & H3 & H4).
      exists s'. rewrite Hrun, H3, H4, Hsteps, Hf.
      repeat (split; [first [reflexivity | assumption]|]). reflexivity.
Qed.

(** X13.  The steps form a ring.  With the buttons enabled, [k] clicks on
    plus move the index [k] places forward modulo the number of steps, and
    [k] clicks on minus [k] places back; the amount follows the index. *)
Theorem clicks_walk_the_steps_as_a_ring (p : Press) (k : nat) (s : State) :
  BetTab.areBetButtonsDisabled s = false ->
  consistent s ->
  let n := BetTab.length_of (BetTab.betSteps s) in
  let i := match p with
           | Plus => (BetTab.currentBetIndex s + Z.of_nat k) mod n
           | Minus => (BetTab.currentBetIndex s - Z.of_nat k) mod n
           end in
  exists s',
    presses toFixed2 (repeat_press p k) s = BetTab.Normal s' /\
    BetTab.currentBetIndex s' = i /\
    BetTab.currentBetAmount s' = BetTab.element (BetTab.betSteps s) i.
Proof.
  revert s. induction k as [|k IH]; intros s Hflag Hc n i.
  - exists s. split; [reflexivity|].
    assert (Hi : i = BetTab.currentBetIndex s).
    { subst i n. destruct p; rewrite ?Z.add_0_r, ?Z.sub_0_r; apply Z.mod_small; apply Hc. }
    rewrite Hi. split; [reflexivity | apply Hc].
  - simpl repeat_press. simpl presses.
    destruct (live_press p s Hflag (proj1 Hc)) as (s1 & -> & Hidx & Hsteps & Hf & _ & _ & Hc1 & _).
    simpl BetTab.and_then.
    destruct (IH s1 Hf Hc1) as (s' & Hrun & Hi' & Ha').
    exists s'. split; [exact Hrun|].
    assert (Hsame : match p with
                    | Plus => (BetTab.currentBetIndex s1 + Z.of_nat k) mod
                                BetTab.length_of (BetTab.betSteps s1)
                    | Minus => (BetTab.currentBetIndex s1 - Z.of_nat k) mod
                                 BetTab.length_of (BetTab.betSteps s1)
                    end = i).
    { subst i n. rewrite Hidx, Hsteps. destruct p; unfold target.
      - rewrite Zplus_mod_idemp_l. f_equal. lia.
      - rewrite Zminus_mod_idemp_l. f_equal. lia. }
    rewrite Hsame in Hi', Ha'. rewrite Hsteps in Ha'. split; assumption.
Qed.

Lemma blocked_presses (ps : list Press) (s : State) :
  BetTab.areBetButtonsDisabled s = true ->
  exists s', presses toFixed2 ps s = BetTab.Normal s' /\ same_selection s s'.
Proof.
  revert s. induction ps as [|p ps IH]; intros s Hflag.
  - exists s. split; [reflexivity|]. repeat split.
  - simpl presses. destruct (blocked_press p s Hflag) as (line & ->). simpl BetTab.and_then.
    destruct (IH (BetTab.console_log number line [] s) Hflag) as (s' & Hrun & Hsame).
    exists s'. split; [exact Hrun | exact Hsame].
Qed.

(** X14.  Text mode freezes the bet.  After [switchToTextMode] no
    sequence of clicks changes the index, the amount, the steps or either
    text; the gameplay text is the visible one and shows the amount.
    [switchToInteractiveMode] swaps the two texts back and enables the
    buttons, again without touching the selection. *)
Theorem text_mode_freezes_the_selection (ps : list Press) (s : State) :
  consistent s ->
  exists s1 s2,
    BetTab.switchToTextMode toFixed2 s = BetTab.Normal s1 /\
    presses toFixed2 ps s1 = BetTab.Normal s2 /\
    same_selection s1 s2 /\
    BetTab.currentBetIndex s2 = BetTab.currentBetIndex s /\
    BetTab.currentBetAmount s2 = BetTab.currentBetAmount s /\
    BetTab.betSteps s2 = BetTab.betSteps s /\
    displayed toFixed2 s2 /\
    BetTab.visible (BetTab.gameplayBetText s2) = true /\
    BetTab.visible (BetTab.betAmountText s2) = false /\
    let s3 := BetTab.switchToInteractiveMode s2 in
    BetTab.areBetButtonsDisabled s3 = false /\
    BetTab.visible (BetTab.gameplayBetText s3) = false /\
    BetTab.visible (BetTab.betAmountText s3) = true /\
    BetTab.currentBetIndex s3 = BetTab.currentBetIndex s /\
    BetTab.currentBetAmount s3 = BetTab.currentBetAmount s.
Proof.
  intros [Hi Ha]. destruct (element_in_range _ _ Hi) as (a & Hel).
  rewrite Hel in Ha.
  unfold BetTab.switchToTextMode, BetTab.updateBetDisplay. simpl. rewrite Ha.
  eexists. 
  match goal with |- exists s2, BetTab.Normal ?x = _ /\ _ => set (s1 := x) end.
  destruct (blocked_presses ps s1 eq_refl) as (s2 & Hrun & Hsame).
  exists s2. split; [reflexivity|]. split; [exact Hrun|]. split; [exact Hsame|].
  destruct Hsame as (H1 & H2 & H3 & H4 & H5 & H6).
  split; [rewrite H1; reflexivity|]. split; [rewrite H2; simpl; congruence|].
  split; [rewrite H3; reflexivity|].
  split; [exists a; rewrite H2, H5, H6; repeat split; simpl; congruence|].
  split; [rewrite H6; reflexivity|]. split; [rewrite H5; reflexivity|].
  simpl. rewrite H1, H2. simpl. repeat split. congruence.
Qed.

(** X15.  New steps do not move a selection whose index still fits.
    [setBetSteps] then leaves the index, the amount and both texts as
    they were, so the tab can report and show an amount that is not
    among its steps; the first click on an enabled button selects from
    the new steps again. *)
Theorem setBetSteps_keeps_a_stale_amount (steps : list number) (p : Press) (s : State) :
  0 <= BetTab.currentBetIndex s < BetTab.length_of steps ->
  exists s',
    BetTab.setBetSteps toFixed2 steps s = BetTab.Normal s' /\
    BetTab.getBetSteps s' = steps /\
    BetTab.getBetAmount s' = BetTab.getBetAmount s /\
    BetTab.currentBetIndex s' = BetTab.currentBetIndex s /\
    BetTab.betAmountText s' = BetTab.betAmountText s /\
    BetTab.gameplayBetText s' = BetTab.gameplayBetText s /\
    (consistent s' <->
     BetTab.getBetAmount s = BetTab.element steps (BetTab.currentBetIndex s)) /\
    (BetTab.areBetButtonsDisabled s = false ->
     exists s'', press toFixed2 p s' = BetTab.Normal s'' /\
       consistent s'' /\ displayed toFixed2 s'' /\ BetTab.betSteps s'' = steps).
Proof.
  intros Hi. exists (BetTab.assign_betSteps number steps s).
  unfold BetTab.setBetSteps. cbv zeta.
  change (BetTab.betSteps (BetTab.assign_betSteps number steps s)) with steps.
  change (BetTab.currentBetIndex (BetTab.assign_betSteps number steps s))
    with (BetTab.currentBetIndex s).
  destruct (Z.leb_spec (BetTab.length_of steps) (BetTab.currentBetIndex s)) as [Hle|_]; [lia|].
  split; [reflexivity|]. do 5 (split; [reflexivity|]).
  split.
  - unfold consistent. simpl. unfold BetTab.getBetAmount. split; [intros [_ H]; exact H|].
    intros H. split; [exact Hi | exact H].
  - intros Hflag.
    destruct (live_press p (BetTab.assign_betSteps number steps s) Hflag Hi)
      as (s'' & Hrun & _ & Hsteps & _ & _ & _ & Hc & Hd).
    exists s''. repeat (split; [assumption|]). exact Hsteps.
Qed.

(** X16.  New steps that no longer reach the index send the selection
    to the first step, redrawn; if there is no first step the amount
    becomes [undefined] and the call ends in a [TypeError], with the
    texts left as they were. *)
Theorem setBetSteps_resets_an_index_out_of_range (steps : list number) (s : State) :
  BetTab.length_of steps <= BetTab.currentBetIndex s ->
  match steps with
  | a :: _ =>
      exists s',
        BetTab.setBetSteps toFixed2 steps s = BetTab.Normal s' /\
        BetTab.currentBetIndex s' = 0 /\ BetTab.getBetAmount s' = Some a /\
        BetTab.getBetSteps s' = steps /\ consistent s' /\ displayed toFixed2 s'
  | [] =>
      exists s',
        BetTab.setBetSteps toFixed2 steps s = BetTab.TypeError s' /\
        BetTab.currentBetIndex s' = 0 /\ BetTab.getBetAmount s' = None /\
        BetTab.betAmountText s' = BetTab.betAmountText s /\
        BetTab.gameplayBetText s' = BetTab.gameplayBetText s
  end.
Proof.
  intros Hle. unfold BetTab.setBetSteps. cbv zeta.
  change (BetTab.betSteps (BetTab.assign_betSteps number steps s)) with steps.
  change (BetTab.currentBetIndex (BetTab.assign_betSteps number steps s))
    with (BetTab.currentBetIndex s).
  destruct (Z.leb_spec (BetTab.length_of steps) (BetTab.currentBetIndex s)) as [_|Hlt]; [|lia].
  destruct steps as [|a rest].
  - eexists. split; [reflexivity|]. repeat split.
  - eexists. split; [reflexivity|]. simpl.
    split; [reflexivity|]. split; [reflexivity|]. split; [reflexivity|].
    split.
    + split; [|reflexivity]. simpl. unfold BetTab.length_of. simpl length. lia.
    + exists a. repeat split.
Qed.

Lemma indexOf_from_spec (steps : list number) (amount : number) (i : Z) :
  if existsb (fun x => strict_equal x amount) steps then
    exists k x,
      BetTab.indexOf_from number strict_equal steps amount i = i + Z.of_nat k /\
      nth_error steps k = Some x /\ strict_equal x amount = true /\
      forall j y, (j < k)%nat -> nth_error steps j = Some y -> strict_equal y amount = false
  else BetTab.indexOf_from number strict_equal steps amount i = -1.
Proof.
  revert i. induction steps as [|x rest IH]; intros i; [reflexivity|].
  simpl. destruct (strict_equal x amount) eqn:Hx; simpl.
  - exists 0%nat, x. split; [lia|]. split; [reflexivity|]. split; [exact Hx|].
    intros j y Hj. lia.
  - specialize (IH (i + 1)).
    destruct (existsb (fun x => strict_equal x amount) rest).
    + destruct IH as (k & y & Hidx & Hnth & Hy & Hbefore).
      exists (S k), y. split; [rewrite Hidx; lia|]. split; [exact Hnth|]. split; [exact Hy|].
      intros [|j] z Hj Hz; simpl in Hz.
      * injection Hz as <-. exact Hx.
      * apply (Hbefore j z); [lia | exact Hz].
    + exact IH.
Qed.

(** X17.  [setBetAmount] selects the first step that is strictly equal
    to the amount, stores the amount it was given and redraws; an amount
    that equals no step changes nothing at all, not even the console. *)
Theorem setBetAmount_selects_the_first_equal_step (amount : number) (s : State) :
  if existsb (fun x => strict_equal x amount) (BetTab.betSteps s) then
    exists s' k x,
      BetTab.setBetAmount strict_equal toFixed2 amount s = BetTab.Normal s' /\
      BetTab.getBetAmount s' = Some amount /\
      BetTab.currentBetIndex s' = Z.of_nat k /\
      nth_error (BetTab.betSteps s) k = Some x /\ strict_equal x amount = true /\
      (forall j y, (j < k)%nat -> nth_error (BetTab.betSteps s) j = Some y ->
                   strict_equal y amount = false) /\
      BetTab.getBetSteps s' = BetTab.getBetSteps s /\
      displayed toFixed2 s'
  else BetTab.setBetAmount strict_equal toFixed2 amount s = BetTab.Normal s.
Proof.
  pose proof (indexOf_from_spec (BetTab.betSteps s) amount 0) as Hspec.
  unfold BetTab.setBetAmount, BetTab.indexOf. cbv zeta.
  destruct (existsb (fun x => strict_equal x amount) (BetTab.betSteps s)).
  - destruct Hspec as (k & x & Hidx & Hnth & Hx & Hbefore). rewrite Hidx.
    destruct (Z.eqb_spec (0 + Z.of_nat k) (-1)) as [Heq|_]; [lia|]. simpl negb. cbv iota.
    eexists. exists k, x. split; [reflexivity|]. simpl.
    split; [reflexivity|]. split; [lia|]. split; [exact Hnth|]. split; [exact Hx|].
    split; [exact Hbefore|]. split; [reflexivity|].
    exists amount. repeat split.
  - rewrite Hspec. reflexivity.
Qed.

End BetSelection.

Lemma clicks_keep_the_selection_inside_the_steps_witness :
  exists s',
    presses Hundredths.toFixed2 [Minus; Minus; Minus; Minus; Plus] Hundredths.created =
      BetTab.Normal s' /\
    BetTab.currentBetIndex s' = 0 /\ BetTab.currentBetAmount s' = Some 10.
Proof.
  assert (Hc : consistent Hundredths.created) by (split; [unfold BetTab.length_of; simpl; lia | reflexivity]).
  assert (Hd : displayed Hundredths.toFixed2 Hundredths.created)
    by (exists 100; repeat split).
  destruct (clicks_keep_the_selection_inside_the_steps Hundredths.toFixed2
              [Minus; Minus; Minus; Minus; Plus] Hundredths.created Hc Hd)
    as (s' & Hrun & _).
  exists s'. split; [exact Hrun|].
  vm_compute in Hrun. injection Hrun as <-. split; reflexivity.
Defined.

Lemma clicks_walk_the_steps_as_a_ring_witness :
  exists s',
    presses Hundredths.toFixed2 (repeat_press Plus 10) Hundredths.created = BetTab.Normal s' /\
    BetTab.currentBetIndex s' = 3 /\ BetTab.currentBetAmount s' = Some 100.
Proof.
  assert (Hc : consistent Hundredths.created) by (split; [unfold BetTab.length_of; simpl; lia | reflexivity]).
  destruct (clicks_walk_the_steps_as_a_ring Hundredths.toFixed2 Plus 10 Hundredths.created eq_refl Hc)
    as (s' & Hrun & Hi & Ha).
  exists s'. split; [exact Hrun|]. split; [exact Hi | exact Ha].
Defined.

Lemma text_mode_freezes_the_selection_witness :
  consistent Hundredths.created /\
  exists s1 s2,
    BetTab.switchToTextMode Hundredths.toFixed2 Hundredths.created = BetTab.Normal s1 /\
    presses Hundredths.toFixed2 [Plus; Minus; Minus] s1 = BetTab.Normal s2 /\
    BetTab.currentBetAmount s2 = Some 100.
Proof.
  assert (Hc : consistent Hundredths.created)
    by (split; [unfold BetTab.length_of; simpl; lia | reflexivity]).
  split; [exact Hc|].
  destruct (text_mode_freezes_the_selection Hundredths.toFixed2 [Plus; Minus; Minus]
              Hundredths.created Hc) as (s1 & s2 & H1 & H2 & _ & _ & Ha & _).
  exists s1, s2. split; [exact H1|]. split; [exact H2 | exact Ha].
Defined.

Lemma setBetSteps_keeps_a_stale_amount_witness :
  0 <= BetTab.currentBetIndex Hundredths.created < BetTab.length_of [500; 1000; 2000; 4000] /\
  exists s',
    BetTab.setBetSteps Hundredths.toFixed2 [500; 1000; 2000; 4000] Hundredths.created =
      BetTab.Normal s' /\
    BetTab.getBetAmount s' = Some 100 /\ ~ consistent s'.
Proof.
  assert (Hi : 0 <= BetTab.currentBetIndex Hundredths.created <
               BetTab.length_of [500; 1000; 2000; 4000])
    by (unfold BetTab.length_of; simpl; lia).
  split; [exact Hi|].
  destruct (setBetSteps_keeps_a_stale_amount Hundredths.toFixed2 [500; 1000; 2000; 4000]
              Plus Hundredths.created Hi) as (s' & Hrun & _ & Ha & _ & _ & _ & Hiff & _).
  exists s'. split; [exact Hrun|]. split; [exact Ha|].
  intros Hc. apply Hiff in Hc. discriminate Hc.
Defined.

Lemma setBetSteps_resets_an_index_out_of_range_witness :
  BetTab.length_of [500; 1000] <= BetTab.currentBetIndex Hundredths.created /\
  exists s',
    BetTab.setBetSteps Hundredths.toFixed2 [500; 1000] Hundredths.created = BetTab.Normal s' /\
    BetTab.getBetAmount s' = Some 500.
Proof.
  assert (Hle : BetTab.length_of [500; 1000] <= BetTab.currentBetIndex Hundredths.created)
    by (unfold BetTab.length_of; simpl; lia).
  split; [exact Hle|].
  destruct (setBetSteps_resets_an_index_out_of_range Hundredths.toFixed2 [500; 1000]
              Hundredths.created Hle) as (s' & Hrun & _ & Ha & _).
  exists s'. split; [exact Hrun | exact Ha].
Defined.

(** * The inactivity watch *)

Section PageEffects.

Import Watch.

Lemma extend_nil (p : Window.Page) : extend [] p = p.
Proof. destruct p. unfold extend. simpl. rewrite app_nil_r. reflexivity. Qed.

Lemma extend_extend (es es' : list Window.Effect) (p : Window.Page) :
  extend es' (extend es p) = extend (es ++ es') p.
Proof. unfold extend. simpl. rewrite app_assoc. reflexivity. Qed.

Lemma emit_extend (e : Window.Effect) (p : Window.Page) : Window.emit e p = extend [e] p.
Proof. reflexivity. Qed.

Lemma alarm_count_app (es es' : list Window.Effect) :
  alarm_count (es ++ es') = (alarm_count es + alarm_count es')%nat.
Proof. unfold alarm_count. rewrite flat_map_app, length_app. reflexivity. Qed.

Lemma alarms_extend (es : list Window.Effect) (p : Window.Page) :
  alarms (extend es p) = (alarms p + alarm_count es)%nat.
Proof. unfold alarms. simpl. apply alarm_count_app. Qed.

Lemma timer_log_quiet (message : string) (data : JS.value) (t : InactivityTimer.Instance)
    (p : Window.Page) :
  exists es, InactivityTimer.log message data t p = extend es p /\ alarm_count es = 0%nat.
Proof.
  unfold InactivityTimer.log. destruct (InactivityTimer.debugMode _).
  - eexists. split; reflexivity.
  - exists []. rewrite extend_nil. split; reflexivity.
Qed.

Lemma run_hook_quiet (h : option (Window.Page -> Window.Page)) (p : Window.Page) :
  quiet_hook h ->
  exists es, InactivityTimer.run_hook h p = extend es p /\ alarm_count es = 0%nat.
Proof.
  destruct h as [f|]; simpl; intros Hq.
  - apply Hq.
  - exists []. rewrite extend_nil. split; reflexivity.
Qed.

Lemma setTimeout_extend (ms : Z) (es : list Window.Effect) (p : Window.Page) :
  Window.setTimeout ms (extend es p) =
  (fst (Window.setTimeout ms p), extend es (snd (Window.setTimeout ms p))).
Proof. reflexivity. Qed.

Lemma without_own (h : nat) (d : Z) : Window.without h [(h, d)] = [].
Proof. unfold Window.without. simpl. rewrite Nat.eqb_refl. reflexivity. Qed.

End PageEffects.

Ltac absorb_log :=
  match goal with
  | |- context [InactivityTimer.log ?m ?d ?t ?q] =>
      let es := fresh "es" in
      let Hes := fresh "Hes" in
      destruct (timer_log_quiet m d t q) as (es & -> & Hes)
  end.

Ltac absorb_hook H :=
  match goal with
  | |- context [InactivityTimer.run_hook ?h ?q] =>
      let es := fresh "es" in
      let Hes := fresh "Hes" in
      destruct (run_hook_quiet h q H) as (es & -> & Hes)
  end.

Ltac count_alarms :=
  rewrite ?alarm_count_app;
  repeat match goal with
         | H : Watch.alarm_count _ = _ |- _ => rewrite H; clear H
         end;
  first [reflexivity | unfold Watch.alarm_count; simpl; lia].

Ltac settle_alarms :=
  cbn [fst snd]; unfold Watch.alarms in *; simpl; rewrite ?alarm_count_app; lia.

Section TimerShapes.

Import Watch.

Lemma stop_shape (t : InactivityTimer.Instance) (p : Window.Page) :
  quiet_hook (InactivityTimer.onStop (InactivityTimer.events t)) ->
  exists es,
    InactivityTimer.stop t p = (stopped t, extend es (cleared t p)) /\
    alarm_count es = 0%nat.
Proof.
  intros Hq. unfold InactivityTimer.stop, InactivityTimer.clear_timer, InactivityTimer.clear_tick.
  destruct t as [c e tid st run pau tick]. simpl in Hq.
  destruct tid as [h|], tick as [k|]; simpl; absorb_log; absorb_hook Hq;
    rewrite extend_extend; eexists;
    (split; [f_equal; f_equal; destruct p; reflexivity | count_alarms]).
Qed.

Lemma stop_not_running (t : InactivityTimer.Instance) (p : Window.Page) :
  InactivityTimer.isRunning (fst (InactivityTimer.stop t p)) = false.
Proof.
  unfold InactivityTimer.stop, InactivityTimer.clear_timer, InactivityTimer.clear_tick.
  destruct t as [c e [h|] st run pau [k|]]; reflexivity.
Qed.

(** [start] and [reset] return: two calls of [start] is the deepest the
    recursion goes, and more fuel changes nothing. *)
Lemma reset_fuel_enough (fuel : nat) (t : InactivityTimer.Instance) (p : Window.Page) :
  InactivityTimer.reset_fuel (S fuel) t p = Some (InactivityTimer.reset t p).
Proof.
  unfold InactivityTimer.reset, InactivityTimer.reset_fuel, InactivityTimer.reset_with.
  pose proof (stop_not_running t p) as Hstop.
  destruct (InactivityTimer.stop t p) as [t1 p1]. simpl in Hstop.
  destruct (InactivityTimer.isRunning t); simpl; rewrite ?Hstop; simpl;
    [destruct (InactivityTimer.start_afresh t1 p1)|]; reflexivity.
Qed.

Lemma start_fuel_unfold (fuel : nat) (t : InactivityTimer.Instance) (p : Window.Page) :
  InactivityTimer.start_fuel (S fuel) t p =
  if InactivityTimer.isActive t then
    InactivityTimer.reset_fuel fuel t
      (InactivityTimer.log "Timer already running, resetting instead" JS.VUndefined t p)
  else Some (InactivityTimer.start_afresh t p).
Proof. reflexivity. Qed.

Lemma start_unfold (t : InactivityTimer.Instance) (p : Window.Page) :
  InactivityTimer.start t p =
  if InactivityTimer.isActive t then
    InactivityTimer.reset t
      (InactivityTimer.log "Timer already running, resetting instead" JS.VUndefined t p)
  else InactivityTimer.start_afresh t p.
Proof.
  unfold InactivityTimer.start. rewrite start_fuel_unfold.
  destruct (InactivityTimer.isActive t); [|reflexivity].
  rewrite reset_fuel_enough. reflexivity.
Qed.

Lemma reset_unfold (t : InactivityTimer.Instance) (p : Window.Page) :
  InactivityTimer.reset t p =
  let '(t1, p1) := InactivityTimer.stop t p in
  let '(t2, p2) := if InactivityTimer.isRunning t then InactivityTimer.start_afresh t1 p1
                   else (t1, p1) in
  (t2, InactivityTimer.run_hook (InactivityTimer.onReset (InactivityTimer.events t2))
         (InactivityTimer.log "Timer reset" JS.VUndefined t2 p2)).
Proof.
  unfold InactivityTimer.reset, InactivityTimer.reset_fuel, InactivityTimer.reset_with.
  pose proof (stop_not_running t p) as Hstop.
  destruct (InactivityTimer.stop t p) as [t1 p1]. simpl in Hstop.
  destruct (InactivityTimer.isRunning t); simpl; rewrite ?Hstop; simpl.
  - destruct (InactivityTimer.start_afresh t1 p1); reflexivity.
  - reflexivity.
Qed.

Lemma start_afresh_shape (n : nat) (t : InactivityTimer.Instance) (p : Window.Page) :
  well_behaved n t ->
  exists es,
    InactivityTimer.start_afresh t p =
    (restarted t p,
     extend es (rearmed (InactivityTimer.timeoutDuration (InactivityTimer.config t)) t p)) /\
    alarm_count es = 0%nat.
Proof.
  intros (_ & Hstart & Hstop & _ & _). unfold InactivityTimer.start_afresh.
  destruct (stop_shape t p Hstop) as (es0 & -> & Hes0).
  unfold InactivityTimer.start_ticking, InactivityTimer.startTickInterval.
  rewrite setTimeout_extend.
  destruct t as [c [hs hp hr ht] tid st run pau tick]. simpl in Hstart.
  unfold restarted, rearmed, ticking. simpl.
  destruct ht as [f|]; simpl; absorb_log; absorb_hook Hstart;
    rewrite ?extend_extend; eexists;
    (split; [f_equal; unfold extend, cleared; simpl;
             f_equal; rewrite <- ?app_assoc; reflexivity
            | count_alarms]).
Qed.

(** [reset]: a timer that was running is started afresh, one that was
    not is stopped and stays so. *)
Lemma reset_shape (n : nat) (t : InactivityTimer.Instance) (p : Window.Page) :
  well_behaved n t ->
  exists es,
    InactivityTimer.reset t p =
    (if InactivityTimer.isRunning t then
       (restarted t p,
        extend es (rearmed (InactivityTimer.timeoutDuration (InactivityTimer.config t)) t p))
     else (stopped t, extend es (cleared t p))) /\
    alarm_count es = 0%nat.
Proof.
  intros Hwb. pose proof Hwb as (_ & _ & Hstop & Hreset & _).
  rewrite reset_unfold.
  destruct (stop_shape t p Hstop) as (es0 & -> & Hes0).
  destruct (InactivityTimer.isRunning t).
  - destruct (start_afresh_shape n (stopped t) (extend es0 (cleared t p)) Hwb)
      as (es1 & -> & Hes1).
    absorb_log. absorb_hook Hreset. rewrite !extend_extend.
    eexists. split.
    + f_equal. unfold extend, rearmed, cleared, ticking, stopped. simpl. f_equal.
      rewrite <- !app_assoc. reflexivity.
    + count_alarms.
  - absorb_log. absorb_hook Hreset. rewrite !extend_extend. eexists.
    split; [reflexivity | count_alarms].
Qed.

(** [start] arms the timer for its whole duration from now on, whatever
    state it finds the timer in. *)
Lemma start_shape (n : nat) (t : InactivityTimer.Instance) (p : Window.Page) :
  well_behaved n t ->
  exists es,
    InactivityTimer.start t p =
    (restarted t p,
     extend es (rearmed (InactivityTimer.timeoutDuration (InactivityTimer.config t)) t p)) /\
    alarm_count es = 0%nat.
Proof.
  intros Hwb. rewrite start_unfold.
  destruct (InactivityTimer.isActive t) eqn:Hact.
  - absorb_log.
    destruct (reset_shape n t (extend es p) Hwb) as (es1 & -> & Hes1).
    unfold InactivityTimer.isActive in Hact. apply andb_prop in Hact as [-> _].
    eexists. split.
    + f_equal. unfold extend, rearmed. simpl. f_equal. rewrite <- app_assoc. reflexivity.
    + count_alarms.
  - apply (start_afresh_shape n). exact Hwb.
Qed.

Lemma pause_shape (t : InactivityTimer.Instance) (p : Window.Page) :
  exists es,
    InactivityTimer.pause t p =
    (if InactivityTimer.isActive t then (paused t, extend es (cleared t p))
     else (t, extend es p)) /\
    alarm_count es = 0%nat.
Proof.
  unfold InactivityTimer.pause, InactivityTimer.isActive,
    InactivityTimer.clear_timer, InactivityTimer.clear_tick.
  destruct t as [c e tid st run pau tick]. simpl.
  destruct run, pau; simpl; try (absorb_log; eexists; split; [reflexivity | assumption]).
  destruct tid as [h|], tick as [k|]; simpl; absorb_log; eexists;
    (split; [f_equal; destruct p; reflexivity | eassumption]).
Qed.

Lemma handleTimeout_shape (n : nat) (t : InactivityTimer.Instance) (p : Window.Page) :
  rings n (InactivityTimer.onTimeout (InactivityTimer.config t)) ->
  exists es,
    InactivityTimer.handleTimeout t p =
    (expired t,
     extend es (Window.assign_intervals
                  (clear_of (InactivityTimer.tickInterval t) (Window.intervals p)) p)) /\
    alarm_count es = n.
Proof.
  intros Hq. unfold InactivityTimer.handleTimeout, InactivityTimer.clear_tick.
  destruct t as [c e tid st run pau tick]. simpl in *.
  destruct tick as [k|]; simpl; absorb_log;
    match goal with
    | |- context [InactivityTimer.onTimeout c ?q] =>
        let threw := fresh "threw" in
        let q' := fresh "q" in
        let Hrun := fresh "Hrun" in
        let Hcount := fresh "Hcount" in
        let es := fresh "es" in
        destruct (Hq q) as (es & Hrun & Hcount);
        destruct (InactivityTimer.onTimeout c q) as [threw q'];
        simpl in Hrun; subst q'
    end;
    destruct threw; unfold Window.console_error;
    rewrite ?emit_extend, ?extend_extend; eexists;
    (split; [f_equal; f_equal; destruct p; reflexivity | count_alarms]).
Qed.

(** [resume] of a paused timer: with time left a timeout is armed for
    what is left, otherwise the timeout is handled on the spot. *)
Lemma resume_shape (n : nat) (t : InactivityTimer.Instance) (p : Window.Page) :
  rings n (InactivityTimer.onTimeout (InactivityTimer.config t)) ->
  exists es,
    InactivityTimer.resume t p =
    (if InactivityTimer.isRunning t && InactivityTimer.isPaused t then
       if 0 <? time_left t p then (resumed t p, extend es (added (time_left t p) t p))
       else (expired t,
             extend es (Window.assign_intervals
                          (clear_of (InactivityTimer.tickInterval t) (Window.intervals p)) p))
     else (t, extend es p)) /\
    alarm_count es =
      (if InactivityTimer.isRunning t && InactivityTimer.isPaused t &&
          negb (0 <? time_left t p) then n else 0%nat).
Proof.
  intros Hq. unfold InactivityTimer.resume.
  destruct (InactivityTimer.isRunning t) eqn:Hrun, (InactivityTimer.isPaused t) eqn:Hpau;
    simpl; try (absorb_log; eexists; split; [reflexivity | assumption]).
  fold (time_left t p).
  destruct (Z.ltb_spec 0 (time_left t p)) as [Hpos|Hneg]; simpl negb; cbv iota.
  - destruct (Z.leb_spec (Z.max 0 (time_left t p)) 0) as [Hle|_]; [lia|].
    unfold InactivityTimer.start_ticking, InactivityTimer.startTickInterval.
    destruct t as [c [hs hp hr ht] tid st run pau tick]. simpl in *. subst run pau.
    unfold resumed, added, ticking. simpl.
    destruct ht as [f|]; simpl; [destruct tick as [k|]; simpl|]; absorb_log;
      eexists;
      (split; [f_equal; unfold extend; simpl; f_equal;
               rewrite ?Z.max_r by lia; rewrite ?Z.max_r by lia; reflexivity
              | eassumption]).
  - destruct (Z.leb_spec (Z.max 0 (time_left t p)) 0) as [_|Hgt]; [|lia].
    apply handleTimeout_shape. exact Hq.
Qed.

Lemma on_interval_shape (n : nat) (t : InactivityTimer.Instance) (p : Window.Page) :
  well_behaved n t ->
  exists es,
    (snd (InactivityTimer.on_interval t p) = (t, extend es p) \/
     snd (InactivityTimer.on_interval t p) =
       (InactivityTimer.assign_tickInterval None t,
        extend es (Window.assign_intervals
                     (clear_of (InactivityTimer.tickInterval t) (Window.intervals p)) p))) /\
    alarm_count es = 0%nat.
Proof.
  intros (_ & _ & _ & _ & Htick). unfold InactivityTimer.on_interval.
  destruct (negb (InactivityTimer.isRunning t) || InactivityTimer.isPaused t).
  - exists []. split; [|reflexivity]. left. rewrite extend_nil. reflexivity.
  - cbv zeta.
    assert (Hrun : exists es threw,
               match InactivityTimer.onTick (InactivityTimer.events t) with
               | Some f => f (InactivityTimer.getRemainingTime t p) p
               | None => (false, p)
               end = (threw, extend es p) /\ alarm_count es = 0%nat).
    { destruct (InactivityTimer.onTick (InactivityTimer.events t)) as [f|].
      - destruct (Htick (InactivityTimer.getRemainingTime t p) p) as (es & Hes & Hcount).
        destruct (f (InactivityTimer.getRemainingTime t p) p) as [threw q].
        simpl in Hes. subst q. exists es, threw. split; [reflexivity | exact Hcount].
      - exists [], false. rewrite extend_nil. split; reflexivity. }
    destruct Hrun as (es & threw & -> & Hcount).
    exists es. split; [|exact Hcount]. destruct threw; [left; reflexivity|].
    destruct (InactivityTimer.getRemainingTime t p <=? 0); [|left; reflexivity].
    unfold InactivityTimer.clear_tick.
    destruct (InactivityTimer.tickInterval t) as [k|] eqn:Hk; simpl.
    + right. reflexivity.
    + left. reflexivity.
Qed.

End TimerShapes.

Section WatchInvariant.

Import Watch.

Lemma manager_log_line_quiet (debug : bool) (message : string) (args : list JS.value)
    (data : JS.value) (p : Window.Page) :
  exists es, GameActivityManager.log_line debug message args data p = extend es p /\
             alarm_count es = 0%nat.
Proof.
  unfold GameActivityManager.log_line. destruct debug.
  - eexists. split; reflexivity.
  - exists []. rewrite extend_nil. split; reflexivity.
Qed.

Lemma manager_log_quiet (message : string) (data : JS.value)
    (m : GameActivityManager.Instance) (p : Window.Page) :
  exists es, GameActivityManager.log message data m p = extend es p /\
             alarm_count es = 0%nat.
Proof. apply manager_log_line_quiet. Qed.

(** Handling the inactivity timeout never throws and raises one alarm:
    the call of the popup function, whether it returns or throws, or the
    warning that there is none. *)
Lemma handleInactivityTimeout_rings (debug : bool) :
  rings 1 (GameActivityManager.handleInactivityTimeout debug).
Proof.
  intros p. unfold GameActivityManager.handleInactivityTimeout.
  destruct (manager_log_line_quiet debug
              "Inactivity timeout triggered - calling window.openInActivePopup()"
              [] JS.VUndefined p) as (es0 & -> & Hes0).
  cbv zeta. change (Window.openInActivePopup (extend es0 p)) with (Window.openInActivePopup p).
  destruct (Window.openInActivePopup p) as [popup|].
  - unfold Window.call.
    destruct (cb_throws popup _ _); simpl snd.
    + unfold Window.console_error. rewrite !emit_extend, !extend_extend. eexists.
      split; [reflexivity | count_alarms].
    + rewrite emit_extend.
      match goal with
      | |- context [GameActivityManager.log_line ?d ?m ?a ?v ?q] =>
          destruct (manager_log_line_quiet d m a v q) as (es1 & -> & Hes1)
      end.
      rewrite !extend_extend. eexists. split; [reflexivity | count_alarms].
  - simpl snd. unfold Window.console_warn, Window.alert.
    destruct debug; rewrite !emit_extend, !extend_extend; eexists;
      (split; [reflexivity | count_alarms]).
Qed.

Lemma timeout_warning_rings (debug : bool) (remaining : Z) :
  rings 0 (GameActivityManager.timeout_warning debug remaining).
Proof.
  intros p. unfold GameActivityManager.timeout_warning.
  destruct ((remaining <=? 30000) && (Z.rem remaining 10000 =? 0)); simpl snd.
  - apply manager_log_line_quiet.
  - exists []. rewrite extend_nil. split; reflexivity.
Qed.

Lemma installed_well_behaved (debug : bool) (t : InactivityTimer.Instance) :
  installed debug t -> well_behaved 1 t.
Proof.
  intros (Hcb & _ & (minutes & Hstart) & Hstop & Hreset & Htick).
  unfold well_behaved. rewrite Hcb, Hstart, Hstop, Hreset, Htick.
  split; [apply handleInactivityTimeout_rings|].
  split.
  { intros p. unfold InactivityTimer.started_line. destruct debug.
    - eexists. split; reflexivity.
    - exists []. rewrite extend_nil. split; reflexivity. }
  split; [exact I|].
  split.
  { intros p. unfold InactivityTimer.reset_line. destruct debug.
    - eexists. split; reflexivity.
    - exists []. rewrite extend_nil. split; reflexivity. }
  destruct debug; [|exact I]. intros remaining. apply timeout_warning_rings.
Qed.

Lemma in_step_cleared (t : InactivityTimer.Instance) (p : Window.Page) :
  in_step t p ->
  Window.timeouts (cleared t p) = [] /\ Window.intervals (cleared t p) = [].
Proof.
  intros [Harm Htick]. unfold cleared. simpl. split.
  - destruct (InactivityTimer.isActive t).
    + destruct Harm as (h & d & -> & ->). simpl. apply without_own.
    + rewrite Harm. destruct (InactivityTimer.timerId t); reflexivity.
  - destruct (InactivityTimer.tickInterval t) as [k|].
    + destruct Htick as (d & ->). simpl. apply without_own.
    + exact Htick.
Qed.

Lemma in_step_stopped (es : list Window.Effect) (t : InactivityTimer.Instance)
    (p : Window.Page) :
  in_step t p -> in_step (stopped t) (extend es (cleared t p)).
Proof.
  intros H. destruct (in_step_cleared t p H) as [H1 H2]. split; simpl.
  - exact H1.
  - exact H2.
Qed.

Lemma in_step_paused (es : list Window.Effect) (t : InactivityTimer.Instance)
    (p : Window.Page) :
  in_step t p -> in_step (paused t) (extend es (cleared t p)).
Proof.
  intros H. destruct (in_step_cleared t p H) as [H1 H2]. split.
  - unfold InactivityTimer.isActive, paused. simpl. rewrite andb_false_r. exact H1.
  - exact H2.
Qed.

Lemma in_step_restarted (es : list Window.Effect) (delay : Z)
    (t : InactivityTimer.Instance) (p : Window.Page) :
  in_step t p -> in_step (restarted t p) (extend es (rearmed delay t p)).
Proof.
  intros H. destruct (in_step_cleared t p H) as [H1 H2].
  unfold cleared in H1, H2. simpl in H1, H2. split.
  - simpl. eexists _, _. split; [reflexivity|]. rewrite H1. reflexivity.
  - simpl. destruct (ticking t).
    + eexists. rewrite H2. reflexivity.
    + exact H2.
Qed.

Lemma in_step_expired (es : list Window.Effect) (t : InactivityTimer.Instance)
    (p : Window.Page) :
  Window.timeouts p = [] ->
  match InactivityTimer.tickInterval t with
  | Some h => exists due, Window.intervals p = [(h, due)]
  | None => Window.intervals p = []
  end ->
  in_step (expired t)
    (extend es (Window.assign_intervals
                  (clear_of (InactivityTimer.tickInterval t) (Window.intervals p)) p)).
Proof.
  intros H1 H2. split; simpl.
  - exact H1.
  - destruct (InactivityTimer.tickInterval t) as [k|].
    + destruct H2 as (d & ->). simpl. apply without_own.
    + exact H2.
Qed.

Lemma in_step_resumed (es : list Window.Effect) (delay : Z)
    (t : InactivityTimer.Instance) (p : Window.Page) :
  InactivityTimer.isRunning t = true -> InactivityTimer.isPaused t = true ->
  in_step t p -> in_step (resumed t p) (extend es (added delay t p)).
Proof.
  intros Hrun Hpau [Harm Htick].
  unfold InactivityTimer.isActive in Harm. rewrite Hrun, Hpau in Harm. simpl in Harm.
  split.
  - unfold InactivityTimer.isActive, resumed. simpl. rewrite Hrun. simpl.
    eexists _, _. split; [reflexivity|]. rewrite Harm. reflexivity.
  - simpl. destruct (ticking t).
    + eexists. destruct (InactivityTimer.tickInterval t) as [k|].
      * destruct Htick as (d & ->). unfold clear_of. rewrite without_own. reflexivity.
      * rewrite Htick. reflexivity.
    + exact Htick.
Qed.

Lemma installed_same (debug : bool) (t t' : InactivityTimer.Instance) :
  InactivityTimer.config t' = InactivityTimer.config t ->
  InactivityTimer.events t' = InactivityTimer.events t ->
  installed debug t -> installed debug t'.
Proof. unfold installed. intros -> ->. exact (fun H => H). Qed.

End WatchInvariant.

Ltac absorb_manager_log :=
  match goal with
  | |- context [GameActivityManager.log_line ?d ?m ?a ?v ?q] =>
      let es := fresh "es" in
      let Hes := fresh "Hes" in
      destruct (manager_log_line_quiet d m a v q) as (es & -> & Hes)
  | |- context [GameActivityManager.log ?msg ?v ?m ?q] =>
      let es := fresh "es" in
      let Hes := fresh "Hes" in
      destruct (manager_log_quiet msg v m q) as (es & -> & Hes)
  end.

Section WatchSteps.

Import Watch.

Lemma steady_initialize (m : GameActivityManager.Instance) (p : Window.Page) :
  steady (m, p) -> steady (GameActivityManager.initialize m p).
Proof.
  intros H. unfold GameActivityManager.initialize.
  set (p0 := match GameActivityManager.timer m with
             | Some t => _
             | None => p
             end).
  assert (Hp0 : Window.timeouts p0 = [] /\ Window.intervals p0 = []).
  { subst p0. unfold steady in H. simpl in H.
    destruct (GameActivityManager.timer m) as [t|]; [|exact H].
    destruct H as [Hinst Hstep]. absorb_manager_log.
    unfold InactivityTimer.destroy.
    destruct (stop_shape t (extend es p)
                (proj1 (proj2 (proj2 (installed_well_behaved _ _ Hinst)))))
      as (es1 & -> & _).
    absorb_log. simpl. apply (in_step_cleared t p Hstep). }
  clearbody p0. cbv zeta.
  unfold InactivityTimer.createGameInactivityTimer, InactivityTimer.new. cbv zeta.
  cbn [InactivityTimer.autoStart]. rewrite start_unfold.
  cbn [InactivityTimer.isActive InactivityTimer.isRunning andb].
  absorb_log.
  match goal with
  | |- context [InactivityTimer.start_afresh ?t0 ?q] =>
      assert (Hinst : installed (GameActivityManager.debugMode (GameActivityManager.config m)) t0);
      [|destruct (start_afresh_shape 1 t0 q (installed_well_behaved _ _ Hinst))
          as (es1 & -> & _)]
  end.
  { unfold installed. simpl. repeat split. eexists. reflexivity. }
  absorb_manager_log. unfold steady. simpl fst. simpl snd.
  cbn [GameActivityManager.timer GameActivityManager.assign_timer
       GameActivityManager.config].
  split.
  - revert Hinst. apply installed_same; reflexivity.
  - apply (in_step_restarted (es1 ++ es0)). destruct Hp0 as [H1 H2]. split; simpl.
    + exact H1.
    + exact H2.
Qed.

Lemma steady_recordActivity (activityType : string) (details : JS.value)
    (m : GameActivityManager.Instance) (p : Window.Page) :
  steady (m, p) -> steady (GameActivityManager.recordActivity activityType details m p).
Proof.
  intros H. unfold GameActivityManager.recordActivity. cbv zeta.
  destruct (negb (GameActivityManager.isEnabled m)); [absorb_manager_log; exact H|].
  destruct (GameActivityManager.includes _ _); [absorb_manager_log; exact H|].
  unfold steady in H. simpl in H.
  destruct (GameActivityManager.timer m) as [t|] eqn:Ht.
  - destruct H as [Hinst Hstep]. absorb_manager_log.
    destruct (reset_shape 1 t (extend es p) (installed_well_behaved _ _ Hinst))
      as (es1 & -> & _).
    unfold steady. destruct (InactivityTimer.isRunning t); simpl; split.
    + revert Hinst. apply installed_same; reflexivity.
    + apply (in_step_restarted (es ++ es1)). exact Hstep.
    + revert Hinst. apply installed_same; reflexivity.
    + apply (in_step_stopped (es ++ es1)). exact Hstep.
  - absorb_manager_log. unfold steady. simpl. rewrite Ht. exact H.
Qed.

Lemma steady_pauseTimer (m : GameActivityManager.Instance) (p : Window.Page) :
  steady (m, p) -> steady (GameActivityManager.pauseTimer m p).
Proof.
  intros H. unfold GameActivityManager.pauseTimer.
  unfold steady in H. simpl in H.
  destruct (GameActivityManager.timer m) as [t|] eqn:Ht.
  - destruct H as [Hinst Hstep].
    destruct (pause_shape t p) as (es & -> & _).
    destruct (InactivityTimer.isActive t); absorb_manager_log; unfold steady; simpl; split.
    + revert Hinst. apply installed_same; reflexivity.
    + apply (in_step_paused (es ++ es0)). exact Hstep.
    + exact Hinst.
    + exact Hstep.
  - unfold steady. simpl. rewrite Ht. exact H.
Qed.

Lemma steady_resumeTimer (m : GameActivityManager.Instance) (p : Window.Page) :
  steady (m, p) -> steady (GameActivityManager.resumeTimer m p).
Proof.
  intros H. unfold GameActivityManager.resumeTimer.
  unfold steady in H. simpl in H.
  destruct (GameActivityManager.timer m) as [t|] eqn:Ht.
  - destruct H as [Hinst Hstep].
    destruct (resume_shape 1 t p (proj1 (installed_well_behaved _ _ Hinst)))
      as (es & -> & _).
    destruct (InactivityTimer.isRunning t) eqn:Hrun, (InactivityTimer.isPaused t) eqn:Hpau;
      simpl andb; cbv iota;
      [destruct (0 <? time_left t p)|..]; absorb_manager_log; unfold steady; simpl;
      (split; [revert Hinst; apply installed_same; reflexivity|]);
      try exact Hstep.
    + apply (in_step_resumed (es ++ es0)); assumption.
    + destruct Hstep as [Harm Htick]. unfold InactivityTimer.isActive in Harm.
      rewrite Hrun, Hpau in Harm. simpl in Harm.
      apply (in_step_expired (es ++ es0)); assumption.
  - unfold steady. simpl. rewrite Ht. exact H.
Qed.

Lemma steady_disable (m : GameActivityManager.Instance) (p : Window.Page) :
  steady (m, p) -> steady (GameActivityManager.disable m p).
Proof.
  intros H. unfold GameActivityManager.disable. cbv zeta.
  pose proof (steady_pauseTimer (GameActivityManager.assign_isEnabled false m) p H) as H1.
  destruct (GameActivityManager.pauseTimer _ p) as [m1 p1].
  absorb_manager_log. exact H1.
Qed.

Lemma steady_enable (m : GameActivityManager.Instance) (p : Window.Page) :
  steady (m, p) -> steady (GameActivityManager.enable m p).
Proof.
  intros H. unfold GameActivityManager.enable. cbv zeta.
  pose proof (steady_resumeTimer (GameActivityManager.assign_isEnabled true m) p H) as H1.
  destruct (GameActivityManager.resumeTimer _ p) as [m1 p1].
  absorb_manager_log. exact H1.
Qed.

Lemma steady_setTimeoutDuration (minutes : Z) (m : GameActivityManager.Instance)
    (p : Window.Page) :
  steady (m, p) -> steady (GameActivityManager.setTimeoutDuration minutes m p).
Proof.
  intros H. unfold GameActivityManager.setTimeoutDuration. cbv zeta.
  unfold steady in H. simpl in H.
  cbn [GameActivityManager.timer GameActivityManager.assign_config].
  destruct (GameActivityManager.timer m) as [t|] eqn:Ht.
  - unfold InactivityTimer.setTimeoutDuration. cbv zeta. absorb_log. absorb_manager_log.
    unfold steady. simpl. destruct H as [Hinst Hstep]. split.
    + destruct Hinst as (H1 & H2 & H3 & H4 & H5 & H6). repeat split; assumption.
    + exact Hstep.
  - absorb_manager_log. unfold steady. simpl. rewrite Ht. exact H.
Qed.

Lemma steady_triggerTimeout (m : GameActivityManager.Instance) (p : Window.Page) :
  steady (m, p) -> steady (m, GameActivityManager.triggerTimeout m p).
Proof.
  intros H. unfold GameActivityManager.triggerTimeout. cbv zeta. absorb_manager_log.
  destruct (handleInactivityTimeout_rings
              (GameActivityManager.debugMode (GameActivityManager.config m))
              (extend es p)) as (es1 & -> & _).
  exact H.
Qed.

Lemma steady_destroy (m : GameActivityManager.Instance) (p : Window.Page) :
  steady (m, p) -> steady (GameActivityManager.destroy m p).
Proof.
  intros H. unfold GameActivityManager.destroy.
  unfold steady in H. simpl in H.
  destruct (GameActivityManager.timer m) as [t|] eqn:Ht.
  - destruct H as [Hinst Hstep]. unfold InactivityTimer.destroy.
    destruct (stop_shape t p (proj1 (proj2 (proj2 (installed_well_behaved _ _ Hinst)))))
      as (es1 & -> & _).
    absorb_log. simpl snd. absorb_manager_log. unfold steady. simpl.
    apply (in_step_cleared t p Hstep).
  - absorb_manager_log. unfold steady. simpl. rewrite Ht. exact H.
Qed.

Lemma due_found (h : nat) (ts : list (nat * Z)) (d : Z) :
  due h ts = Some d -> In (h, d) ts.
Proof.
  unfold due. destruct (find _ ts) as [[h' d']|] eqn:Hfind; [|discriminate].
  intros [= ->]. apply find_some in Hfind. destruct Hfind as [Hin Heq].
  simpl in Heq. apply Nat.eqb_eq in Heq. subst h'. exact Hin.
Qed.

Lemma steady_timeout_fires (h : nat) (s : State) :
  steady s -> steady (timeout_fires h s).
Proof.
  destruct s as [m p]. intros H. unfold timeout_fires.
  destruct (due h (Window.timeouts p)) as [d|] eqn:Hdue; [|exact H].
  destruct (d <=? Window.now p); [|exact H].
  apply due_found in Hdue.
  unfold steady in H. simpl in H. cbv zeta.
  destruct (GameActivityManager.timer m) as [t|] eqn:Ht.
  - destruct H as [Hinst [Harm Htick]].
    destruct (InactivityTimer.isActive t) eqn:Hact.
    + destruct Harm as (h' & d' & Hid & Hts). rewrite Hts in Hdue.
      destruct Hdue as [[= -> ->]|[]].
      rewrite Hid. simpl holds. rewrite Nat.eqb_refl.
      destruct (handleTimeout_shape 1 t (Window.clearTimeout h p)
                  (proj1 (installed_well_behaved _ _ Hinst))) as (es & -> & _).
      unfold steady. simpl. split.
      * revert Hinst. apply installed_same; reflexivity.
      * apply (in_step_expired es t (Window.clearTimeout h p)).
        -- simpl. rewrite Hts. apply without_own.
        -- exact Htick.
    + rewrite Harm in Hdue. destruct Hdue.
  - destruct H as [H1 H2]. rewrite H1 in Hdue. destruct Hdue.
Qed.

Lemma postpone_own (h : nat) (d : Z) : postpone h [(h, d)] = [(h, d + 1000)].
Proof. unfold postpone. simpl. rewrite Nat.eqb_refl. reflexivity. Qed.

Lemma steady_interval_fires (h : nat) (s : State) :
  steady s -> steady (interval_fires h s).
Proof.
  destruct s as [m p]. intros H. unfold interval_fires.
  destruct (due h (Window.intervals p)) as [d|] eqn:Hdue; [|exact H].
  destruct (d <=? Window.now p); [|exact H].
  apply due_found in Hdue.
  unfold steady in H. simpl in H. cbv zeta.
  destruct (GameActivityManager.timer m) as [t|] eqn:Ht.
  - destruct H as [Hinst [Harm Htick]].
    destruct (InactivityTimer.tickInterval t) as [k|] eqn:Hk.
    + destruct Htick as (d' & Hts). rewrite Hts in Hdue.
      destruct Hdue as [[= -> ->]|[]].
      simpl holds. rewrite Nat.eqb_refl. rewrite Hts, postpone_own.
      set (q := Window.assign_intervals [(h, d + 1000)] p).
      assert (Hq : in_step t q).
      { split; [exact Harm|]. rewrite Hk. eexists. reflexivity. }
      destruct (on_interval_shape 1 t q (installed_well_behaved _ _ Hinst))
        as (es & [Heq|Heq] & _);
        rewrite Heq; unfold steady; simpl;
        (split; [revert Hinst; apply installed_same; reflexivity|]).
      * exact Hq.
      * split; [exact Harm|]. simpl. rewrite Hk. simpl. apply without_own.
    + rewrite Htick in Hdue. destruct Hdue.
  - destruct H as [H1 H2]. rewrite H2 in Hdue. destruct Hdue.
Qed.

Lemma steady_step (a : Step) (s : State) : steady s -> steady (step a s).
Proof.
  destruct s as [m p]. intros H.
  destruct a; unfold step.
  - apply steady_initialize; exact H.
  - apply steady_recordActivity; exact H.
  - apply steady_pauseTimer; exact H.
  - apply steady_resumeTimer; exact H.
  - apply steady_disable; exact H.
  - apply steady_enable; exact H.
  - apply steady_setTimeoutDuration; exact H.
  - apply steady_triggerTimeout; exact H.
  - apply steady_destroy; exact H.
  - exact H.
  - apply (steady_timeout_fires h (m, p)); exact H.
  - apply (steady_interval_fires h (m, p)); exact H.
Qed.

Lemma steady_run (steps : list Step) (s : State) : steady s -> steady (run steps s).
Proof.
  revert s. induction steps as [|a steps IH]; intros s H; [exact H|].
  simpl. apply IH. apply steady_step. exact H.
Qed.

Lemma steady_new (c : GameActivityManager.Config) (t0 : Z) (popup : option Callback) :
  steady (GameActivityManager.new c (fresh t0 popup)).
Proof.
  unfold GameActivityManager.new. cbv zeta. absorb_manager_log.
  unfold steady. simpl. split; reflexivity.
Qed.

(** X18.  The watch never leaves a timer behind.  Whatever is called on
    a manager, in whatever order, and whenever the browser runs what is
    due, the table of the page holds the timeout of the manager's timer
    exactly while that timer is active, and no other; a paused, stopped
    or expired timer has none, so its callback cannot run.  The same goes
    for the one-second interval. *)
Theorem watch_arms_one_timeout_exactly_while_active
    (c : GameActivityManager.Config) (t0 : Z) (popup : option Callback)
    (steps : list Step) :
  let s := run steps (GameActivityManager.new c (fresh t0 popup)) in
  (if GameActivityManager.isTimerActive (fst s) then
     exists t h due,
       GameActivityManager.timer (fst s) = Some t /\
       InactivityTimer.timerId t = Some h /\
       Window.timeouts (snd s) = [(h, due)]
   else Window.timeouts (snd s) = []) /\
  (length (Window.intervals (snd s)) <= 1)%nat.
Proof.
  intros s. pose proof (steady_run steps _ (steady_new c t0 popup)) as H. fold s in H.
  destruct s as [m p]. unfold steady in H. simpl in *.
  unfold GameActivityManager.isTimerActive.
  destruct (GameActivityManager.timer m) as [t|].
  - destruct H as [_ [Harm Htick]]. split.
    + destruct (InactivityTimer.isActive t).
      * destruct Harm as (h & d & Hid & Hts). exists t, h, d. repeat split; assumption.
      * exact Harm.
    + destruct (InactivityTimer.tickInterval t).
      * destruct Htick as (d & ->). simpl. lia.
      * rewrite Htick. simpl. lia.
  - destruct H as [-> ->]. split; [reflexivity | simpl; lia].
Qed.

End WatchSteps.

Section WatchScenarios.

Import Watch.

(** X19.  Disabling the manager does not stop the clock.  [disable]
    takes the timeout out of the table, but the waiting time goes on
    being counted from the last start: [enable] arms a timeout for the
    moment the old one was due at, and if that moment has passed it
    handles the inactivity timeout at once, raising the alarm inside the
    call of [enable], after which the timer is no longer running. *)
Theorem disabled_watch_keeps_counting
    (m : GameActivityManager.Instance) (p : Window.Page) (t : InactivityTimer.Instance)
    (waited : N) :
  steady (m, p) ->
  GameActivityManager.timer m = Some t ->
  InactivityTimer.isActive t = true ->
  let s1 := GameActivityManager.disable m p in
  let s2 := GameActivityManager.enable (fst s1) (elapse waited (snd s1)) in
  GameActivityManager.isTimerActive (fst s1) = false /\
  Window.timeouts (snd s1) = [] /\
  GameActivityManager.isEnabled (fst s2) = true /\
  if 0 <? time_left t (elapse waited p) then
    GameActivityManager.isTimerActive (fst s2) = true /\
    Window.timeouts (snd s2) =
      [(Window.next_handle p,
        InactivityTimer.startTime t +
        InactivityTimer.timeoutDuration (InactivityTimer.config t))] /\
    alarms (snd s2) = alarms p
  else
    GameActivityManager.isTimerActive (fst s2) = false /\
    Window.timeouts (snd s2) = [] /\
    alarms (snd s2) = S (alarms p).
Proof.
  intros Hsteady Ht Hact s1 s2.
  unfold steady in Hsteady. simpl in Hsteady. rewrite Ht in Hsteady.
  destruct Hsteady as [Hinst Hstep].
  destruct (in_step_cleared t p Hstep) as [Hts _].
  pose proof Hts as Hts'. unfold cleared in Hts'. simpl in Hts'.
  assert (Hrun : InactivityTimer.isRunning t = true)
    by (unfold InactivityTimer.isActive in Hact; apply andb_prop in Hact; tauto).
  assert (Hs1 : exists es,
             s1 = (GameActivityManager.assign_timer (Some (paused t))
                     (GameActivityManager.assign_isEnabled false m),
                   extend es (cleared t p)) /\ alarm_count es = 0%nat).
  { subst s1. unfold GameActivityManager.disable, GameActivityManager.pauseTimer. cbv zeta.
    cbn [GameActivityManager.timer GameActivityManager.assign_isEnabled]. rewrite Ht.
    destruct (pause_shape t p) as (es & -> & Hes). rewrite Hact.
    do 2 absorb_manager_log. rewrite !extend_extend.
    eexists. split; [reflexivity | count_alarms]. }
  destruct Hs1 as (es1 & Hs1 & Hes1). subst s2. rewrite Hs1. clear Hs1 s1.
  split; [unfold GameActivityManager.isTimerActive, InactivityTimer.isActive; simpl;
          apply andb_false_r|].
  split; [exact Hts|].
  cbn [fst snd].
  unfold GameActivityManager.enable, GameActivityManager.resumeTimer. cbv zeta.
  cbn [GameActivityManager.timer GameActivityManager.assign_isEnabled
       GameActivityManager.assign_timer].
  destruct (resume_shape 1 (paused t) (elapse waited (extend es1 (cleared t p)))
              (proj1 (installed_well_behaved _ _ Hinst))) as (es2 & -> & Hes2).
  change (time_left (paused t) (elapse waited (extend es1 (cleared t p))))
    with (time_left t (elapse waited p)) in *.
  change (InactivityTimer.isRunning (paused t)) with (InactivityTimer.isRunning t) in *.
  change (InactivityTimer.isPaused (paused t)) with true in *.
  rewrite Hrun in *. simpl andb in *.
  destruct (Z.ltb_spec 0 (time_left t (elapse waited p))) as [Hpos|Hneg];
    simpl negb in Hes2; cbv iota in Hes2;
    do 2 absorb_manager_log; cbn [fst snd]; (split; [reflexivity|]).
  - split; [unfold GameActivityManager.isTimerActive, InactivityTimer.isActive; simpl;
            rewrite Hrun; reflexivity|].
    split.
    + simpl. rewrite Hts'. simpl. f_equal. f_equal.
      unfold time_left, elapse in Hpos |- *. simpl in Hpos |- *. lia.
    + settle_alarms.
  - split; [reflexivity|]. split; [exact Hts|]. settle_alarms.
Qed.

End WatchScenarios.

Section WatchAtRest.

Import Watch.

Lemma at_rest_not_active (m : GameActivityManager.Instance) :
  at_rest m -> GameActivityManager.isTimerActive m = false.
Proof.
  unfold at_rest, GameActivityManager.isTimerActive, InactivityTimer.isActive.
  destruct (GameActivityManager.timer m) as [t|]; [|reflexivity].
  intros ->. reflexivity.
Qed.

Lemma rest_recordActivity (activityType : string) (details : JS.value)
    (m : GameActivityManager.Instance) (p : Window.Page) :
  steady (m, p) -> at_rest m ->
  let s := GameActivityManager.recordActivity activityType details m p in
  at_rest (fst s) /\ alarms (snd s) = alarms p.
Proof.
  intros H Hrest. unfold GameActivityManager.recordActivity. cbv zeta.
  destruct (negb (GameActivityManager.isEnabled m));
    [absorb_manager_log; cbn [fst snd]; split; [exact Hrest | settle_alarms]|].
  destruct (GameActivityManager.includes _ _);
    [absorb_manager_log; cbn [fst snd]; split; [exact Hrest | settle_alarms]|].
  unfold steady in H. simpl in H. unfold at_rest in Hrest |- *.
  destruct (GameActivityManager.timer m) as [t|] eqn:Ht.
  - destruct H as [Hinst Hstep]. absorb_manager_log.
    destruct (reset_shape 1 t (extend es p) (installed_well_behaved _ _ Hinst))
      as (es1 & -> & Hes1).
    rewrite Hrest. simpl. split; [reflexivity|].
    settle_alarms.
  - absorb_manager_log. simpl. rewrite Ht. split; [exact I|].
    settle_alarms.
Qed.

Lemma rest_pauseTimer (m : GameActivityManager.Instance) (p : Window.Page) :
  at_rest m ->
  let s := GameActivityManager.pauseTimer m p in
  at_rest (fst s) /\ alarms (snd s) = alarms p.
Proof.
  intros Hrest. unfold GameActivityManager.pauseTimer. unfold at_rest in Hrest |- *.
  destruct (GameActivityManager.timer m) as [t|] eqn:Ht.
  - destruct (pause_shape t p) as (es & -> & Hes).
    unfold InactivityTimer.isActive. rewrite Hrest. simpl andb. cbv iota.
    absorb_manager_log. simpl. split; [exact Hrest|].
    settle_alarms.
  - simpl. rewrite Ht. split; [exact I | reflexivity].
Qed.

Lemma rest_resumeTimer (m : GameActivityManager.Instance) (p : Window.Page) :
  steady (m, p) -> at_rest m ->
  let s := GameActivityManager.resumeTimer m p in
  at_rest (fst s) /\ alarms (snd s) = alarms p.
Proof.
  intros H Hrest. unfold GameActivityManager.resumeTimer. unfold at_rest in Hrest |- *.
  unfold steady in H. simpl in H.
  destruct (GameActivityManager.timer m) as [t|] eqn:Ht.
  - destruct H as [Hinst _].
    destruct (resume_shape 1 t p (proj1 (installed_well_behaved _ _ Hinst)))
      as (es & -> & Hes).
    rewrite Hrest in *. simpl andb in *. cbv iota in *.
    absorb_manager_log. simpl. split; [exact Hrest|].
    settle_alarms.
  - simpl. rewrite Ht. split; [exact I | reflexivity].
Qed.

Lemma rest_step (a : Step) (m : GameActivityManager.Instance) (p : Window.Page) :
  steady (m, p) -> at_rest m -> calm a = true ->
  at_rest (fst (step a (m, p))) /\ alarms (snd (step a (m, p))) = alarms p.
Proof.
  intros H Hrest Hcalm. destruct a; try discriminate Hcalm; unfold step.
  - apply rest_recordActivity; assumption.
  - apply rest_pauseTimer; assumption.
  - apply rest_resumeTimer; assumption.
  - unfold GameActivityManager.disable. cbv zeta.
    pose proof (rest_pauseTimer (GameActivityManager.assign_isEnabled false m) p Hrest)
      as [H1 H2].
    destruct (GameActivityManager.pauseTimer _ p) as [m1 p1]. simpl in H1, H2.
    absorb_manager_log. simpl. split; [exact H1|]. settle_alarms.
  - unfold GameActivityManager.enable. cbv zeta.
    pose proof (rest_resumeTimer (GameActivityManager.assign_isEnabled true m) p H Hrest)
      as [H1 H2].
    destruct (GameActivityManager.resumeTimer _ p) as [m1 p1]. simpl in H1, H2.
    absorb_manager_log. simpl. split; [exact H1|]. settle_alarms.
  - unfold GameActivityManager.setTimeoutDuration. cbv zeta.
    cbn [GameActivityManager.timer GameActivityManager.assign_config].
    unfold at_rest in Hrest |- *.
    destruct (GameActivityManager.timer m) as [t|] eqn:Ht.
    + unfold InactivityTimer.setTimeoutDuration. cbv zeta. absorb_log. absorb_manager_log.
      simpl. split; [exact Hrest|]. settle_alarms.
    + absorb_manager_log. simpl. rewrite Ht. split; [exact I|]. settle_alarms.
  - unfold GameActivityManager.destroy. unfold at_rest in Hrest |- *.
    unfold steady in H. simpl in H.
    destruct (GameActivityManager.timer m) as [t|] eqn:Ht.
    + destruct H as [Hinst _]. unfold InactivityTimer.destroy.
      destruct (stop_shape t p (proj1 (proj2 (proj2 (installed_well_behaved _ _ Hinst)))))
        as (es1 & -> & Hes1).
      absorb_log. simpl snd. absorb_manager_log. simpl. split; [exact I|].
      settle_alarms.
    + absorb_manager_log. simpl. rewrite Ht. split; [exact I|]. settle_alarms.
  - split; [exact Hrest | reflexivity].
  - assert (Hts : Window.timeouts p = []).
    { pose proof (at_rest_not_active m Hrest) as Hna.
      unfold steady in H. simpl in H. unfold GameActivityManager.isTimerActive in Hna.
      destruct (GameActivityManager.timer m) as [t|]; [|apply H].
      destruct H as [_ [Harm _]]. rewrite Hna in Harm. exact Harm. }
    unfold timeout_fires. rewrite Hts. simpl. split; [exact Hrest | reflexivity].
  - unfold interval_fires.
    destruct (due h (Window.intervals p)) as [d|]; [|split; [exact Hrest | reflexivity]].
    destruct (d <=? Window.now p); [|split; [exact Hrest | reflexivity]].
    cbv zeta. unfold at_rest in Hrest |- *. unfold steady in H. simpl in H.
    destruct (GameActivityManager.timer m) as [t|] eqn:Ht.
    + destruct (holds (InactivityTimer.tickInterval t) h).
      * unfold InactivityTimer.on_interval. rewrite Hrest. simpl.
        split; [exact Hrest | reflexivity].
      * simpl. rewrite Ht. split; [exact Hrest | reflexivity].
    + simpl. rewrite Ht. split; [exact I | reflexivity].
Qed.

(** X20.  Once the timer has expired or been stopped, the watch is over.
    No recorded activity, no pause or resume, no disabling or enabling,
    no change of duration and no passing of time arms a timeout again or
    raises another alarm; only [initialize] starts a new wait. *)
Theorem watch_at_rest_stays_at_rest
    (steps : list Step) (m : GameActivityManager.Instance) (p : Window.Page) :
  steady (m, p) -> at_rest m -> forallb calm steps = true ->
  let s := run steps (m, p) in
  GameActivityManager.isTimerActive (fst s) = false /\
  Window.timeouts (snd s) = [] /\
  alarms (snd s) = alarms p.
Proof.
  intros Hsteady Hrest Hcalm s.
  assert (H : steady s /\ at_rest (fst s) /\ alarms (snd s) = alarms p).
  { subst s. revert m p Hsteady Hrest Hcalm.
    induction steps as [|a steps IH]; intros m p Hsteady Hrest Hcalm.
    - simpl. repeat split; assumption.
    - simpl in Hcalm. apply andb_prop in Hcalm as [Ha Hsteps].
      change (run (a :: steps) (m, p)) with (run steps (step a (m, p))).
      destruct (rest_step a m p Hsteady Hrest Ha) as [Hrest1 Halarms1].
      pose proof (steady_step a (m, p) Hsteady) as Hsteady1.
      destruct (step a (m, p)) as [m1 p1]. simpl in Hrest1, Halarms1.
      destruct (IH m1 p1 Hsteady1 Hrest1 Hsteps) as (H1 & H2 & H3).
      split; [exact H1|]. split; [exact H2|]. exact (eq_trans H3 Halarms1). }
  destruct H as (H1 & H2 & H3). destruct s as [m' p']. simpl in *.
  pose proof (at_rest_not_active m' H2) as Hna.
  split; [exact Hna|]. split; [|exact H3].
  unfold steady in H1. simpl in H1. unfold GameActivityManager.isTimerActive in Hna.
  destruct (GameActivityManager.timer m') as [t|]; [|apply H1].
  destruct H1 as [_ [Harm _]]. rewrite Hna in Harm. exact Harm.
Qed.

(** X21.  Recorded activity starts the wait afresh even on a paused
    timer.  When the manager is enabled, the activity type is not
    excluded and the timer is running, paused or not, [recordActivity]
    leaves it active with one timeout, due a full duration from now; a
    pause made with [pauseTimer] is over. *)
Theorem recorded_activity_ends_a_pause
    (activityType : string) (details : JS.value)
    (m : GameActivityManager.Instance) (p : Window.Page) (t : InactivityTimer.Instance) :
  steady (m, p) ->
  GameActivityManager.timer m = Some t ->
  InactivityTimer.isRunning t = true ->
  GameActivityManager.isEnabled m = true ->
  GameActivityManager.includes
    (GameActivityManager.excludeFromTimer (GameActivityManager.config m)) activityType = false ->
  let s := GameActivityManager.recordActivity activityType details m p in
  let duration := InactivityTimer.timeoutDuration (InactivityTimer.config t) in
  GameActivityManager.isTimerActive (fst s) = true /\
  Window.timeouts (snd s) = [(Window.next_handle p, Window.now p + Z.max 0 duration)] /\
  GameActivityManager.getRemainingTime (fst s) (snd s) = Z.max 0 duration /\
  alarms (snd s) = alarms p.
Proof.
  intros Hsteady Ht Hrun Hen Hex s duration. subst s.
  unfold GameActivityManager.recordActivity. cbv zeta. rewrite Hen, Hex, Ht. simpl negb.
  cbv iota.
  unfold steady in Hsteady. simpl in Hsteady. rewrite Ht in Hsteady.
  destruct Hsteady as [Hinst Hstep].
  destruct (in_step_cleared t p Hstep) as [Hts _]. unfold cleared in Hts. simpl in Hts.
  absorb_manager_log.
  destruct (reset_shape 1 t (extend es p) (installed_well_behaved _ _ Hinst))
    as (es1 & -> & Hes1).
  rewrite Hrun. simpl. split; [reflexivity|]. split; [rewrite Hts; reflexivity|].
  split.
  - unfold GameActivityManager.getRemainingTime, InactivityTimer.getRemainingTime. simpl.
    fold duration. lia.
  - settle_alarms.
Qed.

(** X22.  When the browser runs the timeout of the watch, the inactivity
    timeout is handled once: one alarm is raised, the timer is no longer
    running and the table is empty.  A timeout that is not due yet does
    not run. *)
Theorem due_timeout_raises_one_alarm
    (m : GameActivityManager.Instance) (p : Window.Page) (h : nat) (d : Z) :
  steady (m, p) ->
  Window.timeouts p = [(h, d)] ->
  let s := timeout_fires h (m, p) in
  if d <=? Window.now p then
    alarms (snd s) = S (alarms p) /\
    at_rest (fst s) /\
    Window.timeouts (snd s) = [] /\
    steady s
  else s = (m, p).
Proof.
  intros Hsteady Hts s. subst s.
  pose proof (steady_timeout_fires h (m, p) Hsteady) as Hafter.
  unfold timeout_fires in *. rewrite Hts in *. unfold due in *. simpl find in *.
  rewrite Nat.eqb_refl in *.
  destruct (d <=? Window.now p); [|reflexivity].
  unfold steady in Hsteady. simpl in Hsteady. cbv zeta in *.
  destruct (GameActivityManager.timer m) as [t|] eqn:Ht.
  - destruct Hsteady as [Hinst [Harm _]].
    destruct (InactivityTimer.isActive t); [|rewrite Hts in Harm; discriminate Harm].
    destruct Harm as (h' & d' & Hid & Heq). rewrite Hts in Heq. injection Heq as <- <-.
    rewrite Hid in *. simpl holds in *. rewrite Nat.eqb_refl in *.
    destruct (handleTimeout_shape 1 t (Window.clearTimeout h p)
                (proj1 (installed_well_behaved _ _ Hinst))) as (es & Heq & Hes).
    rewrite Heq in *. simpl. split; [|split; [|split]].
    + settle_alarms.
    + unfold at_rest. simpl. reflexivity.
    + rewrite Hts. apply without_own.
    + exact Hafter.
  - destruct Hsteady as [Hempty _]. rewrite Hts in Hempty. discriminate Hempty.
Qed.

End WatchAtRest.

Section TimerStart.

Import Watch.

Lemma start_fuel_enough (fuel : nat) (t : InactivityTimer.Instance) (p : Window.Page) :
  InactivityTimer.start_fuel (S (S fuel)) t p = Some (InactivityTimer.start t p).
Proof.
  unfold InactivityTimer.start. rewrite !start_fuel_unfold.
  destruct (InactivityTimer.isActive t); [|reflexivity].
  rewrite !reset_fuel_enough. reflexivity.
Qed.

(** X23.  [start] and [reset] always return, although they call each
    other: a fuel of two for [start] and of one for [reset] is never used
    up, and more fuel gives the same result.  Whatever state [start]
    finds the timer in (stopped, paused, running or expired), it leaves
    it running and not paused, started now, with its old timeout and
    interval cleared and one timeout armed for the whole duration. *)
Theorem start_returns_and_arms_for_the_whole_duration
    (n fuel : nat) (t : InactivityTimer.Instance) (p : Window.Page) :
  well_behaved n t ->
  exists es,
    InactivityTimer.start_fuel (2 + fuel) t p =
      Some (restarted t p,
            extend es (rearmed (InactivityTimer.timeoutDuration (InactivityTimer.config t))
                         t p)) /\
    InactivityTimer.reset_fuel (1 + fuel) t p = Some (InactivityTimer.reset t p) /\
    alarm_count es = 0%nat.
Proof.
  intros Hwb. destruct (start_shape n t p Hwb) as (es & Heq & Hes).
  exists es. split; [|split].
  - simpl plus. rewrite start_fuel_enough, Heq. reflexivity.
  - apply reset_fuel_enough.
  - exact Hes.
Qed.

End TimerStart.

Section WatchWitnesses.

Import Watch.

Lemma disabled_watch_keeps_counting_witness :
  let s := watching None in
  let s1 := GameActivityManager.disable (fst s) (snd s) in
  let s2 := GameActivityManager.enable (fst s1) (elapse 130000 (snd s1)) in
  steady s /\
  (exists t, GameActivityManager.timer (fst s) = Some t /\
             InactivityTimer.isActive t = true) /\
  alarms (snd s2) = 1%nat /\ Window.timeouts (snd s2) = [].
Proof.
  intros s s1 s2.
  assert (Hsteady : steady s) by (apply steady_run, steady_new).
  split; [exact Hsteady|].
  split; [eexists; split; reflexivity|].
  pose proof (disabled_watch_keeps_counting (fst s) (snd s) _ 130000%N
                Hsteady eq_refl eq_refl) as (_ & _ & _ & H).
  vm_compute in H. destruct H as (_ & H1 & H2). split; [exact H2 | exact H1].
Defined.

Lemma watch_at_rest_stays_at_rest_witness :
  let s := run [Initialize; Elapse 120000; TimeoutFires 1]
             (GameActivityManager.new defaults (fresh 0 None)) in
  let steps := [RecordActivity "cell_click" JS.VUndefined; Elapse 500000; Disable; Enable] in
  at_rest (fst s) /\ alarms (snd s) = 1%nat /\
  GameActivityManager.isTimerActive (fst (run steps s)) = false /\
  alarms (snd (run steps s)) = 1%nat.
Proof.
  intros s steps.
  assert (Hsteady : steady (fst s, snd s))
    by (rewrite <- surjective_pairing; apply steady_run, steady_new).
  assert (Hrest : at_rest (fst s)) by reflexivity.
  split; [exact Hrest|]. split; [reflexivity|].
  destruct (watch_at_rest_stays_at_rest steps (fst s) (snd s) Hsteady Hrest eq_refl)
    as (H1 & _ & H3).
  split; [exact H1 | exact H3].
Defined.

Lemma recorded_activity_ends_a_pause_witness :
  let s := run [Initialize; Elapse 60000; PauseTimer]
             (GameActivityManager.new defaults (fresh 0 None)) in
  let s' := GameActivityManager.recordActivity "cell_click" JS.VUndefined (fst s) (snd s) in
  GameActivityManager.isTimerActive (fst s) = false /\
  GameActivityManager.isTimerActive (fst s') = true /\
  Window.timeouts (snd s') = [(2%nat, 180000)].
Proof.
  intros s s'.
  assert (Hsteady : steady (fst s, snd s))
    by (rewrite <- surjective_pairing; apply steady_run, steady_new).
  split; [reflexivity|].
  destruct (recorded_activity_ends_a_pause "cell_click" JS.VUndefined (fst s) (snd s) _
              Hsteady eq_refl eq_refl eq_refl eq_refl) as (H1 & H2 & _).
  split; [exact H1 | exact H2].
Defined.

Lemma due_timeout_raises_one_alarm_witness :
  let s := run [Initialize; Elapse 120000]
             (GameActivityManager.new defaults (fresh 0 None)) in
  Window.timeouts (snd s) = [(1%nat, 120000)] /\
  alarms (snd (timeout_fires 1 s)) = 1%nat.
Proof.
  intros s.
  assert (Hsteady : steady (fst s, snd s))
    by (rewrite <- surjective_pairing; apply steady_run, steady_new).
  split; [reflexivity|].
  pose proof (due_timeout_raises_one_alarm (fst s) (snd s) 1 120000 Hsteady eq_refl) as H.
  vm_compute in H. destruct H as (H & _). exact H.
Defined.

Lemma start_returns_and_arms_for_the_whole_duration_witness :
  let t := {| InactivityTimer.config :=
                {| InactivityTimer.timeoutDuration := 5000;
                   InactivityTimer.onTimeout :=
                     GameActivityManager.handleInactivityTimeout false;
                   InactivityTimer.debugMode := false;
                   InactivityTimer.autoStart := false |};
              InactivityTimer.events :=
                {| InactivityTimer.onStart := None; InactivityTimer.onStop := None;
                   InactivityTimer.onReset := None; InactivityTimer.onTick := None |};
              InactivityTimer.timerId := None; InactivityTimer.startTime := 0;
              InactivityTimer.isRunning := false; InactivityTimer.isPaused := false;
              InactivityTimer.tickInterval := None |} in
  well_behaved 1 t /\
  exists r, InactivityTimer.start_fuel 7 t (fresh 10 None) = Some r /\
            Window.timeouts (snd r) = [(1%nat, 5010)].
Proof.
  intros t.
  assert (Hwb : well_behaved 1 t).
  { split; [apply handleInactivityTimeout_rings|]. repeat split. }
  split; [exact Hwb|].
  destruct (start_returns_and_arms_for_the_whole_duration 1 5 t (fresh 10 None) Hwb)
    as (es & Hrun & _ & _).
  eexists. split; [exact Hrun | reflexivity].
Defined.

End WatchWitnesses.

(** * Listeners nobody calls *)

Section SilentRegistries.

Import StoreApi.

Lemma remove_first_In (id : nat) (l : Callback) (ls : list Callback) :
  In l (remove_first id ls) -> In l ls.
Proof.
  induction ls as [|x ls IH]; simpl; [tauto|].
  destruct (Nat.eqb (cb_id x) id); simpl; tauto.
Qed.

Lemma each_once_ids (ls : list Callback) (args0 : list JS.value) (id : nat)
    (args : list JS.value) :
  In (id, args) (each_once ls args0) -> exists l, In l ls /\ cb_id l = id.
Proof.
  unfold each_once. rewrite in_map_iff. intros (l & [= <- <-] & Hin).
  exists l. split; [exact Hin | reflexivity].
Qed.

(** A computation that only writes to the store and to the console. *)
Lemma tame_quiet (m : M unit) :
  (forall w, exists evs w',
     m w = (Ret tt, w') /\ trace w' = trace w ++ evs /\ calls evs = [] /\
     vars w' = vars w) ->
  tame m [].
Proof.
  intros H w. destruct (H w) as (evs & w' & Hrun & Htr & Hcalls & Hvars).
  exists evs, w'. split; [exact Hrun|]. split; [exact Htr|]. split.
  - intros id args Hin. rewrite Hcalls in Hin. destruct Hin.
  - intros l Hin. left. rewrite <- Hvars. exact Hin.
Qed.

Lemma tame_get {A} (f : World -> A) : tame (get (gets f)) [].
Proof.
  apply tame_quiet. intros w. exists [], w.
  split; [reflexivity|]. split; [symmetry; apply app_nil_r|]. split; reflexivity.
Qed.

Ltac plain_write :=
  apply tame_quiet; intros [s v sv h tm tr]; eexists _, _;
  split; [reflexivity|]; split; [reflexivity|]; split; reflexivity.

Lemma tame_add (r : Registry) (callback : Callback) :
  tame (add r callback) (if fired r then [callback] else []).
Proof.
  intros [s [g l1 l2 l3 l4 l5 l6] sv h tm tr].
  destruct r; eexists _, _; (split; [reflexivity|]); (split; [reflexivity|]);
    (split; [intros id args []|]); unfold audible, GlobalState.push; simpl;
    intros l; rewrite ?in_app_iff; simpl; tauto.
Qed.

Lemma tame_unsubscribe (r : Registry) (callback : Callback) : tame (unsubscribe r callback) [].
Proof.
  intros [s [g l1 l2 l3 l4 l5 l6] sv h tm tr].
  destruct r; simpl unsubscribe;
    unfold GlobalState.unsubscribeGameStartedListener,
      GlobalState.unsubscribeGameEndedListener,
      unsubscribeBalanceChangeListener, unsubscribeGridDimensionChangeListener,
      GlobalState.unsubscribePendingGameRestoreListener,
      unsubscribePendingGameRestoreCompleteListener;
    unfold bind, gets, when; simpl;
    match goal with
    | |- context [existsb ?f ?ls] => destruct (existsb f ls)
    end;
    eexists _, _; (split; [reflexivity|]); simpl;
    try (split; [symmetry; apply app_nil_r|]); try (split; [reflexivity|]);
    (split; [intros id args []|]); unfold audible; simpl;
    intros l; rewrite ?in_app_iff;
    pose proof (remove_first_In (cb_id callback) l l1);
    pose proof (remove_first_In (cb_id callback) l l2);
    pose proof (remove_first_In (cb_id callback) l l3);
    pose proof (remove_first_In (cb_id callback) l l4);
    simpl; tauto.
Qed.

Lemma tame_setGameStarted (started : bool) : tame (GlobalState.setGameStarted started) [].
Proof.
  intros w. destruct (setGameStarted_runs started w) as (evs & Hrun & Hcalls & _).
  eexists evs, _. split; [exact Hrun|]. split; [destruct w; reflexivity|]. split.
  - intros id args Hin. rewrite Hcalls in Hin.
    destruct (started && negb (gameStarted (vars w)));
      [|destruct (negb started && gameStarted (vars w)); [|destruct Hin]];
      apply each_once_ids in Hin; destruct Hin as (l & Hl & Hid);
      exists l; (split; [left; unfold audible; rewrite !in_app_iff; tauto | exact Hid]).
  - intros l Hin. left. destruct w as [s [g l1 l2 l3 l4 l5 l6] sv h tm tr]. exact Hin.
Qed.

Lemma tame_setBalance (b : Z) : tame (GlobalState.setBalance b) [].
Proof.
  intros w. destruct (setBalance_runs b w) as (evs & Hrun & Hcalls).
  eexists evs, _. split; [exact Hrun|]. split; [destruct w; reflexivity|]. split.
  - intros id args Hin. rewrite Hcalls in Hin.
    destruct (Z.eqb (balance (store w)) b); [destruct Hin|].
    apply each_once_ids in Hin. destruct Hin as (l & Hl & Hid).
    exists l. split; [left; unfold audible; rewrite !in_app_iff; tauto | exact Hid].
  - intros l Hin. left. destruct w. exact Hin.
Qed.

Lemma tame_setGridDimensions (cols rows : JS.jsnum) :
  tame (GlobalState.setGridDimensions cols rows) [].
Proof.
  intros w. destruct (setGridDimensions_runs cols rows w) as (evs & Hrun & Hcalls & _).
  eexists evs, _. split; [exact Hrun|]. split; [destruct w; reflexivity|]. split.
  - intros id args Hin. rewrite Hcalls in Hin.
    destruct (JS.jsnum_neq (total_cols (store w)) cols ||
              JS.jsnum_neq (total_rows (store w)) rows); [|destruct Hin].
    apply each_once_ids in Hin. destruct Hin as (l & Hl & Hid).
    exists l. split; [left; unfold audible; rewrite !in_app_iff; tauto | exact Hid].
  - intros l Hin. left. destruct w. exact Hin.
Qed.

Lemma tame_use (u : Use) : tame (use u) (handed_over u).
Proof.
  destruct u; simpl handed_over; simpl use;
    try apply tame_get; try (plain_write; fail).
  - apply tame_setGameStarted.
  - apply tame_add.
  - apply tame_unsubscribe.
  - apply tame_setBalance.
  - apply tame_setGridDimensions.
Qed.

Lemma tame_bind (m1 m2 : M unit) (a1 a2 : list Callback) :
  tame m1 a1 -> tame m2 a2 -> tame (m1 ;; m2) (a1 ++ a2).
Proof.
  intros H1 H2 w.
  destruct (H1 w) as (e1 & w1 & Hrun1 & Htr1 & Hcalls1 & Hvars1).
  destruct (H2 w1) as (e2 & w2 & Hrun2 & Htr2 & Hcalls2 & Hvars2).
  exists (e1 ++ e2), w2. unfold bind. rewrite Hrun1, Hrun2.
  split; [reflexivity|]. split; [rewrite Htr2, Htr1, app_assoc; reflexivity|]. split.
  - intros id args Hin. rewrite calls_app, in_app_iff in Hin. destruct Hin as [Hin|Hin].
    + destruct (Hcalls1 id args Hin) as (l & Hl & Hid). exists l. rewrite in_app_iff.
      split; [tauto | exact Hid].
    + destruct (Hcalls2 id args Hin) as (l & Hl & Hid). exists l. rewrite in_app_iff.
      split; [|exact Hid]. destruct Hl as [Hl|Hl]; [|tauto].
      destruct (Hvars1 l Hl); tauto.
  - intros l Hin. rewrite in_app_iff. destruct (Hvars2 l Hin) as [Hl|Hl]; [|tauto].
    destruct (Hvars1 l Hl); tauto.
Qed.

Lemma tame_uses (us : list Use) : tame (uses us) (made_audible us).
Proof.
  induction us as [|u us IH].
  - intros w. exists [], w. split; [reflexivity|]. split; [symmetry; apply app_nil_r|].
    split; [intros id args []|]. intros l Hin. left. exact Hin.
  - change (made_audible (u :: us)) with (handed_over u ++ made_audible us).
    simpl uses. apply tame_bind; [apply tame_use | exact IH].
Qed.

(** X24.  Two of the six registries are never read.  A function handed
    only to [addPendingGameRestoreListener] or to
    [addPendingGameRestoreCompleteListener] is never called, whatever is
    done with the store afterwards: no sequence of calls of the members of
    [GlobalState] and of the unsubscribe closures calls it, and every such
    sequence returns. *)
Theorem restore_listeners_are_never_called (us : list Use) (w : World) (k : nat) :
  (forall l, In l (audible (vars w)) -> cb_id l <> k) ->
  forallb (fun u => negb (makes_audible k u)) us = true ->
  let r := uses us w in
  outcome_of r = Ret tt /\
  forall args, ~ In (k, args) (calls (new_events w (world_of r))).
Proof.
  intros Hfresh Hnot r. subst r.
  destruct (tame_uses us w) as (evs & w' & Hrun & Htr & Hcalls & _).
  rewrite Hrun. split; [reflexivity|].
  intros args Hin. unfold world_of in Hin. simpl in Hin.
  rewrite (new_events_extend w w' evs Htr) in Hin.
  destruct (Hcalls k args Hin) as (l & [Hl|Hl] & Hid).
  - exact (Hfresh l Hl Hid).
  - unfold made_audible in Hl. apply in_flat_map in Hl. destruct Hl as (u & Hu & Hl).
    rewrite forallb_forall in Hnot. specialize (Hnot u Hu).
    destruct u; try destruct Hl. simpl in Hnot, Hl.
    destruct (fired r); [|destruct Hl]. destruct Hl as [->|[]].
    simpl in Hnot. apply Nat.eqb_eq in Hid. rewrite Hid in Hnot. discriminate Hnot.
Qed.

End SilentRegistries.

Lemma restore_listeners_are_never_called_witness :
  let us := [StoreApi.AddListener StoreApi.PendingGameRestore (returning 7);
             StoreApi.AddListener StoreApi.PendingGameRestoreComplete (returning 7);
             StoreApi.AddListener StoreApi.GameStarted (returning 1);
             StoreApi.SetGameStarted true;
             StoreApi.TriggerPendingGameRestore;
             StoreApi.SetBalance 5;
             StoreApi.SetGameStarted false] in
  calls (new_events initial_world (world_of (StoreApi.uses us initial_world))) = [(1%nat, [])] /\
  forall args,
    ~ In (7%nat, args)
        (calls (new_events initial_world (world_of (StoreApi.uses us initial_world)))).
Proof.
  intros us. split; [reflexivity|].
  assert (Hfresh : forall l, In l (StoreApi.audible (vars initial_world)) -> cb_id l <> 7%nat)
    by (intros l []).
  exact (proj2 (restore_listeners_are_never_called us initial_world 7 Hfresh eq_refl)).
Defined.
